(** * Sorteio Ao Vivo: the raffle state and its handlers (App.tsx)

    A shallow embedding of the state held by the [App] component and of the
    handlers that change it: participant and prize registration, the coupon
    pool, the draw, and the resets.

    Conventions of the embedding.
    - A JavaScript [number] is an IEEE-754 binary64 value, [spec_float] of the
      Standard Library with precision 53 and maximal exponent 1024.
    - A JavaScript string is held as the bytes of its UTF-8 encoding: a byte
      below 128 is an ASCII character, and the other characters are made of
      bytes from 128 on.  Splitting at ASCII separators, keeping the ASCII
      digits, doubling the quotes and comparing two strings give the same on
      the bytes as on the characters.
    - [toLowerCase] and [trim] follow the tables of Unicode, which are no
      part of the program.  They are the two operations of the class
      [JS.Text]; what is proved for every [Text] holds of the functions of
      the language, and where a proof needs more of [trim], it assumes the
      laws [JS.TextLaws].  The instance [JS.ascii_text] gives the two
      functions on ASCII text; the examples of this file, all in ASCII, are
      evaluated with it.
    - Arrays are lists.  The coupon pool is the one array that a short input
      fills: [push] on it fails at the greatest length of an array,
      [2^32 - 1].  The other arrays grow by one element for an event or for
      a line of text.
    - A handler is a function from the values its closure reads (the state of
      the render it was created in, the text of the uncontrolled inputs, the
      clock, the random source) to the next state and the notices it shows
      with [alert].  Writes to the DOM (clearing an input, focus, confetti)
      are not part of the state. *)

From Stdlib Require Import ZArith QArith String Ascii List Bool Lia.
From Stdlib Require Import Floats.SpecFloat.
From stdpp Require Import base list gmap strings.

Local Open Scope string_scope.
Local Open Scope list_scope.
Local Open Scope Z_scope.

(** ** The JavaScript values and built-ins the handlers use *)

Module JS.

(** *** Numbers *)

Definition number : Type := spec_float.

Definition pzero : number := S754_zero false.
Definition NaN : number := S754_nan.
Definition Infinity : number := S754_infinity false.

(** The double nearest to an integer, and to [m / d]. *)
Definition of_Z (z : Z) : number := binary_normalize 53 1024 z 0 false.

Definition of_ratio (neg : bool) (m d : positive) : number :=
  SFdiv 53 1024 (S754_finite neg m 0) (S754_finite false d 0).

(** [Number.isFinite(x)] *)
Definition isFinite (x : number) : bool :=
  match x with
  | S754_zero _ | S754_finite _ _ _ => true
  | S754_infinity _ | S754_nan => false
  end.

(** [x <= y] and [x < y] on numbers. *)
Definition leb (x y : number) : bool := SFleb x y.
Definition ltb (x y : number) : bool := SFltb x y.

(** [ToBoolean] of a number: [NaN], [+0] and [-0] are falsy. *)
Definition truthy (x : number) : bool :=
  match x with
  | S754_nan | S754_zero _ => false
  | _ => true
  end.

(** [x || y] on numbers. *)
Definition or_else (x y : number) : number := if truthy x then x else y.

(** [Math.max(x, y)]: [NaN] if either is; [+0] is above [-0]. *)
Definition max (x y : number) : number :=
  match SFcompare x y with
  | None => NaN
  | Some Lt => y
  | Some Gt => x
  | Some Eq => match x with S754_zero true => y | _ => x end
  end.

(** The mathematical value of a finite number rounded down to an integer:
    [m * 2^e] when [e >= 0], [m / 2^(-e)] otherwise. *)
Definition floor_finite (neg : bool) (m : positive) (e : Z) : Z :=
  let v := if neg then Z.neg m else Z.pos m in
  match e with
  | Z.neg k => v / 2 ^ Z.pos k
  | _ => v * 2 ^ e
  end.

(** [i <= x] for the counter [i] of the loop that fills the pool.  The
    counter is at most one more than the length of the pool, so it stays
    below [2^32], where a double carries every integer exactly; it is kept
    as an exact integer and compared with the exact value of [x]. *)
Definition int_leb (i : Z) (x : number) : bool :=
  match x with
  | S754_nan => false
  | S754_infinity neg => negb neg
  | S754_zero _ => i <=? 0
  | S754_finite neg m e =>
      let v := if neg then Z.neg m else Z.pos m in
      match e with
      | Z.neg k => i * 2 ^ Z.pos k <=? v
      | _ => i <=? v * 2 ^ e
      end
  end.

(** The integer value of a number, when it has one. *)
Definition to_integer (x : number) : option Z :=
  match x with
  | S754_zero _ => Some 0
  | S754_finite neg m e =>
      let v := if neg then Z.neg m else Z.pos m in
      match e with
      | Z.neg k => if v mod 2 ^ Z.pos k =? 0 then Some (v / 2 ^ Z.pos k) else None
      | _ => Some (v * 2 ^ e)
      end
  | _ => None
  end.

(** A number that the format holds: the mantissa has at most 53 bits and
    the exponent is the one of the format for it. *)
Definition is_double (x : number) : bool := valid_binary 53 1024 x.

(** *** Arrays *)

(** The greatest length of an array. *)
Definition max_array_length : Z := 4294967295.

(** [arr.push(x)]: a [RangeError] when the array is full. *)
Definition push {A : Type} (arr : list A) (x : A) : option (list A) :=
  if Z.of_nat (length arr) <? max_array_length then Some (arr ++ [x]) else None.

(** *** Strings *)

Definition chars (s : string) : list ascii := list_ascii_of_string s.
Definition str (l : list ascii) : string := string_of_list_ascii l.

Definition code (c : ascii) : Z := Z.of_nat (nat_of_ascii c).

(** [!s] on a string. *)
Definition is_empty (s : string) : bool :=
  match s with EmptyString => true | String _ _ => false end.

(** [a || b] on strings. *)
Definition str_or (a b : string) : string := if is_empty a then b else a.

(** A text of ASCII characters only. *)
Definition ascii_only (s : string) : bool :=
  forallb (fun c => code c <? 128) (chars s).

(** [toLowerCase] on ASCII text: the letters A to Z. *)
Definition lower_char (c : ascii) : ascii :=
  if (65 <=? code c) && (code c <=? 90)
  then ascii_of_nat (nat_of_ascii c + 32)
  else c.

Fixpoint ascii_toLowerCase (s : string) : string :=
  match s with
  | EmptyString => EmptyString
  | String c r => String (lower_char c) (ascii_toLowerCase r)
  end.

(** The white space and the line terminators of ASCII: TAB, LF, VT, FF,
    CR, SP. *)
Definition is_space (c : ascii) : bool :=
  ((9 <=? code c) && (code c <=? 13)) || (code c =? 32).

Fixpoint skip_spaces (l : list ascii) : list ascii :=
  match l with
  | c :: r => if is_space c then skip_spaces r else l
  | [] => []
  end.

(** [trim] on ASCII text. *)
Definition ascii_trim (s : string) : string :=
  str (rev (skip_spaces (rev (skip_spaces (chars s))))).

(** [s.toLowerCase()] and [s.trim()], on every text: the lower case of
    Unicode, and the removal of the white space and line terminators of
    Unicode (U+00A0, U+FEFF, U+2028 and others besides those of ASCII) at
    both ends. *)
Class Text : Type := {
  toLowerCase : string -> string;
  trim : string -> string
}.

(** What the proofs use of [trim]: trimming twice is trimming once, and on
    ASCII text it removes TAB, LF, VT, FF, CR and SP. *)
Class TextLaws (T : Text) : Prop := {
  trim_idem : forall s : string, trim (trim s) = trim s;
  trim_ascii : forall s : string, ascii_only s = true -> trim s = ascii_trim s
}.

(** The two functions on ASCII text. *)
Definition ascii_text : Text :=
  {| toLowerCase := ascii_toLowerCase; trim := ascii_trim |}.

(** [s.split(re)] for a regular expression [re] that matches exactly one
    character of the class [sep], such as [/[,;\t]/]. *)
Fixpoint split_at (sep : ascii -> bool) (cur : list ascii) (l : list ascii)
  : list string :=
  match l with
  | [] => [str (rev cur)]
  | c :: r =>
      if sep c then str (rev cur) :: split_at sep [] r
      else split_at sep (c :: cur) r
  end.

Definition split_class (sep : ascii -> bool) (s : string) : list string :=
  split_at sep [] (chars s).

(** [s.split(re)] for [re] matching a maximal non-empty run of characters
    of the class [sep], such as [/\n+/]. *)
Fixpoint split_runs_at (sep : ascii -> bool) (skipping : bool)
  (cur : list ascii) (l : list ascii) : list string :=
  match l with
  | [] => [str (rev cur)]
  | c :: r =>
      if sep c then
        if skipping then split_runs_at sep true cur r
        else str (rev cur) :: split_runs_at sep true [] r
      else split_runs_at sep false (c :: cur) r
  end.

Definition split_runs (sep : ascii -> bool) (s : string) : list string :=
  split_runs_at sep false [] (chars s).

(** *** [Number(s)]: the StringToNumber conversion

    The white space that [Number] skips at both ends is the white space
    that [trim] removes; what is left must be a numeric literal, which is
    made of ASCII characters. *)

Definition digit_of (base : Z) (c : ascii) : option Z :=
  let n := code c in
  let d := if (48 <=? n) && (n <=? 57) then n - 48
           else if (97 <=? n) && (n <=? 102) then n - 87
           else if (65 <=? n) && (n <=? 70) then n - 55
           else 16 in
  if d <? base then Some d else None.

(** The longest prefix of digits in [base], as the list of their values,
    and the rest. *)
Fixpoint take_digits (base : Z) (l : list ascii) : list Z * list ascii :=
  match l with
  | c :: r =>
      match digit_of base c with
      | Some d => let '(ds, rest) := take_digits base r in (d :: ds, rest)
      | None => ([], l)
      end
  | [] => ([], [])
  end.

Definition digits_value (base : Z) (ds : list Z) : Z :=
  fold_left (fun acc d => acc * base + d) ds 0.

(** An optional sign: [true] for a minus. *)
Definition take_sign (l : list ascii) : bool * list ascii :=
  match l with
  | c :: r =>
      if code c =? 45 then (true, r)
      else if code c =? 43 then (false, r)
      else (false, l)
  | [] => (false, [])
  end.

(** The double nearest to [(-1)^neg * m * 10^e]. *)
Definition of_decimal (neg : bool) (m : Z) (e : Z) : number :=
  match m with
  | Z.pos p =>
      match e with
      | Z.neg k => of_ratio neg p (Pos.pow 10 k)
      | _ => binary_normalize 53 1024 ((if neg then - m else m) * 10 ^ e) 0 false
      end
  | _ => S754_zero neg
  end.

(** ExponentPart: [e] or [E], an optional sign, digits up to the end. *)
Definition parse_exponent (l : list ascii) : option Z :=
  match l with
  | [] => Some 0
  | c :: r =>
      if (code c =? 101) || (code c =? 69) then
        let '(neg, r1) := take_sign r in
        match take_digits 10 r1 with
        | (d :: ds, []) =>
            let v := digits_value 10 (d :: ds) in
            Some (if neg then - v else v)
        | _ => None
        end
      else None
  end.

(** StrUnsignedDecimalLiteral *)
Definition parse_unsigned (neg : bool) (l : list ascii) : number :=
  if bool_decide (l = chars "Infinity") then S754_infinity neg
  else
    let '(ip, r1) := take_digits 10 l in
    let '(fp, r2) :=
      match r1 with
      | c :: r => if code c =? 46 then take_digits 10 r else ([], r1)
      | [] => ([], r1)
      end in
    match ip ++ fp with
    | [] => NaN
    | ds =>
        match parse_exponent r2 with
        | Some e => of_decimal neg (digits_value 10 ds) (e - Z.of_nat (length fp))
        | None => NaN
        end
    end.

(** NonDecimalIntegerLiteral: [0x], [0o], [0b] and digits up to the end. *)
Definition parse_prefixed (l : list ascii) : option number :=
  match l with
  | z :: p :: r =>
      if code z =? 48 then
        let base :=
          if (code p =? 120) || (code p =? 88) then Some 16
          else if (code p =? 111) || (code p =? 79) then Some 8
          else if (code p =? 98) || (code p =? 66) then Some 2
          else None in
        match base with
        | Some b =>
            match take_digits b r with
            | (d :: ds, []) => Some (of_Z (digits_value b (d :: ds)))
            | _ => Some NaN
            end
        | None => None
        end
      else None
  | _ => None
  end.

Definition Number {T : Text} (s : string) : number :=
  match chars (trim s) with
  | [] => pzero
  | l =>
      match parse_prefixed l with
      | Some x => x
      | None => let '(neg, r) := take_sign l in parse_unsigned neg r
      end
  end.

End JS.

(** The instance with which the closed examples are evaluated. *)
#[global] Existing Instance JS.ascii_text | 100.

(** ** The data of the application *)

Module Participant.
Record t : Type := mk { name : string; qty : JS.number }.
End Participant.

(** [order] only ever receives an array length or an array index plus one; it
    is kept as an exact integer. *)
Module Prize.
Record t : Type := mk { name : string; order : Z }.
End Prize.

(** [couponNumber] receives the counter of the loop that fills the pool. *)
Module Coupon.
Record t : Type := mk { name : string; couponNumber : Z }.
End Coupon.

Module Winner.
Record t : Type := mk { name : string; couponNumber : Z; prize : string; ts : string }.
End Winner.

Module AuditRow.
Record t : Type := mk {
  Data : string;
  Hora : string;
  Participante : string;
  Cupom : Z;
  QtdeCupons : JS.number;
  Premio : string
}.
End AuditRow.

(** What [new Date()] gives to a draw: [toISOString()],
    [toLocaleDateString()] and [toLocaleTimeString()]. *)
Module Clock.
Record t : Type := mk { iso : string; localeDate : string; localeTime : string }.
End Clock.

(** The texts shown with [alert]. *)
Inductive Notice : Type :=
  | DuplicateName            (* "Este nome ja esta cadastrado (sem duplicados, ...)" *)
  | LinesSkipped (n : nat)   (* "<n> linha(s) ignorada(s) (invalidas ou nome duplicado)." *)
  | NoEligibleCoupons        (* "Sem cupons elegiveis (ou todos ja ganharam)." *)
  | NoPrizesLeft.            (* "Sem premios restantes." *)

(** The state of [App] that the handlers below read or write.  The
    presenter flag, the active tab, the search text and the view of the
    rolling animation take no part in them. *)
Record AppState : Type := mkState {
  participants : list Participant.t;
  prizes : list Prize.t;
  winners : list Winner.t;
  audit : list AuditRow.t;
  highlight : option Winner.t;
  countdown : nat;
  rolling : bool
}.

Definition initial : AppState :=
  {| participants := []; prizes := []; winners := []; audit := [];
     highlight := None; countdown := 0; rolling := false |}.

Definition setParticipants (f : list Participant.t -> list Participant.t) (s : AppState) : AppState :=
  {| participants := f (participants s); prizes := prizes s; winners := winners s;
     audit := audit s; highlight := highlight s; countdown := countdown s;
     rolling := rolling s |}.

Definition setPrizes (f : list Prize.t -> list Prize.t) (s : AppState) : AppState :=
  {| participants := participants s; prizes := f (prizes s); winners := winners s;
     audit := audit s; highlight := highlight s; countdown := countdown s;
     rolling := rolling s |}.

Definition setWinners (f : list Winner.t -> list Winner.t) (s : AppState) : AppState :=
  {| participants := participants s; prizes := prizes s; winners := f (winners s);
     audit := audit s; highlight := highlight s; countdown := countdown s;
     rolling := rolling s |}.

Definition setAudit (f : list AuditRow.t -> list AuditRow.t) (s : AppState) : AppState :=
  {| participants := participants s; prizes := prizes s; winners := winners s;
     audit := f (audit s); highlight := highlight s; countdown := countdown s;
     rolling := rolling s |}.

Definition setHighlight (h : option Winner.t) (s : AppState) : AppState :=
  {| participants := participants s; prizes := prizes s; winners := winners s;
     audit := audit s; highlight := h; countdown := countdown s;
     rolling := rolling s |}.

Definition setCountdown (n : nat) (s : AppState) : AppState :=
  {| participants := participants s; prizes := prizes s; winners := winners s;
     audit := audit s; highlight := highlight s; countdown := n;
     rolling := rolling s |}.

Definition setRolling (b : bool) (s : AppState) : AppState :=
  {| participants := participants s; prizes := prizes s; winners := winners s;
     audit := audit s; highlight := highlight s; countdown := countdown s;
     rolling := b |}.

(** ** Derived data *)

Section App.

Context {T : JS.Text}.

(** [(x.name || "").toLowerCase()] *)
Definition lower_name (p : Participant.t) : string :=
  JS.toLowerCase (JS.str_or (Participant.name p) "").

(** [new Set(winners.map((w) => (w.name || "").toLowerCase()))] *)
Definition winnersSet (ws : list Winner.t) : gset string :=
  list_to_set (map (fun w => JS.toLowerCase (JS.str_or (Winner.name w) "")) ws).

(** [prizes.filter((pr) => !winners.some((w) => w.prize === pr.name))] *)
Definition remainingPrizes (prs : list Prize.t) (ws : list Winner.t) : list Prize.t :=
  List.filter
    (fun pr => negb (existsb (fun w => String.eqb (Winner.prize w) (Prize.name pr)) ws))
    prs.

(** [Math.max(0, Number(p.qty) || 0)]; [Number] of a number is that number. *)
Definition clamp_qty (q : JS.number) : JS.number :=
  JS.max JS.pzero (JS.or_else q JS.pzero).

(** [for (let i = 1; i <= qty; i++) pool.push({ name, couponNumber: i })],
    from the counter [i] on, for at most [fuel] tests of its condition.
    [None]: a [push] has failed on the full array (or the tests are used
    up, which [loop_tests] excludes). *)
Fixpoint push_coupons (fuel : nat) (name : string) (qty : JS.number) (i : Z)
  (pool : list Coupon.t) : option (list Coupon.t) :=
  match fuel with
  | O => None
  | S fuel' =>
      if JS.int_leb i qty
      then
        match JS.push pool (Coupon.mk name i) with
        | Some pool' => push_coupons fuel' name qty (i + 1) pool'
        | None => None
        end
      else Some pool
  end.

(** A number of tests within which the loop over [1 .. qty] has left or a
    [push] has failed: an array takes at most [2^32 - 1] coupons. *)
Definition loop_tests (qty : JS.number) : nat :=
  match qty with
  | S754_finite false m e =>
      S (Z.to_nat (Z.min (JS.floor_finite false m e) JS.max_array_length))
  | S754_infinity false => S (Z.to_nat JS.max_array_length)
  | _ => 1
  end.

(** The body of [for (const p of participants)]: skip the winners, push the
    coupons of the others.  [None]: the pool is not returned, a [push] has
    failed. *)
Fixpoint fill_pool (ps : list Participant.t) (won : gset string)
  (pool : list Coupon.t) : option (list Coupon.t) :=
  match ps with
  | [] => Some pool
  | p :: rest =>
      if bool_decide (lower_name p ∈ won)
      then fill_pool rest won pool
      else
        let qty := clamp_qty (Participant.qty p) in
        match push_coupons (loop_tests qty) (Participant.name p) qty 1 pool with
        | Some pool' => fill_pool rest won pool'
        | None => None
        end
  end.

(** [couponsPool]; [drawCore] builds its [currentPool] with the same loop. *)
Definition couponsPool (ps : list Participant.t) (won : gset string)
  : option (list Coupon.t) :=
  fill_pool ps won [].

(** ** The handlers

    A handler created in one render reads the state of that render
    ([seen]) and passes updaters to the setters, which apply them to the
    state at that moment ([s]).  For a click on a button the two are the
    same state. *)

(** [!name || !Number.isFinite(qty) || qty <= 0] *)
Definition invalid_entry (name : string) (qty : JS.number) : bool :=
  JS.is_empty name || negb (JS.isFinite qty) || JS.leb qty JS.pzero.

(** [addParticipant], with the texts of the name and quantity inputs. *)
Definition addParticipant (nameInput qtyInput : string) (s : AppState)
  : AppState * list Notice :=
  let name := JS.trim (JS.str_or nameInput "") in
  let qty := JS.Number (JS.str_or qtyInput "") in
  if invalid_entry name qty then (s, [])
  else
    match find (fun x => String.eqb (lower_name x) (JS.toLowerCase name)) (participants s) with
    | Some _ => (s, [DuplicateName])
    | None => (setParticipants (fun prev => prev ++ [Participant.mk name qty]) s, [])
    end.

Definition editParticipantQty (name newQty : string) (s : AppState) : AppState :=
  let qty := JS.max JS.pzero (JS.or_else (JS.Number newQty) JS.pzero) in
  setParticipants
    (map (fun p => if String.eqb (Participant.name p) name
                   then Participant.mk (Participant.name p) qty
                   else p))
    s.

Definition removeParticipant (name : string) (s : AppState) : AppState :=
  setParticipants
    (List.filter (fun p => negb (String.eqb (Participant.name p) name)))
    s.

Definition is_newline (c : ascii) : bool := JS.code c =? 10.

(** The class [[,;\t]]. *)
Definition is_field_sep (c : ascii) : bool :=
  (JS.code c =? 44) || (JS.code c =? 59) || (JS.code c =? 9).

(** [l.map((x) => x.trim()).filter(Boolean)] *)
Definition trimmed_nonempty (l : list string) : list string :=
  List.filter (fun x => negb (JS.is_empty x)) (map JS.trim l).

(** [parts[i] || d] *)
Definition part_or (parts : list string) (i : nat) (d : string) : string :=
  match parts !! i with
  | Some x => JS.str_or x d
  | None => d
  end.

(** One turn of [for (const line of lines)] on [toAdd] and [skipped]. *)
Definition import_line (lowerExisting : gset string)
  (acc : list Participant.t * nat) (line : string) : list Participant.t * nat :=
  let '(toAdd, skipped) := acc in
  let parts := trimmed_nonempty (JS.split_class is_field_sep line) in
  let name := part_or parts 0 "" in
  let qty := JS.Number (part_or parts 1 "0") in
  if invalid_entry name qty then (toAdd, S skipped)
  else
    let key := JS.toLowerCase name in
    if bool_decide (key ∈ lowerExisting)
       || existsb (fun x => String.eqb (JS.toLowerCase (Participant.name x)) key) toAdd
    then (toAdd, S skipped)
    else (toAdd ++ [Participant.mk name qty], skipped).

(** [bulkImport], with the text of the text area. *)
Definition bulkImport (seen : AppState) (raw : string) (s : AppState)
  : AppState * list Notice :=
  let lines := trimmed_nonempty (JS.split_runs is_newline (JS.str_or raw "")) in
  match lines with
  | [] => (s, [])
  | _ =>
      let lowerExisting : gset string := list_to_set (map lower_name (participants seen)) in
      let '(toAdd, skipped) := fold_left (import_line lowerExisting) lines ([], O) in
      (setParticipants (fun prev => prev ++ toAdd) s,
       match skipped with O => [] | S _ => [LinesSkipped skipped] end)
  end.

(** [addPrize], with the text of the prize input. *)
Definition addPrize (nameInput : string) (s : AppState) : AppState :=
  let nm := JS.trim (JS.str_or nameInput "") in
  if JS.is_empty nm then s
  else setPrizes (fun prev => prev ++ [Prize.mk nm (Z.of_nat (length prev) + 1)]) s.

Definition removePrize (name : string) (s : AppState) : AppState :=
  setPrizes
    (fun prev =>
       imap (fun i p => Prize.mk (Prize.name p) (Z.of_nat i + 1))
         (List.filter (fun p => negb (String.eqb (Prize.name p) name)) prev))
    s.

Definition resetWinners (s : AppState) : AppState :=
  setHighlight None (setWinners (fun _ => []) s).

(** [hardReset], with the answer to [confirm]. *)
Definition hardReset (confirmed : bool) (s : AppState) : AppState :=
  if negb confirmed then s
  else
    setHighlight None
      (setAudit (fun _ => [])
         (setWinners (fun _ => [])
            (setPrizes (fun _ => [])
               (setParticipants (fun _ => []) s)))).

(** The button "Limpar" of the audit tab: [setAudit([])]. *)
Definition clearAudit (s : AppState) : AppState := setAudit (fun _ => []) s.

(** A click on the winner overlay: [setHighlight(null)]. *)
Definition closeHighlight (s : AppState) : AppState := setHighlight None s.

(** [Math.floor(Math.random() * n)], with [rnd] the value of
    [Math.random()] and [n] the length of an array: the product of the two
    doubles, rounded to a double, then rounded down.  [None]: the result is
    no index ([NaN], infinite or negative). *)
Definition random_index (rnd : JS.number) (n : nat) : option nat :=
  match SFmul 53 1024 rnd (JS.of_Z (Z.of_nat n)) with
  | S754_zero _ => Some O
  | S754_finite false m e => Some (Z.to_nat (JS.floor_finite false m e))
  | _ => None
  end.

(** [pool[idx]] for [idx = Math.floor(Math.random() * pool.length)];
    [None] when it is [undefined]. *)
Definition pick_at (pool : list Coupon.t) (rnd : JS.number) : option Coupon.t :=
  match random_index rnd (length pool) with
  | Some idx => pool !! idx
  | None => None
  end.

(** [(participants.find((p) => p.name === pick.name)?.qty || 0)] *)
Definition qty_of (ps : list Participant.t) (name : string) : JS.number :=
  match find (fun p => String.eqb (Participant.name p) name) ps with
  | Some p => JS.or_else (Participant.qty p) JS.pzero
  | None => JS.pzero
  end.

(** [drawCore].  The result is [None] when the call throws: the pool is not
    built, or the picked coupon is [undefined] (which [0 <= Math.random() < 1]
    excludes).  Otherwise it is the next state, the notices, and the returned
    winner or [null]. *)
Definition drawCore (seen : AppState) (now : Clock.t) (rnd : JS.number) (s : AppState)
  : option (AppState * list Notice * option Winner.t) :=
  match couponsPool (participants seen) (winnersSet (winners seen)) with
  | None => None
  | Some currentPool =>
      let currentRemaining := remainingPrizes (prizes seen) (winners seen) in
      match currentPool with
      | [] => Some (s, [NoEligibleCoupons], None)
      | _ :: _ =>
          match currentRemaining with
          | [] => Some (s, [NoPrizesLeft], None)
          | prize :: _ =>
              match pick_at currentPool rnd with
              | None => None
              | Some pick =>
                  let win :=
                    Winner.mk (Coupon.name pick) (Coupon.couponNumber pick)
                      (Prize.name prize) (Clock.iso now) in
                  let row :=
                    AuditRow.mk (Clock.localeDate now) (Clock.localeTime now)
                      (Coupon.name pick) (Coupon.couponNumber pick)
                      (qty_of (participants seen) (Coupon.name pick))
                      (Prize.name prize) in
                  Some (setHighlight (Some win)
                          (setAudit (fun prev => prev ++ [row])
                             (setWinners (fun prev => prev ++ [win]) s)),
                        [], Some win)
              end
          end
      end
  end.

(** [rolling || countdown] *)
Definition busy (s : AppState) : bool :=
  rolling s || negb (Nat.eqb (countdown s) 0).

(** [draw]: the button "Sortear agora". *)
Definition draw (seen : AppState) (now : Clock.t) (rnd : JS.number) (s : AppState)
  : option (AppState * list Notice * option Winner.t) :=
  if busy seen then Some (s, [], None) else drawCore seen now rnd s.

(** [drawWithCountdown] up to its first [await]: refused while busy; with an
    empty pool or no prize left it is [drawCore]; otherwise the countdown
    starts at 3.  The flag tells whether the countdown started. *)
Definition drawWithCountdown_enter (seen : AppState) (now : Clock.t) (rnd : JS.number)
  (s : AppState) : option (AppState * list Notice * option Winner.t * bool) :=
  if busy seen then Some (s, [], None, false)
  else
    match couponsPool (participants seen) (winnersSet (winners seen)) with
    | None => None
    | Some pool =>
        let hasPool := negb (Nat.eqb (length pool) 0) in
        let hasPrize :=
          negb (Nat.eqb (length (remainingPrizes (prizes seen) (winners seen))) 0) in
        if negb hasPool || negb hasPrize then
          match drawCore seen now rnd s with
          | Some (s', notices, w) => Some (s', notices, w, false)
          | None => None
          end
        else Some (setCountdown 3 s, [], None, true)
    end.

(** ** The application as a transition system

    The state of the system is the state of [App] together with the render
    that a running [drawWithCountdown] has captured, if one is running: its
    last step calls the [drawCore] of that render.  The events are the
    clicks and the expiries of the timers of [drawWithCountdown]. *)

Record System : Type := mkSystem {
  app : AppState;
  inflight : option AppState
}.

(** The first load, with nothing in local storage.  What local storage holds
    on a later load, the application has written there. *)
Definition start : System := {| app := initial; inflight := None |}.

Inductive Event : Type :=
  | AddParticipant (nameInput qtyInput : string)
  | EditParticipantQty (name newQty : string)
  | RemoveParticipant (name : string)
  | BulkImport (raw : string)
  | AddPrize (nameInput : string)
  | RemovePrize (name : string)
  | ResetWinners
  | HardReset (confirmed : bool)
  | ClearAudit
  | CloseHighlight
  | Draw (now : Clock.t) (rnd : JS.number)
  | DrawWithCountdown (now : Clock.t) (rnd : JS.number)
  | CountdownTimer                                     (* 700 ms have passed *)
  | RollingTimer (now : Clock.t) (rnd : JS.number).    (* 1800 ms have passed *)

(** The next state of the system.  [None]: the event cannot happen (the
    button is disabled while [rolling || countdown > 0], no timer is
    pending) or its handler throws. *)
Definition fire (ev : Event) (sys : System) : option System :=
  let s := app sys in
  let keep s' := Some {| app := s'; inflight := inflight sys |} in
  match ev with
  | AddParticipant n q => keep (fst (addParticipant n q s))
  | EditParticipantQty n q => keep (editParticipantQty n q s)
  | RemoveParticipant n => keep (removeParticipant n s)
  | BulkImport raw => keep (fst (bulkImport s raw s))
  | AddPrize n => keep (addPrize n s)
  | RemovePrize n => keep (removePrize n s)
  | ResetWinners => if busy s then None else keep (resetWinners s)
  | HardReset c => if busy s then None else keep (hardReset c s)
  | ClearAudit => if busy s then None else keep (clearAudit s)
  | CloseHighlight => keep (closeHighlight s)
  | Draw now rnd =>
      match draw s now rnd s with
      | Some (s', _, _) => keep s'
      | None => None
      end
  | DrawWithCountdown now rnd =>
      match drawWithCountdown_enter s now rnd s with
      | Some (s', _, _, started) =>
          Some {| app := s';
                  inflight := if started then Some s else inflight sys |}
      | None => None
      end
  | CountdownTimer =>
      match inflight sys, rolling s, countdown s with
      | Some _, false, S (S n) => keep (setCountdown (S n) s)
      | Some _, false, S O => keep (setRolling true (setCountdown 0 s))
      | _, _, _ => None
      end
  | RollingTimer now rnd =>
      match inflight sys, rolling s with
      | Some seen, true =>
          match drawCore seen now rnd (setRolling false s) with
          | Some (s', _, _) => Some {| app := s'; inflight := None |}
          | None => None
          end
      | _, _ => None
      end
  end.

Fixpoint run (evs : list Event) (sys : System) : option System :=
  match evs with
  | [] => Some sys
  | ev :: rest =>
      match fire ev sys with
      | Some sys' => run rest sys'
      | None => None
      end
  end.

Definition reachable (sys : System) : Prop :=
  exists evs, run evs start = Some sys.

(** Registration alone, for the properties of the participant registry. *)
Inductive Registration : Type :=
  | Register (name count : string)
  | BulkRegister (rawLines : string).

Definition register (s : AppState) (r : Registration) : AppState :=
  match r with
  | Register name count => fst (addParticipant name count s)
  | BulkRegister raw => fst (bulkImport s raw s)
  end.

(** ** Reference notions, to state the properties *)

(** The line feed. *)
Definition newline : string := String (ascii_of_nat 10) "".

(** The exact value of a finite number, as a fraction ([0] for the values
    that have none: [NaN] and the infinities). *)
Definition exact_value (x : JS.number) : Q :=
  match x with
  | S754_finite neg m e =>
      let v := if neg then Z.neg m else Z.pos m in
      match e with
      | Z.neg k => v # (2 ^ k)%positive
      | _ => inject_Z (v * 2 ^ e)
      end
  | _ => 0%Q
  end.

(** A non-negative integer count. *)
Definition whole_count (x : JS.number) : Prop :=
  exists n : Z, 0 <= n /\ JS.to_integer x = Some n.

(** The number of integers [i] with [1 <= i <= x], for [x] other than
    [Infinity]. *)
Definition tickets (x : JS.number) : nat :=
  match x with
  | S754_finite false m e => Z.to_nat (JS.floor_finite false m e)
  | _ => O
  end.

(** The participants whose lower-cased name is not in the set. *)
Definition eligible (won : gset string) (ps : list Participant.t) : list Participant.t :=
  List.filter (fun p => negb (bool_decide (lower_name p ∈ won))) ps.

(** The coupons [(name, 1) .. (name, n)]. *)
Definition coupons_of (name : string) (n : nat) : list Coupon.t :=
  map (fun i => Coupon.mk name (Z.of_nat i)) (seq 1 n).

(** The pool in the words of the specification: for each eligible
    participant in insertion order, one coupon for each number from 1 up to
    the count. *)
Definition pool_spec (ps : list Participant.t) (won : gset string) : list Coupon.t :=
  flat_map (fun p => coupons_of (Participant.name p) (tickets (Participant.qty p)))
    (eligible won ps).

(** The sum of the counts, as exact values. *)
Definition count_sum (ps : list Participant.t) : Q :=
  fold_right (fun p acc => (exact_value (Participant.qty p) + acc)%Q) 0%Q ps.

(** The sum of the counts rounded down. *)
Definition ticket_sum (ps : list Participant.t) : nat :=
  fold_right (fun p acc => (tickets (Participant.qty p) + acc)%nat) O ps.

(** Counts that an array can take: none is [Infinity], and rounded down
    they add up to at most the greatest length of an array. *)
Definition fits (ps : list Participant.t) : Prop :=
  Forall (fun p => Participant.qty p <> JS.Infinity) ps
  /\ Z.of_nat (ticket_sum ps) <= JS.max_array_length.

(** [k] shifts to the right of a record that starts exact at [P]: what is
    left is the quotient by [2^k], and the round bit tells that the
    remainder is at least half of [2^k]. *)
Definition shifted (P k : Z) (mrs : shr_record) : Prop :=
  shr_m mrs = P / 2 ^ k
  /\ (shr_r mrs = true -> 2 ^ k <= 2 * (P mod 2 ^ k)).

(** A value of [Math.random()]: a double [x] with [0 <= x < 1]. *)
Definition unit_random (x : JS.number) : Prop :=
  JS.is_double x = true
  /\ JS.leb JS.pzero x = true
  /\ JS.ltb x (JS.of_Z 1) = true.

(** The orders [1 .. n] of a prize list of length [n]. *)
Definition well_numbered (prs : list Prize.t) : Prop :=
  map Prize.order prs = map (fun i => Z.of_nat i + 1) (seq 0 (length prs)).

(** No two names equal up to letter case. *)
Definition unique_names (ps : list Participant.t) : Prop :=
  NoDup (map lower_name ps).

(** What every reachable state of the system satisfies: the prizes named in
    the ledger are distinct, the prizes are numbered [1 .. N], the names of
    the participants are distinct up to letter case, and a running draw with
    countdown keeps the application busy, was started on the present ledger
    and on a prize list numbered [1 .. N]. *)
Definition invariant (sys : System) : Prop :=
  NoDup (map Winner.prize (winners (app sys)))
  /\ well_numbered (prizes (app sys))
  /\ unique_names (participants (app sys))
  /\ match inflight sys with
     | None => busy (app sys) = false
     | Some seen =>
         busy (app sys) = true
         /\ winners seen = winners (app sys)
         /\ well_numbered (prizes seen)
         /\ (rolling (app sys) = true -> countdown (app sys) = O)
     end.

(** ** The row of a participant and the export of the audit log *)

Definition is_digit (c : ascii) : bool := (48 <=? JS.code c) && (JS.code c <=? 57).

(** [e.target.value.replace(/[^0-9]/g, "")]: the text that the input of a
    [ParticipantRow] keeps when it is changed to [typed]. *)
Definition onChange_localQty (typed : string) : string :=
  JS.str (List.filter is_digit (JS.chars typed)).

(** [onBlur={() => onEdit(p.name, localQty)}] of the row of the participant
    [name], after its input was changed to [typed]. *)
Definition ParticipantRow_edit (name typed : string) (s : AppState) : AppState :=
  editParticipantQty name (onChange_localQty typed) s.

(** The double quote. *)
Definition dquote : ascii := ascii_of_nat 34.

(** The [replace] of [escape]: every double quote of the text is written
    twice. *)
Fixpoint double_quotes (l : list ascii) : list ascii :=
  match l with
  | [] => []
  | c :: r =>
      if Ascii.eqb c dquote then dquote :: dquote :: double_quotes r
      else c :: double_quotes r
  end.

(** [escape] of [downloadCSV], on the text that [String] gives for the
    value: a double quote, the text with its double quotes written twice, a
    double quote. *)
Definition escape (text : string) : string :=
  JS.str (dquote :: double_quotes (JS.chars text) ++ [dquote]).

(** Reading a quoted field of a delimited text, after its opening quote: a
    doubled quote stands for a quote, a single one must end the field. *)
Fixpoint read_quoted (l : list ascii) : option (list ascii) :=
  match l with
  | [] => None
  | c :: r =>
      if Ascii.eqb c dquote then
        match r with
        | [] => Some []
        | c' :: r' =>
            if Ascii.eqb c' dquote then option_map (cons dquote) (read_quoted r')
            else None
        end
      else option_map (cons c) (read_quoted r)
  end.

Definition unquote (field : string) : option string :=
  match JS.chars field with
  | c :: r => if Ascii.eqb c dquote then option_map JS.str (read_quoted r) else None
  | [] => None
  end.

(** ** Further reference notions *)

(** The values of the digits of a text of decimal digits. *)
Definition digit_values (l : list ascii) : list Z :=
  map (fun c => JS.code c - 48) l.

(** The integer that the decimal digits of a text spell ([0] for none). *)
Definition digits_number (text : string) : Z :=
  JS.digits_value 10 (digit_values (List.filter is_digit (JS.chars text))).

(** No two winners with the same name up to letter case. *)
Definition winner_names_unique (ws : list Winner.t) : Prop :=
  NoDup (map (fun w => JS.toLowerCase (Winner.name w)) ws).

(** The name and the count that a line of a bulk import stands for. *)
Definition line_fields (line : string) : string * string :=
  let parts := trimmed_nonempty (JS.split_class is_field_sep line) in
  (part_or parts 0 "", part_or parts 1 "0").

(** A participant with a name and a count that is [>= 0] (so not [NaN]); a
    prize with a name. *)
Definition participant_ok (p : Participant.t) : Prop :=
  Participant.name p <> "" /\ JS.leb JS.pzero (Participant.qty p) = true.

Definition prize_ok (pr : Prize.t) : Prop := Prize.name pr <> "".

Definition data_ok (s : AppState) : Prop :=
  Forall participant_ok (participants s)
  /\ Forall prize_ok (prizes s)
  /\ winner_names_unique (winners s).

(** The events that may empty the ledger of winners, and those that may
    empty the audit log. *)
Definition resets_ledger (ev : Event) : bool :=
  match ev with
  | ResetWinners | HardReset _ => true
  | _ => false
  end.

Definition resets_audit (ev : Event) : bool :=
  match ev with
  | ClearAudit | HardReset _ => true
  | _ => false
  end.

End App.

(** ** Facts on numbers and strings *)

Section NumberFacts.

Context {T : JS.Text}.

Lemma str_or_empty (a : string) : JS.str_or a "" = a.
Proof. destruct a; reflexivity. Qed.

Lemma is_empty_true (a : string) : JS.is_empty a = true <-> a = "".
Proof. destruct a; simpl; split; congruence. Qed.

Lemma lower_name_eq (p : Participant.t) :
  lower_name p = JS.toLowerCase (Participant.name p).
Proof. unfold lower_name. now rewrite str_or_empty. Qed.

(** [Math.max(0, x || 0)] is [+0], or [x] itself when [x] is positive. *)
Lemma clamp_qty_cases (x : JS.number) :
  (clamp_qty x = JS.pzero /\ tickets x = O /\ x <> JS.Infinity)
  \/ (exists m e, x = S754_finite false m e /\ clamp_qty x = x)
  \/ (x = JS.Infinity /\ clamp_qty x = JS.Infinity).
Proof.
  destruct x as [[|]|[|]| |[|] m e]; cbn; eauto 6;
    left; repeat split; discriminate.
Qed.

Lemma clamp_qty_nonneg (x : JS.number) : JS.leb JS.pzero (clamp_qty x) = true.
Proof. destruct x as [[|]|[|]| |[|] m e]; reflexivity. Qed.

Lemma clamp_qty_NaN : clamp_qty JS.NaN = JS.pzero.
Proof. reflexivity. Qed.

Lemma clamp_qty_negative (x : JS.number) :
  JS.ltb x JS.pzero = true -> clamp_qty x = JS.pzero.
Proof. destruct x as [[|]|[|]| |[|] m e]; cbn; congruence. Qed.

(** On a positive finite number the loop test compares with the floor. *)
Lemma int_leb_floor (i : Z) (m : positive) (e : Z) :
  JS.int_leb i (S754_finite false m e) = (i <=? JS.floor_finite false m e).
Proof.
  unfold JS.int_leb, JS.floor_finite.
  destruct e as [|k|k]; try reflexivity.
  assert (Hd : 0 < 2 ^ Z.pos k) by (apply Z.pow_pos_nonneg; lia).
  apply eq_iff_eq_true. rewrite !Z.leb_le. split; intros H.
  - apply Z.div_le_lower_bound; lia.
  - pose proof (Z.mul_div_le (Z.pos m) _ Hd). nia.
Qed.

Lemma floor_finite_nonneg (m : positive) (e : Z) :
  0 <= JS.floor_finite false m e.
Proof.
  unfold JS.floor_finite. destruct e as [|k|k].
  - lia.
  - apply Z.mul_nonneg_nonneg; [lia | apply Z.pow_nonneg; lia].
  - apply Z.div_pos; [lia | apply Z.pow_pos_nonneg; lia].
Qed.

Lemma whole_count_finite (x : JS.number) :
  whole_count x -> x <> JS.Infinity.
Proof. intros (n & _ & H) ->. discriminate. Qed.

Lemma whole_count_tickets (x : JS.number) (n : Z) :
  0 <= n -> JS.to_integer x = Some n -> tickets x = Z.to_nat n.
Proof.
  intros Hn H. destruct x as [s|s| |[|] m e]; simpl in *; try discriminate.
  - now inversion H.
  - exfalso. destruct e as [|k|k].
    + inversion H. lia.
    + inversion H. pose proof (Z.pow_pos_nonneg 2 (Z.pos k)). nia.
    + destruct (Z.neg m mod 2 ^ Z.pos k =? 0) eqn:E; [|discriminate].
      inversion H; subst n. apply Z.eqb_eq in E.
      assert (Hd : 0 < 2 ^ Z.pos k) by (apply Z.pow_pos_nonneg; lia).
      pose proof (Z_div_mod_eq_full (Z.neg m) (2 ^ Z.pos k)). nia.
  - unfold JS.floor_finite. destruct e as [|k|k].
    + now inversion H.
    + now inversion H.
    + destruct (Z.pos m mod 2 ^ Z.pos k =? 0); [now inversion H | discriminate].
Qed.

Lemma whole_count_value (x : JS.number) (n : Z) :
  JS.to_integer x = Some n -> (exact_value x == inject_Z n)%Q.
Proof.
  intros H. destruct x as [s|s| |neg m e]; simpl in *; try discriminate.
  - inversion H. reflexivity.
  - destruct e as [|k|k].
    + inversion H. reflexivity.
    + inversion H. reflexivity.
    + destruct (_ =? 0) eqn:E; [|discriminate].
      inversion H; subst n. apply Z.eqb_eq in E.
      unfold Qeq; simpl. rewrite Pos2Z.inj_pow.
      set (v := if neg then Z.neg m else Z.pos m) in *.
      pose proof (Z_div_mod_eq_full v (2 ^ Z.pos k)). lia.
Qed.

(** The number of binary digits of a positive integer. *)
Lemma digits2_pos_bounds (p : positive) :
  2 ^ (Z.pos (digits2_pos p) - 1) <= Z.pos p < 2 ^ Z.pos (digits2_pos p).
Proof.
  assert (Hstep : forall q : positive,
             2 ^ (Z.pos (Pos.succ q) - 1) = 2 * 2 ^ (Z.pos q - 1)
             /\ 2 ^ Z.pos (Pos.succ q) = 2 * 2 ^ Z.pos q
             /\ 2 ^ Z.pos q = 2 * 2 ^ (Z.pos q - 1)).
  { intros q. rewrite Pos2Z.inj_succ. repeat split.
    - rewrite <- Z.pow_succ_r by lia. f_equal. lia.
    - apply Z.pow_succ_r. lia.
    - rewrite <- Z.pow_succ_r by lia. f_equal. lia. }
  induction p as [p IH|p IH|]; cbn [digits2_pos].
  - destruct (Hstep (digits2_pos p)) as (-> & -> & E). lia.
  - destruct (Hstep (digits2_pos p)) as (-> & -> & E). lia.
  - cbn. lia.
Qed.

Lemma iter_xO_value (p k : positive) :
  Z.pos (Pos.iter xO p k) = Z.pos p * 2 ^ Z.pos k.
Proof.
  induction k as [|k IH] using Pos.peano_ind.
  - cbn. lia.
  - rewrite Pos.iter_succ, Pos2Z.inj_succ, Z.pow_succ_r by lia.
    rewrite Pos2Z.inj_xO, IH. lia.
Qed.

Lemma iter_xO_digits (p k : positive) :
  digits2_pos (Pos.iter xO p k) = (digits2_pos p + k)%positive.
Proof.
  induction k as [|k IH] using Pos.peano_ind.
  - cbn. lia.
  - rewrite Pos.iter_succ. cbn [digits2_pos]. rewrite IH. lia.
Qed.

(** A mantissa of 53 bits is not rounded. *)
Lemma round_exact (m : positive) (e : Z) :
  Z.pos (digits2_pos m) = 53 -> -1074 <= e <= 971 ->
  binary_round_aux 53 1024 false (Z.pos m) e loc_Exact = S754_finite false m e.
Proof.
  intros Hd He. unfold binary_round_aux, shr_fexp, fexp, emin.
  cbn [Zdigits2 shr_record_of_loc]. rewrite Hd.
  replace (Z.max (53 + e - 53) (3 - 1024 - 53) - e) with 0 by lia.
  cbn [shr shr_m loc_of_shr_record round_nearest_even Zdigits2 shr_record_of_loc].
  rewrite Hd.
  replace (Z.max (53 + e - 53) (3 - 1024 - 53) - e) with 0 by lia.
  cbn [shr shr_m]. 
  replace (e <=? 1024 - 53) with true by (symmetry; apply Z.leb_le; lia).
  reflexivity.
Qed.

(** A positive integer below [2^53] is a double, exactly. *)
Lemma of_Z_small (p : positive) :
  Z.pos p < 2 ^ 53 ->
  exists m e, JS.of_Z (Z.pos p) = S754_finite false m e
              /\ JS.to_integer (S754_finite false m e) = Some (Z.pos p).
Proof.
  intros Hp. pose proof (digits2_pos_bounds p) as [Hlo Hhi].
  assert (Hd : Z.pos (digits2_pos p) <= 53).
  { destruct (Z_le_gt_dec (Z.pos (digits2_pos p)) 53) as [H|H]; [exact H|].
    exfalso. assert (2 ^ 53 <= 2 ^ (Z.pos (digits2_pos p) - 1)) by (apply Z.pow_le_mono_r; lia). lia. }
  unfold JS.of_Z, binary_normalize, binary_round, shl_align, fexp, emin.
  replace (Z.max (Z.pos (digits2_pos p) + 0 - 53) (3 - 1024 - 53) - 0)
    with (Z.pos (digits2_pos p) - 53) by lia.
  replace (Z.max (Z.pos (digits2_pos p) + 0 - 53) (3 - 1024 - 53))
    with (Z.pos (digits2_pos p) - 53) by lia.
  destruct (Z.pos (digits2_pos p) - 53) as [|k|k] eqn:Hk; [|lia|].
  - exists p, 0. split; [apply round_exact; lia|]. cbn. f_equal. lia.
  - exists (Pos.iter xO p k), (Z.neg k). split.
    + apply round_exact; [|lia]. rewrite iter_xO_digits. lia.
    + cbn [JS.to_integer]. rewrite iter_xO_value.
      assert (0 < 2 ^ Z.pos k) by (apply Z.pow_pos_nonneg; lia).
      rewrite Z.mod_mul by lia. rewrite Z.eqb_refl. rewrite Z.div_mul by lia. reflexivity.
Qed.

(** [trim] on ASCII text *)

Lemma skip_spaces_head (l : list ascii) (c : ascii) (r : list ascii) :
  JS.skip_spaces l = c :: r -> JS.is_space c = false.
Proof.
  induction l as [|a l IH]; cbn; [discriminate|].
  destruct (JS.is_space a) eqn:E; [exact IH|]. now intros [= <- _].
Qed.

Lemma skip_spaces_idem (l : list ascii) :
  JS.skip_spaces (JS.skip_spaces l) = JS.skip_spaces l.
Proof.
  destruct (JS.skip_spaces l) as [|c r] eqn:E; [reflexivity|].
  cbn. now rewrite (skip_spaces_head l c r E).
Qed.

(** What [skip_spaces] drops is a prefix. *)
Lemma skip_spaces_suffix (l : list ascii) :
  exists pre, l = pre ++ JS.skip_spaces l.
Proof.
  induction l as [|a l [pre IH]]; [now exists []|]. cbn.
  destruct (JS.is_space a); [|now exists []].
  exists (a :: pre). cbn. now f_equal.
Qed.

(** On ASCII text, a trimmed text has no space at either end. *)
Lemma trim_ends (s : string) :
  let t := rev (JS.skip_spaces (rev (JS.skip_spaces (JS.chars s)))) in
  JS.skip_spaces t = t /\ JS.skip_spaces (rev t) = rev t.
Proof.
  cbv zeta. set (m := JS.skip_spaces (JS.chars s)).
  set (u := JS.skip_spaces (rev m)). split.
  - destruct (rev u) as [|c r] eqn:E; [reflexivity|].
    destruct (skip_spaces_suffix (rev m)) as [pre Hpre]. fold u in Hpre.
    apply (f_equal (@rev ascii)) in Hpre.
    rewrite rev_involutive, rev_app_distr, E in Hpre. cbn in Hpre.
    cbn. now rewrite (skip_spaces_head (JS.chars s) c _ Hpre).
  - rewrite rev_involutive. apply skip_spaces_idem.
Qed.

Lemma ascii_trim_idem (s : string) :
  JS.ascii_trim (JS.ascii_trim s) = JS.ascii_trim s.
Proof.
  destruct (trim_ends s) as [H1 H2]. unfold JS.ascii_trim at 1.
  unfold JS.ascii_trim, JS.chars, JS.str. rewrite list_ascii_of_string_of_list_ascii.
  unfold JS.chars in H1, H2. now rewrite H1, H2, rev_involutive.
Qed.

End NumberFacts.

(** The two functions on ASCII text have the laws assumed of [trim]. *)
Lemma ascii_text_laws : JS.TextLaws JS.ascii_text.
Proof. split; [apply ascii_trim_idem | reflexivity]. Qed.

#[global] Existing Instance ascii_text_laws | 100.

(** ** The coupon pool *)

Section Pool.

Context {T : JS.Text}.

Lemma elem_of_winnersSet (x : string) (ws : list Winner.t) :
  x ∈ winnersSet ws <-> exists w, w ∈ ws /\ x = JS.toLowerCase (Winner.name w).
Proof.
  unfold winnersSet. rewrite elem_of_list_to_set, list_elem_of_fmap.
  split; intros (w & H1 & H2); exists w.
  - rewrite str_or_empty in H1. tauto.
  - rewrite str_or_empty. tauto.
Qed.

Lemma elem_of_eligible (won : gset string) (ps : list Participant.t) (p : Participant.t) :
  p ∈ eligible won ps <-> p ∈ ps /\ lower_name p ∉ won.
Proof.
  unfold eligible. rewrite !list_elem_of_In, filter_In, negb_true_iff.
  rewrite bool_decide_eq_false. tauto.
Qed.

Lemma push_room (A : Type) (arr : list A) (x : A) :
  Z.of_nat (length arr) < JS.max_array_length -> JS.push arr x = Some (arr ++ [x]).
Proof. intros H. unfold JS.push. now rewrite (proj2 (Z.ltb_lt _ _) H). Qed.

Lemma push_full (A : Type) (arr : list A) (x : A) :
  JS.max_array_length <= Z.of_nat (length arr) -> JS.push arr x = None.
Proof. intros H. unfold JS.push. now rewrite (proj2 (Z.ltb_ge _ _) H). Qed.

Lemma push_coupons_S (fuel : nat) (name : string) (qty : JS.number) (i : Z)
  (pool : list Coupon.t) :
  push_coupons (S fuel) name qty i pool
  = if JS.int_leb i qty
    then match JS.push pool (Coupon.mk name i) with
         | Some pool' => push_coupons fuel name qty (i + 1) pool'
         | None => None
         end
    else Some pool.
Proof. reflexivity. Qed.

(** The loop leaves after [n + 1] tests when the counter passes the test
    [n] times and then fails it, and the array has room for [n] coupons;
    more tests change nothing. *)
Lemma push_coupons_run (name : string) (qty : JS.number) (n : nat) :
  forall (k : nat) (pool : list Coupon.t) (fuel : nat),
    (forall j, (k <= j < k + n)%nat -> JS.int_leb (Z.of_nat j) qty = true) ->
    JS.int_leb (Z.of_nat (k + n)) qty = false ->
    Z.of_nat (length pool) + Z.of_nat n <= JS.max_array_length ->
    (n < fuel)%nat ->
    push_coupons fuel name qty (Z.of_nat k) pool
    = Some (pool ++ map (fun i => Coupon.mk name (Z.of_nat i)) (seq k n)).
Proof.
  induction n as [|n IH]; intros k pool fuel Hin Hout Hroom Hfuel;
    (destruct fuel as [|fuel]; [lia|]); rewrite push_coupons_S.
  - rewrite Nat.add_0_r in Hout. rewrite Hout. cbn. now rewrite app_nil_r.
  - rewrite (Hin k) by lia. rewrite push_room by lia.
    replace (Z.of_nat k + 1) with (Z.of_nat (S k)) by lia.
    rewrite IH.
    + cbn [seq map]. now rewrite <- app_assoc.
    + intros j Hj. apply Hin. lia.
    + replace (S k + n)%nat with (k + S n)%nat by lia. exact Hout.
    + rewrite length_app. cbn [length]. lia.
    + lia.
Qed.

(** The loop fails when the counter still passes the test once the array
    is full, whatever the number of tests allowed. *)
Lemma push_coupons_full (name : string) (qty : JS.number) (n : nat) :
  forall (k : nat) (pool : list Coupon.t) (fuel : nat),
    (forall j, (k <= j <= k + n)%nat -> JS.int_leb (Z.of_nat j) qty = true) ->
    JS.max_array_length <= Z.of_nat (length pool) + Z.of_nat n ->
    push_coupons fuel name qty (Z.of_nat k) pool = None.
Proof.
  induction n as [|n IH]; intros k pool fuel Hin Hroom;
    (destruct fuel as [|fuel]; [reflexivity|]); rewrite push_coupons_S;
    rewrite (Hin k) by lia.
  - rewrite push_full by lia. reflexivity.
  - destruct (Z_lt_le_dec (Z.of_nat (length pool)) JS.max_array_length) as [Hlt|Hge].
    + rewrite push_room by exact Hlt.
      replace (Z.of_nat k + 1) with (Z.of_nat (S k)) by lia.
      apply IH.
      * intros j Hj. apply Hin. lia.
      * rewrite length_app. cbn [length]. lia.
    + rewrite push_full by exact Hge. reflexivity.
Qed.

(** With a count other than [Infinity] and room in the array for the
    coupons [1 .. tickets], the loop leaves within [loop_tests] tests,
    having pushed them. *)
Lemma push_coupons_clamped (name : string) (x : JS.number) (pool : list Coupon.t) :
  x <> JS.Infinity ->
  Z.of_nat (length pool) + Z.of_nat (tickets x) <= JS.max_array_length ->
  forall extra : nat,
    push_coupons (loop_tests (clamp_qty x) + extra) name (clamp_qty x) 1 pool
    = Some (pool ++ coupons_of name (tickets x)).
Proof.
  intros Hx Hroom extra.
  destruct (clamp_qty_cases x) as [(Hc & Ht & _)|[(m & e & -> & Hc)|(-> & _)]];
    [| |congruence].
  - rewrite Hc, Ht. cbn. now rewrite app_nil_r.
  - rewrite Hc. cbn [loop_tests tickets] in *. unfold coupons_of.
    pose proof (floor_finite_nonneg m e) as H0.
    apply (push_coupons_run name _ _ 1%nat).
    + intros j Hj. rewrite int_leb_floor. apply Z.leb_le. lia.
    + rewrite int_leb_floor. apply Z.leb_gt. lia.
    + exact Hroom.
    + rewrite Z.min_l by lia. lia.
Qed.

(** With the count [Infinity], or without room for the coupons
    [1 .. tickets], a [push] fails. *)
Lemma push_coupons_overflow (name : string) (x : JS.number) (pool : list Coupon.t)
  (fuel : nat) :
  Z.of_nat (length pool) <= JS.max_array_length ->
  x = JS.Infinity \/ JS.max_array_length < Z.of_nat (length pool) + Z.of_nat (tickets x) ->
  push_coupons fuel name (clamp_qty x) 1 pool = None.
Proof.
  intros Hlen Hover.
  apply (push_coupons_full name _
           (Z.to_nat (JS.max_array_length - Z.of_nat (length pool))) 1%nat);
    [|lia].
  intros j Hj.
  destruct (clamp_qty_cases x) as [(Hc & Ht & Hfin)|[(m & e & -> & Hc)|(-> & Hc)]].
  - destruct Hover as [Hinf|Hover]; [contradiction | lia].
  - rewrite Hc. destruct Hover as [Hinf|Hover]; [discriminate|].
    cbn [tickets] in Hover. pose proof (floor_finite_nonneg m e) as H0.
    rewrite int_leb_floor. apply Z.leb_le. lia.
  - rewrite Hc. reflexivity.
Qed.

Lemma ticket_sum_cons (p : Participant.t) (l : list Participant.t) :
  ticket_sum (p :: l) = (tickets (Participant.qty p) + ticket_sum l)%nat.
Proof. reflexivity. Qed.

Lemma eligible_cons (won : gset string) (p : Participant.t) (ps : list Participant.t) :
  eligible won (p :: ps)
  = if bool_decide (lower_name p ∈ won) then eligible won ps else p :: eligible won ps.
Proof. unfold eligible. cbn [List.filter]. now destruct (bool_decide _). Qed.

(** The pool is the pool of the reference notion when the counts of the
    eligible participants fit in what is left of the array. *)
Lemma fill_pool_spec (won : gset string) (ps : list Participant.t) :
  forall pool : list Coupon.t,
    Forall (fun p => Participant.qty p <> JS.Infinity) (eligible won ps) ->
    Z.of_nat (length pool) + Z.of_nat (ticket_sum (eligible won ps))
    <= JS.max_array_length ->
    fill_pool ps won pool = Some (pool ++ pool_spec ps won).
Proof.
  unfold pool_spec.
  induction ps as [|p ps IH]; intros pool Hfin Hroom.
  - simpl. now rewrite app_nil_r.
  - cbn [fill_pool]. rewrite eligible_cons in *. case_bool_decide as Hp.
    + now apply IH.
    + apply Forall_cons in Hfin as [Hp1 Hfin]. rewrite ticket_sum_cons in Hroom.
      assert (Hpush := push_coupons_clamped (Participant.name p) _ pool Hp1
                         ltac:(lia) O).
      rewrite Nat.add_0_r in Hpush. rewrite Hpush, IH.
      * cbn [flat_map]. now rewrite app_assoc.
      * exact Hfin.
      * rewrite length_app. unfold coupons_of. rewrite length_map, length_seq. lia.
Qed.

(** A pool that is built is the pool of the reference notion, and the
    counts of the eligible participants fitted in the array. *)
Lemma fill_pool_Some (won : gset string) (ps : list Participant.t) :
  forall acc pool : list Coupon.t,
    Z.of_nat (length acc) <= JS.max_array_length ->
    fill_pool ps won acc = Some pool ->
    pool = acc ++ pool_spec ps won
    /\ Forall (fun p => Participant.qty p <> JS.Infinity) (eligible won ps)
    /\ Z.of_nat (length acc) + Z.of_nat (ticket_sum (eligible won ps))
       <= JS.max_array_length.
Proof.
  unfold pool_spec.
  induction ps as [|p ps IH]; intros acc pool Hacc H.
  - cbn in *. injection H as <-. rewrite app_nil_r. repeat split; [constructor | lia].
  - cbn [fill_pool] in H. rewrite eligible_cons. case_bool_decide as Hp.
    + now apply IH.
    + set (x := Participant.qty p) in *.
      assert (Hok : x <> JS.Infinity
                    /\ Z.of_nat (length acc) + Z.of_nat (tickets x)
                       <= JS.max_array_length).
      { destruct (Z_le_gt_dec (Z.of_nat (length acc) + Z.of_nat (tickets x))
                    JS.max_array_length) as [Hle|Hgt].
        - split; [|exact Hle]. intros Hinf.
          rewrite (push_coupons_overflow _ x acc _ Hacc) in H; [discriminate | now left].
        - rewrite (push_coupons_overflow _ x acc _ Hacc) in H; [discriminate|].
          right. lia. }
      destruct Hok as [Hfin Hroom].
      pose proof (push_coupons_clamped (Participant.name p) x acc Hfin Hroom O) as Hpush.
      rewrite Nat.add_0_r in Hpush. rewrite Hpush in H.
      apply IH in H as (-> & Hfins & Hrooms).
      * rewrite length_app in Hrooms. unfold coupons_of in Hrooms.
        rewrite length_map, length_seq in Hrooms.
        cbn [flat_map]. rewrite ticket_sum_cons. fold x.
        split; [now rewrite app_assoc|]. split; [now constructor | lia].
      * rewrite length_app. unfold coupons_of. rewrite length_map, length_seq. lia.
Qed.

Lemma couponsPool_fits (ps : list Participant.t) (won : gset string) :
  fits (eligible won ps) -> couponsPool ps won = Some (pool_spec ps won).
Proof.
  intros [Hfin Hroom]. unfold couponsPool.
  rewrite fill_pool_spec; [reflexivity | exact Hfin | cbn [length]; lia].
Qed.

Lemma couponsPool_Some (ps : list Participant.t) (won : gset string)
  (pool : list Coupon.t) :
  couponsPool ps won = Some pool ->
  pool = pool_spec ps won /\ fits (eligible won ps).
Proof.
  intros H. apply fill_pool_Some in H as (-> & Hfin & Hroom);
    [|cbn; unfold JS.max_array_length; lia].
  split; [reflexivity|]. split; [exact Hfin | cbn [length] in Hroom; lia].
Qed.

(** Without room for the counts, or with the count [Infinity], no pool is
    built. *)
Lemma couponsPool_None (ps : list Participant.t) (won : gset string) :
  ~ fits (eligible won ps) -> couponsPool ps won = None.
Proof.
  intros Hno. destruct (couponsPool ps won) as [pool|] eqn:E; [|reflexivity].
  apply couponsPool_Some in E as [_ Hfit]. contradiction.
Qed.

Lemma tickets_finite (m : positive) (e : Z) :
  Z.of_nat (tickets (S754_finite false m e)) = JS.floor_finite false m e.
Proof. cbn [tickets]. apply Z2Nat.id, floor_finite_nonneg. Qed.

(** One count above the greatest length of an array is enough. *)
Lemma couponsPool_over (ps : list Participant.t) (won : gset string) (p : Participant.t) :
  p ∈ eligible won ps ->
  JS.max_array_length < Z.of_nat (tickets (Participant.qty p)) ->
  couponsPool ps won = None.
Proof.
  intros Hp Hover. apply couponsPool_None. intros [_ Hroom].
  assert (Hle : forall l : list Participant.t,
             p ∈ l -> (tickets (Participant.qty p) <= ticket_sum l)%nat).
  { induction l as [|x l IH]; intros Hin; [now apply elem_of_nil in Hin|].
    rewrite ticket_sum_cons. apply elem_of_cons in Hin as [<-|Hin]; [lia|].
    specialize (IH Hin). lia. }
  specialize (Hle _ Hp). lia.
Qed.

Lemma eligible_finite (ps : list Participant.t) (won : gset string) :
  fits (eligible won ps) ->
  forall p, p ∈ ps -> lower_name p ∉ won -> Participant.qty p <> JS.Infinity.
Proof.
  intros [Hfin _] p Hp Hel. rewrite Forall_forall in Hfin.
  apply Hfin, elem_of_eligible. auto.
Qed.

(** Fewer participants fit where more did. *)
Lemma fits_filter (f : Participant.t -> bool) (l : list Participant.t) :
  fits l -> fits (List.filter f l).
Proof.
  unfold fits. intros [Hfin Hroom]. split.
  - clear Hroom. induction Hfin as [|x l Hx Hl IH]; cbn; [constructor|].
    destruct (f x); [constructor; assumption | exact IH].
  - assert (Hle : (ticket_sum (List.filter f l) <= ticket_sum l)%nat).
    { clear. induction l as [|x l IH]; cbn [List.filter]; [lia|].
      destruct (f x); rewrite ?ticket_sum_cons; lia. }
    lia.
Qed.

Lemma length_pool_spec (ps : list Participant.t) (won : gset string) :
  length (pool_spec ps won) = ticket_sum (eligible won ps).
Proof.
  unfold pool_spec. induction (eligible won ps) as [|p l IH]; [reflexivity|].
  cbn [flat_map ticket_sum fold_right]. rewrite length_app, IH.
  unfold coupons_of. now rewrite length_map, length_seq.
Qed.

Lemma ticket_sum_whole (l : list Participant.t) :
  (forall p, p ∈ l -> whole_count (Participant.qty p)) ->
  (inject_Z (Z.of_nat (ticket_sum l)) == count_sum l)%Q.
Proof.
  induction l as [|p l IH]; intros Hw; [reflexivity|].
  cbn [ticket_sum count_sum fold_right].
  destruct (Hw p) as (n & Hn & Hp); [now left|].
  rewrite (whole_count_tickets _ n Hn Hp), (whole_count_value _ n Hp).
  rewrite <- IH by (intros q Hq; apply Hw; now right).
  rewrite <- inject_Z_plus. apply inject_Z_injective.
  unfold ticket_sum. lia.
Qed.

End Pool.

(** C2, the claim as stated fails: the participant A, registered with the
    count 1, has the count edited in its row to twenty nines, which is read
    as the integer [10^20]; nobody has won; and no pool is built, where the
    claim has a pool of [10^20] entries. *)
Lemma couponsPool_huge_count :
  let s := ParticipantRow_edit "A" "99999999999999999999"
             (fst (addParticipant "A" "1" initial)) in
  participants s = [Participant.mk "A" (JS.of_Z (10 ^ 20))]
  /\ JS.to_integer (JS.of_Z (10 ^ 20)) = Some (10 ^ 20)
  /\ winners s = []
  /\ couponsPool (participants s) (winnersSet (winners s)) = None.
Proof.
  cbv zeta. split; [vm_compute; reflexivity|]. split; [vm_compute; reflexivity|].
  split; [reflexivity|].
  apply (couponsPool_over _ _ (Participant.mk "A" (S754_finite false 6103515625000000 14))).
  - apply list_elem_of_In. vm_compute. left. reflexivity.
  - cbn [Participant.qty]. rewrite tickets_finite. vm_compute. reflexivity.
Qed.

(** C2 (amended): when the counts of the participants whose lower-cased
    name is not the lower-cased name of a winner are non-negative integers,
    and their sum is at most [2^32 - 1], the pool is built and holds, for each
    of these participants in insertion order, the coupons
    [(name, 1) .. (name, count)] in ascending order, and nothing else; its
    size is the sum of these counts.  When the sum is larger, no pool is
    built. *)
Theorem couponsPool_enumerates {T : JS.Text} (ps : list Participant.t)
  (ws : list Winner.t) :
  (forall p, p ∈ ps -> lower_name p ∉ winnersSet ws ->
             whole_count (Participant.qty p)) ->
  let entitled := eligible (winnersSet ws) ps in
  (forall p, p ∈ entitled <->
             p ∈ ps /\ ~ exists w, w ∈ ws /\
               JS.toLowerCase (Participant.name p) = JS.toLowerCase (Winner.name w))
  /\ (inject_Z (Z.of_nat (ticket_sum entitled)) == count_sum entitled)%Q
  /\ (Z.of_nat (ticket_sum entitled) <= JS.max_array_length ->
      couponsPool ps (winnersSet ws) = Some (pool_spec ps (winnersSet ws))
      /\ (inject_Z (Z.of_nat (length (pool_spec ps (winnersSet ws))))
          == count_sum entitled)%Q)
  /\ (JS.max_array_length < Z.of_nat (ticket_sum entitled) ->
      couponsPool ps (winnersSet ws) = None).
Proof.
  intros Hw entitled.
  assert (Hsum : (inject_Z (Z.of_nat (ticket_sum entitled)) == count_sum entitled)%Q).
  { apply ticket_sum_whole. intros p Hp.
    apply elem_of_eligible in Hp as [Hp Hel]. now apply Hw. }
  split; [|split; [exact Hsum|split]].
  - intros p. unfold entitled.
    rewrite elem_of_eligible, elem_of_winnersSet, lower_name_eq. tauto.
  - intros Hroom. split.
    + apply couponsPool_fits. split; [|exact Hroom].
      apply Forall_forall. intros p Hp.
      apply elem_of_eligible in Hp as [Hp Hel].
      now apply whole_count_finite, Hw.
    + now rewrite length_pool_spec.
  - intros Hover. apply couponsPool_None. intros [_ Hroom]. fold entitled in Hroom. lia.
Qed.

Lemma couponsPool_enumerates_witness :
  let ps := [Participant.mk "Rafael" (JS.Number "3");
             Participant.mk "Juliana" (JS.Number "2");
             Participant.mk "Ana" (JS.Number "1")] in
  let ws := [Winner.mk "JULIANA" 1 "P1" "t"] in
  couponsPool ps (winnersSet ws)
  = Some [Coupon.mk "Rafael" 1; Coupon.mk "Rafael" 2; Coupon.mk "Rafael" 3;
          Coupon.mk "Ana" 1].
Proof.
  cbv zeta.
  refine (eq_trans (proj1 (proj1 (proj2 (proj2 (couponsPool_enumerates _ _ _))) _)) _).
  - intros p Hp _. apply list_elem_of_In in Hp. simpl in Hp.
    destruct Hp as [<-|[<-|[<-|[]]]];
      [exists 3 | exists 2 | exists 1]; split; (lia || (vm_compute; reflexivity)).
  - vm_compute. discriminate.
  - vm_compute. reflexivity.
Defined.

(** ** The participant registry *)

Section Registry.

Context {T : JS.Text}.

Lemma find_lower_None (key : string) (ps : list Participant.t) :
  find (fun x => String.eqb (lower_name x) key) ps = None <->
  key ∉ map lower_name ps.
Proof.
  induction ps as [|p ps IH]; simpl.
  - split; [intros _ H; now apply elem_of_nil in H | reflexivity].
  - rewrite not_elem_of_cons. destruct (String.eqb_spec (lower_name p) key) as [E|E].
    + split; [discriminate | intros [H _]; congruence].
    + rewrite IH. split; [intros H; split; [congruence | exact H] | tauto].
Qed.

Lemma unique_names_snoc (ps : list Participant.t) (p : Participant.t) :
  unique_names ps -> lower_name p ∉ map lower_name ps ->
  unique_names (ps ++ [p]).
Proof.
  unfold unique_names. intros Hnd Hp. rewrite map_app. apply NoDup_app.
  split; [exact Hnd|]. split.
  - intros x Hx Hx'. apply list_elem_of_singleton in Hx'. now subst.
  - apply NoDup_singleton.
Qed.

Lemma addParticipant_unique (n q : string) (s : AppState) :
  unique_names (participants s) ->
  unique_names (participants (fst (addParticipant n q s))).
Proof.
  intros Hnd. unfold addParticipant.
  destruct (invalid_entry _ _); [exact Hnd|].
  destruct (find _ _) eqn:E; [exact Hnd|]. cbn.
  apply unique_names_snoc; [exact Hnd|].
  apply find_lower_None in E. now rewrite lower_name_eq.
Qed.

(** The loop of [bulkImport] keeps the names of the registry followed by
    those to add distinct up to letter case. *)
Lemma import_line_unique (ps : list Participant.t) (line : string)
  (toAdd : list Participant.t) (skipped : nat) :
  unique_names (ps ++ toAdd) ->
  unique_names
    (ps ++ fst (import_line (list_to_set (map lower_name ps)) (toAdd, skipped) line)).
Proof.
  intros Hnd. unfold import_line.
  destruct (invalid_entry _ _); [exact Hnd|].
  set (name := part_or _ 0%nat "").
  destruct (_ || _) eqn:E; [exact Hnd|]. cbn [fst].
  apply orb_false_iff in E as [E1 E2].
  apply bool_decide_eq_false in E1. rewrite elem_of_list_to_set in E1.
  rewrite app_assoc. apply unique_names_snoc; [exact Hnd|].
  rewrite lower_name_eq. cbn [Participant.name].
  rewrite map_app, elem_of_app. intros [H|H]; [now apply E1|].
  apply list_elem_of_fmap in H as (x & Hx & Hin).
  assert (Hf : existsb
                 (fun x => String.eqb (JS.toLowerCase (Participant.name x))
                             (JS.toLowerCase name)) toAdd = true).
  { apply existsb_exists. exists x. split; [now apply list_elem_of_In|].
    rewrite lower_name_eq in Hx. rewrite <- Hx. apply String.eqb_refl. }
  congruence.
Qed.

Lemma import_lines_unique (ps : list Participant.t) (lines : list string) :
  forall acc : list Participant.t * nat,
    unique_names (ps ++ fst acc) ->
    unique_names
      (ps ++ fst (fold_left (import_line (list_to_set (map lower_name ps))) lines acc)).
Proof.
  induction lines as [|l lines IH]; intros [toAdd skipped] Hnd; [exact Hnd|].
  cbn [fold_left]. apply IH.
  destruct (import_line _ (toAdd, skipped) l) as [toAdd' skipped'] eqn:E.
  pose proof (import_line_unique ps l toAdd skipped Hnd) as H.
  now rewrite E in H.
Qed.

Lemma bulkImport_unique (raw : string) (s : AppState) :
  unique_names (participants s) ->
  unique_names (participants (fst (bulkImport s raw s))).
Proof.
  intros Hnd. unfold bulkImport.
  destruct (trimmed_nonempty _) as [|l lines]; [exact Hnd|].
  pose proof (import_lines_unique (participants s) (l :: lines) ([], O)) as H.
  cbn [fst] in H. rewrite app_nil_r in H. specialize (H Hnd).
  destruct (fold_left _ _ _) as [toAdd skipped]. exact H.
Qed.

Lemma editParticipantQty_names (name newQty : string) (s : AppState) :
  map Participant.name (participants (editParticipantQty name newQty s))
  = map Participant.name (participants s).
Proof.
  unfold editParticipantQty. cbn. rewrite map_map. apply map_ext.
  intros p. now destruct (String.eqb _ _).
Qed.

Lemma unique_names_by_name (ps ps' : list Participant.t) :
  map Participant.name ps' = map Participant.name ps ->
  unique_names ps -> unique_names ps'.
Proof.
  unfold unique_names. intros E.
  assert (H : forall l, map lower_name l = map JS.toLowerCase (map Participant.name l)).
  { intros l. rewrite map_map. apply map_ext. intros p. apply lower_name_eq. }
  now rewrite !H, E.
Qed.

Lemma unique_names_filter (f : Participant.t -> bool) (ps : list Participant.t) :
  unique_names ps -> unique_names (List.filter f ps).
Proof.
  unfold unique_names. induction ps as [|p ps IH]; [trivial|].
  cbn [map List.filter]. rewrite NoDup_cons. intros [Hp Hnd].
  destruct (f p); [|now apply IH].
  cbn [map]. apply NoDup_cons. split; [|now apply IH].
  intros H. apply Hp. apply list_elem_of_fmap in H as (x & -> & Hx).
  apply list_elem_of_fmap. exists x. split; [reflexivity|].
  apply list_elem_of_In in Hx. apply filter_In in Hx as [Hx _].
  now apply list_elem_of_In.
Qed.

End Registry.

(** C4: registrations, single or in bulk, in any number and order, keep the
    names of the registry distinct up to letter case. *)
Theorem registrations_keep_names_unique {T : JS.Text} (ops : list Registration) (s : AppState) :
  unique_names (participants s) ->
  unique_names (participants (fold_left register ops s)).
Proof.
  revert s. induction ops as [|op ops IH]; intros s Hnd; [exact Hnd|].
  cbn [fold_left]. apply IH. destruct op as [n c|raw]; cbn [register].
  - now apply addParticipant_unique.
  - now apply bulkImport_unique.
Qed.

Lemma registrations_keep_names_unique_witness :
  let ops := [Register "Rafael" "30"; BulkRegister ("rafael,3" ++ newline ++ "Juliana,12")%string;
              Register "JULIANA" "1"] in
  map Participant.name (participants (fold_left register ops initial))
  = ["Rafael"; "Juliana"]
  /\ unique_names (participants (fold_left register ops initial)).
Proof.
  cbv zeta. split; [vm_compute; reflexivity|].
  apply (registrations_keep_names_unique _ initial).
  unfold unique_names. simpl. apply NoDup_nil_2.
Defined.

(** C5: the bulk import of the four lines "A,5", "B,-1", "a,3", "C,2" into
    an empty registry leaves the participants A with 5 and C with 2, and
    reports 2 skipped lines: "B,-1" for its count, "a,3" for its name. *)
Theorem bulkImport_example :
  let raw := ("A,5" ++ newline ++ "B,-1" ++ newline ++ "a,3" ++ newline ++ "C,2")%string in
  bulkImport initial raw initial
  = (setParticipants
       (fun _ => [Participant.mk "A" (JS.of_Z 5); Participant.mk "C" (JS.of_Z 2)])
       initial,
     [LinesSkipped 2])
  /\ import_line ∅ ([Participant.mk "A" (JS.of_Z 5)], O) "B,-1"
     = ([Participant.mk "A" (JS.of_Z 5)], 1%nat)
  /\ invalid_entry "B" (JS.Number "-1") = true
  /\ import_line ∅ ([Participant.mk "A" (JS.of_Z 5)], 1%nat) "a,3"
     = ([Participant.mk "A" (JS.of_Z 5)], 2%nat)
  /\ invalid_entry "a" (JS.Number "3") = false.
Proof. cbv zeta. repeat split; vm_compute; reflexivity. Qed.

(** C6, the code against the claim: the count "2.5" is no integer, so the
    registration of X with it is to change nothing; [addParticipant] appends
    the participant X with the count 2.5 to the empty registry, without a
    notice.  Its guard tests that the count is finite and above 0, not that
    it is an integer, while the row of a participant lets only digits into
    the count and shows the coupons as [1 .. count]. *)
Theorem addParticipant_fractional_count :
  JS.to_integer (JS.Number "2.5") = None
  /\ (exact_value (JS.Number "2.5") == 5 # 2)%Q
  /\ participants initial = []
  /\ addParticipant "X" "2.5" initial
     = (setParticipants (fun _ => [Participant.mk "X" (JS.Number "2.5")]) initial, []).
Proof. repeat split; vm_compute; reflexivity. Qed.

(** What [addParticipant] does.  With [name] the trimmed text of the name
    input and [qty] the number read from the count input, it changes nothing
    (and shows at most the notice of a duplicate) when [name] is empty, [qty]
    is not finite, [qty <= 0], or a participant has the same name up to letter
    case; otherwise it appends [(name, qty)] at the end of the list and
    changes nothing else. *)
Lemma addParticipant_spec {T : JS.Text} (nameInput qtyInput : string) (s : AppState) :
  let name := JS.trim nameInput in
  let qty := JS.Number qtyInput in
  (name = "" \/ JS.isFinite qty = false \/ JS.leb qty JS.pzero = true
   \/ (exists p, p ∈ participants s /\
         JS.toLowerCase (Participant.name p) = JS.toLowerCase name) ->
   fst (addParticipant nameInput qtyInput s) = s
   /\ (snd (addParticipant nameInput qtyInput s) = []
       \/ snd (addParticipant nameInput qtyInput s) = [DuplicateName]))
  /\ (name <> "" -> JS.isFinite qty = true -> JS.leb qty JS.pzero = false ->
      (forall p, p ∈ participants s ->
         JS.toLowerCase (Participant.name p) <> JS.toLowerCase name) ->
      addParticipant nameInput qtyInput s
      = (setParticipants (fun prev => prev ++ [Participant.mk name qty]) s, [])).
Proof.
  cbv zeta. unfold addParticipant. rewrite !str_or_empty.
  set (name := JS.trim nameInput). set (qty := JS.Number qtyInput).
  assert (Hfind : forall r,
             find (fun x => String.eqb (lower_name x) (JS.toLowerCase name))
               (participants s) = r ->
             match r with
             | Some _ => exists p, p ∈ participants s /\
                           JS.toLowerCase (Participant.name p) = JS.toLowerCase name
             | None => forall p, p ∈ participants s ->
                           JS.toLowerCase (Participant.name p) <> JS.toLowerCase name
             end).
  { intros [x|] E.
    - apply find_some in E as [Hin Heq]. exists x. split; [now apply list_elem_of_In|].
      apply String.eqb_eq in Heq. now rewrite <- lower_name_eq.
    - intros p Hp Heq. apply find_lower_None in E. apply E.
      apply list_elem_of_fmap. exists p. split; [|exact Hp].
      now rewrite lower_name_eq. }
  specialize (Hfind _ eq_refl). split.
  - intros Hbad. destruct (invalid_entry name qty) eqn:Hinv; [cbn; auto|].
    destruct (find _ _); [cbn; auto|]. exfalso.
    unfold invalid_entry in Hinv.
    apply orb_false_iff in Hinv as [Hinv H3]. apply orb_false_iff in Hinv as [H1 H2].
    apply negb_false_iff in H2.
    destruct Hbad as [H|[H|[H|(p & Hp & H)]]]; try congruence.
    + apply is_empty_true in H. congruence.
    + now apply (Hfind p).
  - intros H1 H2 H3 H4. unfold invalid_entry. rewrite H2, H3.
    destruct (JS.is_empty name) eqn:E; [apply is_empty_true in E; congruence|].
    cbn [negb orb]. destruct (find _ _); [|reflexivity].
    destruct Hfind as (p & Hp & Heq). now destruct (H4 p Hp).
Qed.

Lemma addParticipant_spec_witness :
  addParticipant " Ana " "2" initial
  = (setParticipants (fun prev => prev ++ [Participant.mk "Ana" (JS.of_Z 2)]) initial, [])
  /\ fst (addParticipant "ANA" "7" (fst (addParticipant " Ana " "2" initial)))
     = fst (addParticipant " Ana " "2" initial).
Proof.
  split.
  - refine (eq_trans (proj2 (addParticipant_spec " Ana " "2" initial) _ _ _ _) _);
      try (vm_compute; (reflexivity || discriminate)).
    intros p Hp. vm_compute in Hp. now apply elem_of_nil in Hp.
  - apply (proj1 (addParticipant_spec "ANA" "7" (fst (addParticipant " Ana " "2" initial)))).
    right. right. right. exists (Participant.mk "Ana" (JS.of_Z 2)).
    split; [vm_compute; left | vm_compute; reflexivity].
Defined.

(** C9, the code against the claim: the participant A has the count 5;
    [editParticipantQty] with the new value "2.5" sets the count to 2.5, which
    is no integer.  The function clamps the number at 0 and does not round
    it; only the input of the row, its one caller, keeps the text to
    digits.  Through the row itself, 310 digits typed give the count
    [Infinity], which is no integer either. *)
Theorem editParticipantQty_fractional_count :
  let s := fst (addParticipant "A" "5" initial) in
  participants s = [Participant.mk "A" (JS.of_Z 5)]
  /\ participants (editParticipantQty "A" "2.5" s) = [Participant.mk "A" (JS.Number "2.5")]
  /\ JS.to_integer (JS.Number "2.5") = None
  /\ (exact_value (JS.Number "2.5") == 5 # 2)%Q
  /\ participants (ParticipantRow_edit "A" (JS.str (repeat "9"%char 310)) s)
     = [Participant.mk "A" JS.Infinity]
  /\ JS.to_integer JS.Infinity = None.
Proof. cbv zeta. repeat split; vm_compute; reflexivity. Qed.

(** What [editParticipantQty] does.  For every name and every new value, it
    gives every participant with exactly that name the count
    [Math.max(0, Number(newValue) || 0)], a number that is [>= 0] (so not
    [NaN]); it is [+0] when [Number(newValue)] is [NaN] and when it is
    negative.  The names, the order of the participants and the counts under
    other names are unchanged, as is the rest of the state. *)
Lemma editParticipantQty_spec {T : JS.Text} (name newValue : string) (s : AppState) :
  let qty := clamp_qty (JS.Number newValue) in
  let s' := editParticipantQty name newValue s in
  map Participant.name (participants s') = map Participant.name (participants s)
  /\ (forall (i : nat) (p : Participant.t),
        participants s !! i = Some p ->
        participants s' !! i
        = Some (if String.eqb (Participant.name p) name
                then Participant.mk (Participant.name p) qty else p))
  /\ JS.leb JS.pzero qty = true
  /\ (JS.Number newValue = JS.NaN -> qty = JS.pzero)
  /\ (JS.ltb (JS.Number newValue) JS.pzero = true -> qty = JS.pzero)
  /\ s' = setParticipants (fun _ => participants s') s.
Proof.
  cbv zeta. repeat split.
  - apply editParticipantQty_names.
  - intros i p Hp. unfold editParticipantQty. cbn.
    rewrite list_lookup_fmap, Hp. reflexivity.
  - apply clamp_qty_nonneg.
  - intros ->. reflexivity.
  - apply clamp_qty_negative.
Qed.

Lemma editParticipantQty_spec_witness :
  clamp_qty (JS.Number "abc") = JS.pzero /\ clamp_qty (JS.Number "-4") = JS.pzero.
Proof.
  split.
  - apply (proj1 (proj2 (proj2 (proj2 (editParticipantQty_spec "A" "abc" initial))))).
    vm_compute. reflexivity.
  - apply (proj1 (proj2 (proj2 (proj2 (proj2 (editParticipantQty_spec "A" "-4" initial)))))).
    vm_compute. reflexivity.
Defined.

(** ** The prize registry *)

Section Prizes.

Context {T : JS.Text}.

Lemma imap_renumber_orders (l : list Prize.t) :
  forall k : nat,
    map Prize.order (imap (fun i p => Prize.mk (Prize.name p) (Z.of_nat (k + i) + 1)) l)
    = map (fun i => Z.of_nat i + 1) (seq k (length l)).
Proof.
  induction l as [|p l IH]; intros k; [reflexivity|].
  rewrite imap_cons. cbn [map length seq Prize.order]. f_equal.
  - f_equal. lia.
  - rewrite <- (IH (S k)). f_equal. apply imap_ext. intros i x _. cbn.
    f_equal. lia.
Qed.

Lemma imap_renumber_names (l : list Prize.t) (f : nat -> Z) :
  map Prize.name (imap (fun i p => Prize.mk (Prize.name p) (f i)) l)
  = map Prize.name l.
Proof.
  revert f. induction l as [|p l IH]; intros f; [reflexivity|].
  rewrite imap_cons. cbn [map Prize.name]. f_equal. apply (IH (f ∘ S)).
Qed.

(** Renumbering a list that is numbered [1 .. n] changes nothing. *)
Lemma imap_renumber_id (l : list Prize.t) :
  forall k : nat,
    map Prize.order l = map (fun i => Z.of_nat i + 1) (seq k (length l)) ->
    imap (fun i p => Prize.mk (Prize.name p) (Z.of_nat (k + i) + 1)) l = l.
Proof.
  induction l as [|[n o] l IH]; intros k H; [reflexivity|].
  rewrite imap_cons. cbn [map length seq Prize.order] in H.
  injection H as Ho Hl. f_equal.
  - cbn. rewrite Ho. f_equal. lia.
  - rewrite <- (IH (S k) Hl) at 2. apply imap_ext. intros i x _. cbn.
    f_equal. lia.
Qed.

Lemma filter_all (A : Type) (f : A -> bool) (l : list A) :
  (forall x, x ∈ l -> f x = true) -> List.filter f l = l.
Proof.
  induction l as [|a l IH]; intros H; [reflexivity|].
  cbn. rewrite (H a) by now left. f_equal. apply IH.
  intros x Hx. apply H. now right.
Qed.

Lemma filter_map_name (name : string) (l : list Prize.t) :
  map Prize.name (List.filter (fun p => negb (String.eqb (Prize.name p) name)) l)
  = List.filter (fun n => negb (String.eqb n name)) (map Prize.name l).
Proof.
  induction l as [|p l IH]; [reflexivity|].
  cbn. destruct (String.eqb _ _); cbn; now rewrite IH.
Qed.

Lemma removePrize_well_numbered (name : string) (s : AppState) :
  well_numbered (prizes (removePrize name s)).
Proof.
  unfold well_numbered, removePrize. cbn. rewrite length_imap.
  apply (imap_renumber_orders _ 0).
Qed.

Lemma removePrize_names (name : string) (s : AppState) :
  map Prize.name (prizes (removePrize name s))
  = List.filter (fun n => negb (String.eqb n name)) (map Prize.name (prizes s)).
Proof.
  unfold removePrize. cbn.
  rewrite (imap_renumber_names _ (fun i => Z.of_nat i + 1)).
  apply filter_map_name.
Qed.

Lemma addPrize_well_numbered (n : string) (s : AppState) :
  well_numbered (prizes s) -> well_numbered (prizes (addPrize n s)).
Proof.
  unfold well_numbered, addPrize. intros H.
  destruct (JS.is_empty _); [exact H|]. cbn.
  rewrite map_app, length_app, seq_app, map_app, H. cbn. reflexivity.
Qed.

End Prizes.

(** C7: removing a prize by name from a list numbered [1 .. N] gives a list
    numbered [1 .. M], [M] being the number of prizes left, whose names are
    the names that differ from the removed one, in their former order.  (The
    numbering of the result does not depend on the numbering before.) *)
Theorem removePrize_renumbers (name : string) (s : AppState) :
  well_numbered (prizes s) ->
  let kept := prizes (removePrize name s) in
  map Prize.order kept = map (fun i => Z.of_nat i + 1) (seq 0 (length kept))
  /\ map Prize.name kept
     = List.filter (fun n => negb (String.eqb n name)) (map Prize.name (prizes s))
  /\ (length kept <= length (prizes s))%nat.
Proof.
  intros _. cbv zeta. split; [|split].
  - apply removePrize_well_numbered.
  - apply removePrize_names.
  - unfold removePrize. cbn. rewrite length_imap. apply filter_length_le.
Qed.

Lemma removePrize_renumbers_witness :
  let s := addPrize "TV" (addPrize "Fone" (addPrize "Caixa JBL" initial)) in
  prizes s = [Prize.mk "Caixa JBL" 1; Prize.mk "Fone" 2; Prize.mk "TV" 3]
  /\ prizes (removePrize "Fone" s) = [Prize.mk "Caixa JBL" 1; Prize.mk "TV" 2]
  /\ map Prize.order (prizes (removePrize "Fone" s)) = [1; 2].
Proof.
  cbv zeta. split; [vm_compute; reflexivity|]. split; [vm_compute; reflexivity|].
  refine (eq_trans (proj1 (removePrize_renumbers "Fone" _ _)) _);
    vm_compute; reflexivity.
Defined.

(** C8: [resetWinners] empties the ledger of winners and leaves the
    participants, the prizes and the audit log as they are; [hardReset],
    once confirmed, empties the participants, the prizes, the winners and the
    audit log (and changes nothing when it is not confirmed). *)
Theorem resets_clear (s : AppState) :
  (winners (resetWinners s) = []
   /\ participants (resetWinners s) = participants s
   /\ prizes (resetWinners s) = prizes s
   /\ audit (resetWinners s) = audit s)
  /\ (participants (hardReset true s) = []
      /\ prizes (hardReset true s) = []
      /\ winners (hardReset true s) = []
      /\ audit (hardReset true s) = [])
  /\ hardReset false s = s.
Proof. repeat split. Qed.

(** C10: removal compares names exactly and removes every match.
    [removeParticipant] keeps, in order, the participants whose name is not
    the given string, and [removePrize] keeps, in order, the prizes whose
    name is not the given string, so that several prizes of that name all go;
    with a name that no entry has exactly (one that differs in letter case,
    say) the participants are unchanged and so is a prize list numbered
    [1 .. N]. *)
Theorem removal_is_exact (name : string) (s : AppState) :
  (forall p, p ∈ participants (removeParticipant name s) <->
             p ∈ participants s /\ Participant.name p <> name)
  /\ map Participant.name (participants (removeParticipant name s))
     = List.filter (fun n => negb (String.eqb n name)) (map Participant.name (participants s))
  /\ ((forall p, p ∈ participants s -> Participant.name p <> name) ->
      removeParticipant name s = s)
  /\ map Prize.name (prizes (removePrize name s))
     = List.filter (fun n => negb (String.eqb n name)) (map Prize.name (prizes s))
  /\ (forall pr, pr ∈ prizes (removePrize name s) -> Prize.name pr <> name)
  /\ ((forall pr, pr ∈ prizes s -> Prize.name pr <> name) ->
      well_numbered (prizes s) -> removePrize name s = s).
Proof.
  assert (Hneq : forall a, negb (String.eqb a name) = true <-> a <> name).
  { intros a. rewrite negb_true_iff. destruct (String.eqb_spec a name); split; congruence. }
  split; [|split; [|split; [|split; [|split]]]].
  - intros p. unfold removeParticipant. cbn.
    rewrite !list_elem_of_In, filter_In, Hneq. tauto.
  - unfold removeParticipant. cbn. induction (participants s) as [|p l IH]; [reflexivity|].
    cbn. destruct (String.eqb _ _); cbn; now rewrite IH.
  - intros H. destruct s as [ps prs ws au h c r]. unfold removeParticipant, setParticipants.
    cbn in *. f_equal. apply filter_all. intros p Hp. apply Hneq. now apply H.
  - apply removePrize_names.
  - intros pr Hpr. apply (list_elem_of_fmap_2 Prize.name) in Hpr.
    rewrite removePrize_names in Hpr.
    apply list_elem_of_In in Hpr. apply filter_In in Hpr as [_ Hpr]. now apply Hneq.
  - intros H Hwn. destruct s as [ps prs ws au h c r]. unfold removePrize, setPrizes.
    cbn in *. f_equal. rewrite filter_all by (intros p Hp; apply Hneq; now apply H).
    apply (imap_renumber_id prs 0). exact Hwn.
Qed.

Lemma removal_is_exact_witness :
  let s := addPrize "Fone" (addPrize "TV" (addPrize "Fone" (fst (addParticipant "Ana" "2" initial)))) in
  removeParticipant "ana" s = s
  /\ removePrize "fone" s = s
  /\ prizes (removePrize "Fone" s) = [Prize.mk "TV" 1].
Proof.
  cbv zeta. split; [|split].
  - apply (proj1 (proj2 (proj2 (removal_is_exact "ana" _)))).
    intros p Hp. apply list_elem_of_In in Hp. vm_compute in Hp.
    destruct Hp as [<-|[]]. vm_compute. discriminate.
  - apply (proj2 (proj2 (proj2 (proj2 (proj2 (removal_is_exact "fone" _)))))).
    + intros p Hp. apply list_elem_of_In in Hp. vm_compute in Hp.
      destruct Hp as [<-|[<-|[<-|[]]]]; vm_compute; discriminate.
    + vm_compute. reflexivity.
  - vm_compute. reflexivity.
Defined.

(** ** The draw *)

Section Draw.

Context {T : JS.Text}.

Lemma elem_of_remainingPrizes (prs : list Prize.t) (ws : list Winner.t) (pr : Prize.t) :
  pr ∈ remainingPrizes prs ws <->
  pr ∈ prs /\ Prize.name pr ∉ map Winner.prize ws.
Proof.
  unfold remainingPrizes.
  rewrite (list_elem_of_In (List.filter _ _)), filter_In, <- list_elem_of_In.
  rewrite negb_true_iff.
  assert (H : existsb (fun w => String.eqb (Winner.prize w) (Prize.name pr)) ws = false
              <-> Prize.name pr ∉ map Winner.prize ws).
  { rewrite <- not_true_iff_false, existsb_exists. split; intros H C; apply H.
    - apply list_elem_of_fmap in C as (w & Hw & Hin). exists w.
      split; [now apply list_elem_of_In | rewrite Hw; apply String.eqb_refl].
    - destruct C as (w & Hin & Hw). apply String.eqb_eq in Hw. rewrite <- Hw.
      apply list_elem_of_fmap_2. now apply list_elem_of_In. }
  now rewrite H.
Qed.

Lemma orders_from (l : list Prize.t) :
  forall k : nat,
    map Prize.order l = map (fun i => Z.of_nat i + 1) (seq k (length l)) ->
    forall y, y ∈ l -> Z.of_nat k + 1 <= Prize.order y.
Proof.
  induction l as [|p l IH]; intros k H y Hy; [now apply elem_of_nil in Hy|].
  cbn [map length seq] in H. injection H as Hp Hl.
  apply elem_of_cons in Hy as [->|Hy]; [lia|].
  specialize (IH (S k) Hl y Hy). lia.
Qed.

(** In a list numbered in increasing order, the first element that a
    filter keeps has the least order among those it keeps. *)
Lemma filter_first_least (f : Prize.t -> bool) (l : list Prize.t) :
  forall k : nat,
    map Prize.order l = map (fun i => Z.of_nat i + 1) (seq k (length l)) ->
    forall x rest, List.filter f l = x :: rest ->
    forall y, y ∈ x :: rest -> Prize.order x <= Prize.order y.
Proof.
  induction l as [|p l IH]; intros k H x rest Hf y Hy; [discriminate|].
  cbn [map length seq] in H. injection H as Hp Hl.
  cbn [List.filter] in Hf. destruct (f p).
  - injection Hf as -> <-. apply elem_of_cons in Hy as [->|Hy]; [lia|].
    apply list_elem_of_In in Hy. apply filter_In in Hy as [Hy _].
    apply list_elem_of_In in Hy. pose proof (orders_from l (S k) Hl y Hy). lia.
  - now apply (IH (S k) Hl x rest Hf).
Qed.

(** What a returning [drawCore] has done: refused and changed nothing, or
    picked a coupon of the pool, awarded the first remaining prize of the
    render it reads, and appended to the ledger and to the audit log. *)
Lemma drawCore_cases (seen s s' : AppState) (now : Clock.t) (rnd : JS.number)
  (notices : list Notice) (w : option Winner.t) :
  drawCore seen now rnd s = Some (s', notices, w) ->
  (s' = s /\ w = None /\
   (notices = [NoEligibleCoupons] /\
      couponsPool (participants seen) (winnersSet (winners seen)) = Some []
    \/ notices = [NoPrizesLeft] /\
       remainingPrizes (prizes seen) (winners seen) = []))
  \/ (exists pool pick prize rest,
        couponsPool (participants seen) (winnersSet (winners seen)) = Some pool
        /\ pick_at pool rnd = Some pick
        /\ remainingPrizes (prizes seen) (winners seen) = prize :: rest
        /\ let win := Winner.mk (Coupon.name pick) (Coupon.couponNumber pick)
                        (Prize.name prize) (Clock.iso now) in
           w = Some win /\ notices = []
           /\ winners s' = winners s ++ [win]
           /\ length (audit s') = S (length (audit s))
           /\ participants s' = participants s /\ prizes s' = prizes s
           /\ countdown s' = countdown s /\ rolling s' = rolling s).
Proof.
  unfold drawCore.
  destruct (couponsPool _ _) as [pool|]; [|discriminate].
  destruct pool as [|c pool].
  { intros [= <- <- <-]. left. auto. }
  destruct (remainingPrizes _ _) as [|prize rest] eqn:Hrem.
  { intros [= <- <- <-]. left. auto. }
  destruct (pick_at _ _) as [pick|] eqn:Hpick; [|discriminate].
  intros [= <- <- <-]. right. exists (c :: pool), pick, prize, rest.
  cbn. rewrite length_app. cbn. repeat split; try reflexivity; try assumption. lia.
Qed.

(** [Math.floor(Math.random() * n)] is an index of an array of length [n] *)

Lemma shifted_step (P k : Z) (mrs : shr_record) :
  0 <= P -> 0 <= k -> shifted P k mrs -> shifted P (k + 1) (shr_1 mrs).
Proof.
  intros HP Hk [Hm Hr]. destruct mrs as [m r s]. cbn [shr_m shr_r] in *.
  assert (H2k : 0 < 2 ^ k) by (apply Z.pow_pos_nonneg; lia).
  assert (Hpow : 2 ^ (k + 1) = 2 ^ k * 2) by (rewrite Z.pow_add_r by lia; lia).
  assert (Hdiv : P / 2 ^ (k + 1) = m / 2).
  { rewrite Hpow, <- Z.div_div by lia. now rewrite Hm. }
  assert (Hmod : P mod 2 ^ (k + 1) = P mod 2 ^ k + 2 ^ k * (m mod 2)).
  { rewrite Hpow, Z.rem_mul_r by lia. now rewrite Hm. }
  pose proof (Z.mod_pos_bound P (2 ^ k) H2k) as Hb.
  unfold shifted. rewrite Hdiv, Hmod, Hpow.
  assert (Hm0 : 0 <= m) by (rewrite Hm; apply Z.div_pos; lia).
  destruct m as [|[p|p|]|p]; cbn [shr_1 shr_m shr_r]; try lia.
  - split; [reflexivity | discriminate].
  - split; [rewrite Pos2Z.inj_xI; apply Z.div_unique with 1; lia|].
    intros _. rewrite Pos2Z.inj_xI.
    replace ((2 * Z.pos p + 1) mod 2) with 1; [lia|].
    apply Z.mod_unique with (Z.pos p); lia.
  - split; [rewrite Pos2Z.inj_xO; apply Z.div_unique with 0; lia|].
    discriminate.
  - split; [reflexivity|]. intros _. change (1 mod 2) with 1. lia.
Qed.

Lemma shifted_iter (P : Z) (p : positive) :
  0 <= P ->
  forall (k : Z) (mrs : shr_record),
    0 <= k -> shifted P k mrs -> shifted P (k + Z.pos p) (SpecFloat.iter_pos shr_1 p mrs).
Proof.
  intros HP. induction p as [p IH|p IH|]; intros k mrs Hk H; cbn [iter_pos].
  - replace (k + Z.pos p~1) with (k + 1 + Z.pos p + Z.pos p) by lia.
    apply IH; [lia|]. apply IH; [lia|]. now apply shifted_step.
  - replace (k + Z.pos p~0) with (k + Z.pos p + Z.pos p) by lia.
    apply IH; [lia|]. now apply IH.
  - now apply shifted_step.
Qed.

(** The first step of the rounding: the mantissa [P] shifted by [s] and
    rounded to nearest is at most half a unit above the quotient. *)
Lemma shr_round (P : Z) (E s : Z) :
  0 <= P ->
  let '(mrs, e) := shr (shr_record_of_loc P loc_Exact) E s in
  let q := round_nearest_even (shr_m mrs) (loc_of_shr_record mrs) in
  0 <= q
  /\ (s <= 0 /\ q = P /\ e = E
      \/ 0 < s /\ e = E + s /\ 2 * q * 2 ^ s <= 2 * P + 2 ^ s).
Proof.
  intros HP. destruct s as [|p|p]; cbn [shr shr_record_of_loc].
  - cbn. split; [exact HP|]. left. repeat split; lia.
  - pose proof (shifted_iter P p HP 0 (Build_shr_record P false false)) as H.
    destruct H as [Hm Hr]; [lia | split; [cbn; now rewrite Z.div_1_r | discriminate]|].
    destruct (SpecFloat.iter_pos shr_1 p _) as [m r st]. cbn [shr_m shr_r] in *.
    replace (0 + Z.pos p) with (Z.pos p) in * by lia.
    assert (H2 : 0 < 2 ^ Z.pos p) by (apply Z.pow_pos_nonneg; lia).
    pose proof (Z.mod_pos_bound P _ H2) as Hb.
    pose proof (Z_div_mod_eq_full P (2 ^ Z.pos p)) as Hdm.
    assert (Hm0 : 0 <= m) by (rewrite Hm; apply Z.div_pos; lia).
    rewrite <- Hm in Hdm.
    destruct r, st; cbn [loc_of_shr_record round_nearest_even].
    + specialize (Hr eq_refl). split; [lia|]. right. repeat split; (lia || nia).
    + specialize (Hr eq_refl). destruct (Z.even m).
      * split; [lia|]. right. repeat split; (lia || nia).
      * split; [lia|]. right. repeat split; (lia || nia).
    + split; [lia|]. right. repeat split; (lia || nia).
    + split; [lia|]. right. repeat split; (lia || nia).
  - cbn. split; [exact HP|]. left. repeat split; lia.
Qed.

(** The second step only shifts: what is left is at most the mantissa. *)
Lemma shr_trunc (q : Z) (e s : Z) :
  0 <= q ->
  let '(mrs, e') := shr (shr_record_of_loc q loc_Exact) e s in
  exists s2, 0 <= s2 /\ e' = e + s2 /\ 0 <= shr_m mrs /\ shr_m mrs * 2 ^ s2 <= q.
Proof.
  intros Hq. destruct s as [|p|p]; cbn [shr shr_record_of_loc].
  - exists 0. cbn. lia.
  - pose proof (shifted_iter q p Hq 0 (Build_shr_record q false false)) as H.
    destruct H as [Hm _]; [lia | split; [cbn; now rewrite Z.div_1_r | discriminate]|].
    destruct (SpecFloat.iter_pos shr_1 p _) as [m r st]. cbn [shr_m] in *.
    replace (0 + Z.pos p) with (Z.pos p) in * by lia.
    assert (H2 : 0 < 2 ^ Z.pos p) by (apply Z.pow_pos_nonneg; lia).
    exists (Z.pos p). rewrite Hm. repeat split; try lia.
    + apply Z.div_pos; lia.
    + pose proof (Z.mul_div_le q _ H2). lia.
  - exists 0. cbn. lia.
Qed.

(** The product [P * 2^E] rounded to a double: the mantissa [P] is shifted
    by [s] and rounded to [q], at most half a unit above, and [q] is shifted
    again by [s2] without rounding. *)
Lemma round_aux_cases (P : positive) (E : Z) :
  let s := fexp 53 1024 (Z.pos (digits2_pos P) + E) - E in
  exists q s2 m2 : Z,
    0 <= s2 /\ 0 <= m2 /\ m2 * 2 ^ s2 <= q
    /\ (s <= 0 /\ q = Z.pos P \/ 0 < s /\ 2 * q * 2 ^ s <= 2 * Z.pos P + 2 ^ s)
    /\ binary_round_aux 53 1024 false (Z.pos P) E loc_Exact
       = match m2 with
         | Z0 => S754_zero false
         | Z.pos m =>
             if E + Z.max 0 s + s2 <=? 1024 - 53
             then S754_finite false m (E + Z.max 0 s + s2)
             else S754_infinity false
         | Z.neg _ => S754_nan
         end.
Proof.
  intros s. unfold binary_round_aux, shr_fexp. cbn [Zdigits2]. fold s.
  pose proof (shr_round (Z.pos P) E s ltac:(lia)) as H1.
  destruct (shr (shr_record_of_loc (Z.pos P) loc_Exact) E s) as [mrs e].
  cbv zeta in H1. destruct H1 as [Hq Hcase].
  set (q := round_nearest_even (shr_m mrs) (loc_of_shr_record mrs)) in *.
  pose proof (shr_trunc q e (fexp 53 1024 (Zdigits2 q + e) - e) Hq) as H2.
  destruct (shr (shr_record_of_loc q loc_Exact) e _) as [mrs2 e2].
  destruct H2 as (s2 & Hs2 & -> & Hm2 & Hle).
  exists q, s2, (shr_m mrs2). repeat split; try assumption.
  - destruct Hcase as [(Hs & -> & _)|(Hs & _ & Hb)]; [left | right]; auto.
  - assert (He : e = E + Z.max 0 s) by (destruct Hcase as [(? & _ & ->)|(? & -> & _)]; lia).
    rewrite He. reflexivity.
Qed.

(** A positive integer below [2^53] as a double: the integer shifted to the
    left. *)
Lemma of_Z_shape (p : positive) :
  Z.pos p < 2 ^ 53 ->
  exists (m : positive) (k : Z),
    JS.of_Z (Z.pos p) = S754_finite false m (- k)
    /\ 0 <= k /\ Z.pos m = Z.pos p * 2 ^ k.
Proof.
  intros Hp. pose proof (digits2_pos_bounds p) as [Hlo Hhi].
  assert (Hd : Z.pos (digits2_pos p) <= 53).
  { destruct (Z_le_gt_dec (Z.pos (digits2_pos p)) 53) as [H|H]; [exact H|].
    exfalso.
    assert (2 ^ 53 <= 2 ^ (Z.pos (digits2_pos p) - 1)) by (apply Z.pow_le_mono_r; lia).
    lia. }
  unfold JS.of_Z, binary_normalize, binary_round, shl_align, fexp, emin.
  replace (Z.max (Z.pos (digits2_pos p) + 0 - 53) (3 - 1024 - 53) - 0)
    with (Z.pos (digits2_pos p) - 53) by lia.
  replace (Z.max (Z.pos (digits2_pos p) + 0 - 53) (3 - 1024 - 53))
    with (Z.pos (digits2_pos p) - 53) by lia.
  destruct (Z.pos (digits2_pos p) - 53) as [|k|k] eqn:Hk; [|lia|].
  - exists p, 0. split; [apply round_exact; lia|]. cbn. lia.
  - exists (Pos.iter xO p k), (Z.pos k). split; [|split; [lia|]].
    + apply round_exact; [|lia]. rewrite iter_xO_digits. lia.
    + apply iter_xO_value.
Qed.

(** A double [x] with [0 <= x < 1] is zero, or has a mantissa below [2^53]
    and an exponent from [-1074] to [-53]. *)
Lemma unit_random_cases (rnd : JS.number) :
  unit_random rnd ->
  (exists s, rnd = S754_zero s)
  \/ exists (m : positive) (a : Z),
       rnd = S754_finite false m (- a) /\ 53 <= a <= 1074 /\ Z.pos m < 2 ^ 53.
Proof.
  intros (Hv & H0 & H1). destruct rnd as [s|s| |s m e].
  - left. eauto.
  - destruct s; discriminate.
  - discriminate.
  - right. destruct s; [discriminate|]. clear H0.
    unfold JS.is_double, valid_binary, bounded, canonical_mantissa, fexp, emin in Hv.
    apply andb_true_iff in Hv as [Hc _]. apply Z.eqb_eq in Hc.
    pose proof (digits2_pos_bounds m) as [Hlo Hhi].
    assert (Hd : Z.pos (digits2_pos m) <= 53) by lia.
    assert (Hm : Z.pos m < 2 ^ 53).
    { eapply Z.lt_le_trans; [exact Hhi|]. apply Z.pow_le_mono_r; lia. }
    assert (He : e < -52).
    { unfold JS.ltb, SFltb in H1.
      change (JS.of_Z 1) with (S754_finite false 4503599627370496 (-52)) in H1.
      cbn [SFcompare] in H1.
      destruct (Z.compare_spec e (-52)) as [E|E|E]; [|exact E|discriminate].
      (* the exponent -52 goes with a mantissa of 53 bits: 1 or more *)
      exfalso. subst e. rewrite Pos.compare_cont_spec in H1.
      destruct (Pos.compare_spec m 4503599627370496) as [C|C|C]; try discriminate.
      assert (Ed : Z.pos (digits2_pos m) = 53) by (clear - Hc; lia).
      rewrite Ed in Hlo. change (2 ^ (53 - 1)) with 4503599627370496 in Hlo.
      apply Pos2Z.pos_lt_pos in C.
      exact (Z.lt_irrefl _ (Z.lt_le_trans _ _ _ C Hlo)). }
    exists m, (- e). rewrite Z.opp_involutive. repeat split; lia.
Qed.

(** For a double [x] with [0 <= x < 1] and the length [n > 0] of an array,
    [Math.floor(x * n)] is an index below [n]: the product is at most
    [n * (1 - 2^-53)], and rounding it to a double adds at most half a unit
    in the last place, which does not reach [n]. *)
Lemma random_index_in_range (rnd : JS.number) (n : nat) :
  unit_random rnd -> (0 < n)%nat -> Z.of_nat n <= JS.max_array_length ->
  exists idx, random_index rnd n = Some idx /\ (idx < n)%nat.
Proof.
  intros Hrnd Hn Hmax. unfold random_index.
  destruct (Z.of_nat n) as [|p|p] eqn:Ep; [lia| |lia].
  assert (Hp : Z.pos p < 2 ^ 32) by (unfold JS.max_array_length in Hmax; lia).
  destruct (of_Z_shape p) as (my & b & -> & Hb & Hmy); [lia|].
  destruct (unit_random_cases rnd Hrnd) as [[s ->]|(mx & a & -> & Ha & Hmx)].
  { cbn. exists O. split; [reflexivity | lia]. }
  cbn [SFmul xorb].
  destruct (round_aux_cases (mx * my) (- a + - b)) as (q & s2 & m2 & Hs2 & Hm2 & Hle & Hcase & ->).
  set (s := fexp 53 1024 (Z.pos (digits2_pos (mx * my)) + (- a + - b)) - (- a + - b)) in *.
  set (N := Z.pos p) in *.
  assert (HN : 0 < N) by (unfold N; lia).
  assert (H2a : 2 ^ 53 <= 2 ^ a) by (apply Z.pow_le_mono_r; lia).
  assert (H2b : 0 < 2 ^ b) by (apply Z.pow_pos_nonneg; lia).
  assert (HP : Z.pos (mx * my) = Z.pos mx * N * 2 ^ b) by (rewrite Pos2Z.inj_mul, Hmy; lia).
  (* the rounded mantissa is below N * 2^(a+b) *)
  assert (Hq : q * 2 ^ Z.max 0 s < N * 2 ^ b * 2 ^ a).
  { destruct Hcase as [(Hs & ->)|(Hs & Hround)].
    - rewrite Z.max_l by lia. rewrite HP. cbn [Z.pow]. nia.
    - rewrite Z.max_r by lia.
      assert (H2s : 2 ^ s < 2 * N * 2 ^ b).
      { unfold s, fexp, emin in *.
        pose proof (digits2_pos_bounds (mx * my)) as [Hlo _]. rewrite HP in Hlo.
        set (d := Z.pos (digits2_pos (mx * my))) in *.
        destruct (Z.max_spec (d + (- a + - b) - 53) (3 - 1024 - 53)) as [[_ E]|[_ E]];
          rewrite E in *.
        - (* the shift is a + b - 1074, at most b *)
          assert (2 ^ (3 - 1024 - 53 - (- a + - b)) <= 2 ^ b) by (apply Z.pow_le_mono_r; lia).
          nia.
        - (* the shift is d - 53 *)
          replace (d + (- a + - b) - 53 - (- a + - b)) with (d - 53) in * by lia.
          assert (Hd : 2 ^ (d - 1) = 2 ^ (d - 53) * 2 ^ 52)
            by (rewrite <- Z.pow_add_r by lia; f_equal; lia).
          assert (0 < 2 ^ (d - 53)) by (apply Z.pow_pos_nonneg; lia).
          nia. }
      nia. }
  assert (Hm2q : m2 * 2 ^ s2 * 2 ^ Z.max 0 s < N * 2 ^ b * 2 ^ a).
  { assert (0 < 2 ^ Z.max 0 s) by (apply Z.pow_pos_nonneg; lia). nia. }
  destruct m2 as [|m|m]; [exists O; split; [reflexivity | lia] | | lia].
  set (e := - a + - b + Z.max 0 s + s2) in *.
  assert (H2s2 : 0 < 2 ^ s2) by (apply Z.pow_pos_nonneg; lia).
  assert (H2s : 0 < 2 ^ Z.max 0 s) by (apply Z.pow_pos_nonneg; lia).
  assert (Hsum : 2 ^ (Z.max 0 s + s2) = 2 ^ s2 * 2 ^ Z.max 0 s)
    by (rewrite Z.pow_add_r by lia; lia).
  assert (Hab : 2 ^ (a + b) = 2 ^ b * 2 ^ a) by (rewrite Z.pow_add_r by lia; lia).
  assert (Hval : Z.pos m * 2 ^ (Z.max 0 s + s2) < N * 2 ^ (a + b)) by (rewrite Hsum, Hab; lia).
  assert (He : e < 32).
  { destruct (Z_lt_le_dec e 32) as [H|H]; [exact H|]. exfalso.
    assert (2 ^ (a + b + 32) <= 2 ^ (Z.max 0 s + s2)) by (apply Z.pow_le_mono_r; unfold e in H; lia).
    rewrite Z.pow_add_r in H0 by lia.
    assert (0 < 2 ^ (a + b)) by (apply Z.pow_pos_nonneg; lia). nia. }
  rewrite (proj2 (Z.leb_le e (1024 - 53))) by lia.
  eexists. split; [reflexivity|].
  assert (Hfl : JS.floor_finite false m e < N).
  { unfold JS.floor_finite. destruct e as [|k|k] eqn:Ee.
    - replace (Z.max 0 s + s2) with (a + b) in Hval by (unfold e in Ee; lia).
      assert (H2 : 0 < 2 ^ (a + b)) by (apply Z.pow_pos_nonneg; lia).
      apply (Z.mul_lt_mono_pos_r _ _ _ H2). cbn [Z.pow]. lia.
    - replace (Z.max 0 s + s2) with (a + b + Z.pos k) in Hval by (unfold e in Ee; lia).
      rewrite Z.pow_add_r in Hval by lia.
      assert (H2 : 0 < 2 ^ (a + b)) by (apply Z.pow_pos_nonneg; lia).
      apply (Z.mul_lt_mono_pos_r _ _ _ H2). lia.
    - apply Z.div_lt_upper_bound; [apply Z.pow_pos_nonneg; lia|].
      replace (a + b) with (Z.max 0 s + s2 + Z.pos k) in Hval by (unfold e in Ee; lia).
      rewrite (Z.pow_add_r 2 (Z.max 0 s + s2) (Z.pos k)) in Hval by lia.
      assert (H2 : 0 < 2 ^ (Z.max 0 s + s2)) by (apply Z.pow_pos_nonneg; lia).
      apply (Z.mul_lt_mono_pos_r _ _ _ H2). lia. }
  pose proof (floor_finite_nonneg m e). unfold N in Hfl. lia.
Qed.

(** With coupons in the pool, a prize left and a value of [Math.random()],
    [drawCore] returns a winner. *)
Lemma drawCore_awards (seen s : AppState) (now : Clock.t) (rnd : JS.number)
  (c : Coupon.t) (pool : list Coupon.t) (prize : Prize.t) (rest : list Prize.t) :
  couponsPool (participants seen) (winnersSet (winners seen)) = Some (c :: pool) ->
  remainingPrizes (prizes seen) (winners seen) = prize :: rest ->
  unit_random rnd ->
  exists s' win, drawCore seen now rnd s = Some (s', [], Some win)
                 /\ Winner.prize win = Prize.name prize.
Proof.
  intros Hpool Hrem Hrnd. unfold drawCore. rewrite Hpool, Hrem.
  assert (Hlen : Z.of_nat (length (c :: pool)) <= JS.max_array_length).
  { apply couponsPool_Some in Hpool as [-> [_ Hroom]]. now rewrite length_pool_spec. }
  destruct (random_index_in_range rnd (length (c :: pool)) Hrnd) as (idx & Hidx & Hlt);
    [cbn; lia | exact Hlen |].
  destruct (lookup_lt_is_Some_2 (c :: pool) idx Hlt) as [pick Hpick].
  unfold pick_at. rewrite Hidx, Hpick. eauto.
Qed.

(** Without a pool, [drawCore] throws. *)
Lemma drawCore_throws (seen s : AppState) (now : Clock.t) (rnd : JS.number) :
  couponsPool (participants seen) (winnersSet (winners seen)) = None ->
  drawCore seen now rnd s = None.
Proof. intros H. unfold drawCore. now rewrite H. Qed.

End Draw.

(** A handler of the present render refuses to draw: in a state whose pool
    is built, if the pool is empty or no prize remains, [drawCore], the
    button of the immediate draw and the button of the draw with countdown,
    as created in the render of that state, return no winner and leave the
    whole state unchanged; [drawCore] shows one notice. *)
Lemma draw_refused {T : JS.Text} (s : AppState) (now : Clock.t) (rnd : JS.number) (pool : list Coupon.t) :
  couponsPool (participants s) (winnersSet (winners s)) = Some pool ->
  pool = [] \/ remainingPrizes (prizes s) (winners s) = [] ->
  (exists notice, drawCore s now rnd s = Some (s, [notice], None))
  /\ (exists notices, draw s now rnd s = Some (s, notices, None))
  /\ (exists notices, drawWithCountdown_enter s now rnd s = Some (s, notices, None, false)).
Proof.
  intros Hpool Hempty.
  assert (Hcore : exists notice, drawCore s now rnd s = Some (s, [notice], None)).
  { unfold drawCore. rewrite Hpool. destruct pool as [|c pool]; [eauto|].
    destruct Hempty as [|Hrem]; [discriminate|]. rewrite Hrem. eauto. }
  destruct Hcore as [notice Hcore]. split; [eauto|]. split.
  - unfold draw. destruct (busy s); [eauto|]. rewrite Hcore. eauto.
  - unfold drawWithCountdown_enter. destruct (busy s); [eauto|].
    rewrite Hpool, Hcore.
    destruct Hempty as [-> | ->]; cbn; [eauto|].
    rewrite orb_true_r. eauto.
Qed.

Lemma draw_refused_witness :
  let s := fst (addParticipant "Ana" "2" initial) in
  (exists notice, drawCore s (Clock.mk "t" "d" "h") (JS.of_ratio false 1 2) s = Some (s, [notice], None))
  /\ winners s = [] /\ audit s = [].
Proof.
  cbv zeta. split; [|split; reflexivity].
  apply (draw_refused _ (Clock.mk "t" "d" "h") (JS.of_ratio false 1 2)
           [Coupon.mk "Ana" 1; Coupon.mk "Ana" 2]).
  - vm_compute. reflexivity.
  - right. vm_compute. reflexivity.
Defined.

(** ** The invariant of the transition system *)

(** C3, the code against the claim: a draw with countdown is started with
    one participant and one prize; during the countdown the participant and
    the prize are removed, so that the pool of the state is empty and no
    prize remains.  The draw that the countdown ends with is to return no
    winner and to change nothing; it returns the winner Ana with the prize
    P1, appends her to the ledger and a row to the audit log.  (As for C1:
    the [drawCore] called at the end of [drawWithCountdown] reads the render
    in which the countdown was started, not the present pool and prizes that
    its comment names.) *)
Theorem countdown_draws_in_empty_state :
  let clock := Clock.mk "2024-01-01T12:00:00.000Z" "01/01/2024" "12:00:00" in
  let evs := [AddParticipant "Ana" "2"; AddPrize "P1";
              DrawWithCountdown clock JS.pzero;
              RemoveParticipant "Ana"; RemovePrize "P1";
              CountdownTimer; CountdownTimer; CountdownTimer] in
  exists sys sys',
    run evs start = Some sys
    /\ couponsPool (participants (app sys)) (winnersSet (winners (app sys))) = Some []
    /\ remainingPrizes (prizes (app sys)) (winners (app sys)) = []
    /\ winners (app sys) = []
    /\ audit (app sys) = []
    /\ fire (RollingTimer clock JS.pzero) sys = Some sys'
    /\ winners (app sys') = [Winner.mk "Ana" 1 "P1" "2024-01-01T12:00:00.000Z"]
    /\ audit (app sys')
       = [AuditRow.mk "01/01/2024" "12:00:00" "Ana" 1 (JS.of_Z 2) "P1"].
Proof.
  intros clock evs.
  destruct (run evs start) as [sys|] eqn:Hrun; [|vm_compute in Hrun; discriminate].
  destruct (fire (RollingTimer clock JS.pzero) sys) as [sys'|] eqn:Hfire;
    [|vm_compute in Hrun; injection Hrun as <-; vm_compute in Hfire; discriminate].
  exists sys, sys'.
  vm_compute in Hrun. injection Hrun as <-.
  vm_compute in Hfire. injection Hfire as <-.
  repeat split.
Qed.

Section Invariant.

Context {T : JS.Text}.

Lemma invariant_start : invariant start.
Proof.
  unfold invariant, start, well_numbered, unique_names. cbn.
  repeat split; apply NoDup_nil_2.
Qed.

(** A handler that leaves the ledger, the countdown and the rolling flag
    alone keeps the invariant if it keeps the numbering of the prizes and
    the distinct names. *)
Lemma invariant_keep (sys : System) (s' : AppState) :
  invariant sys ->
  winners s' = winners (app sys) ->
  countdown s' = countdown (app sys) ->
  rolling s' = rolling (app sys) ->
  well_numbered (prizes s') ->
  unique_names (participants s') ->
  invariant {| app := s'; inflight := inflight sys |}.
Proof.
  intros (Hnd & Hwn & Hun & Hfl) Hw Hc Hr Hwn' Hun'.
  unfold invariant, busy in *. cbn. rewrite Hw, Hc, Hr. auto.
Qed.

Lemma invariant_idle (sys : System) :
  invariant sys -> busy (app sys) = false -> inflight sys = None.
Proof.
  intros (_ & _ & _ & Hfl) Hb. destruct (inflight sys); [|reflexivity].
  destruct Hfl as [Hfl _]. congruence.
Qed.

(** A returning [drawCore] that reads the ledger of the present state
    keeps the prizes named in the ledger distinct. *)
Lemma drawCore_ledger (seen s s' : AppState) (now : Clock.t) (rnd : JS.number)
  (notices : list Notice) (w : option Winner.t) :
  drawCore seen now rnd s = Some (s', notices, w) ->
  winners seen = winners s ->
  NoDup (map Winner.prize (winners s)) ->
  NoDup (map Winner.prize (winners s'))
  /\ participants s' = participants s /\ prizes s' = prizes s
  /\ countdown s' = countdown s /\ rolling s' = rolling s.
Proof.
  intros Hd Hseen Hnd. apply drawCore_cases in Hd as [(-> & _)|Hd]; [auto|].
  destruct Hd as (pool & pick & prize & rest & _ & _ & Hrem & _ & _ & Hw & _ & Hps & Hprs & Hc & Hr).
  repeat split; try assumption.
  rewrite Hw, map_app. apply NoDup_app. split; [exact Hnd|]. split.
  - intros x Hx Hx'. apply list_elem_of_singleton in Hx'. cbn in Hx'. subst x.
    assert (Hin : prize ∈ remainingPrizes (prizes seen) (winners seen))
      by (rewrite Hrem; left).
    apply elem_of_remainingPrizes in Hin as [_ Hin]. rewrite Hseen in Hin. contradiction.
  - apply NoDup_singleton.
Qed.

Lemma addParticipant_frame (n q : string) (s : AppState) :
  let s' := fst (addParticipant n q s) in
  prizes s' = prizes s /\ winners s' = winners s
  /\ countdown s' = countdown s /\ rolling s' = rolling s.
Proof.
  cbv zeta. unfold addParticipant. destruct (invalid_entry _ _); [auto|].
  destruct (find _ _); cbn; auto.
Qed.

Lemma bulkImport_frame (raw : string) (s : AppState) :
  let s' := fst (bulkImport s raw s) in
  prizes s' = prizes s /\ winners s' = winners s
  /\ countdown s' = countdown s /\ rolling s' = rolling s.
Proof.
  cbv zeta. unfold bulkImport. destruct (trimmed_nonempty _); [auto|].
  destruct (fold_left _ _ _); cbn; auto.
Qed.

Lemma addPrize_frame (n : string) (s : AppState) :
  let s' := addPrize n s in
  participants s' = participants s /\ winners s' = winners s
  /\ countdown s' = countdown s /\ rolling s' = rolling s.
Proof. cbv zeta. unfold addPrize. destruct (JS.is_empty _); cbn; auto. Qed.

Lemma fire_invariant (ev : Event) (sys sys' : System) :
  invariant sys -> fire ev sys = Some sys' -> invariant sys'.
Proof.
  intros Hinv Hfire. destruct ev; cbn [fire] in Hfire.
  - (* AddParticipant *)
    injection Hfire as <-. pose proof Hinv as (Hnd & Hwn & Hun & Hfl).
    destruct (addParticipant_frame nameInput qtyInput (app sys)) as (Hp & Hw & Hc & Hr).
    apply invariant_keep; try assumption.
    + now rewrite Hp.
    + now apply addParticipant_unique.
  - (* EditParticipantQty *)
    injection Hfire as <-. pose proof Hinv as (Hnd & Hwn & Hun & Hfl).
    apply invariant_keep; try assumption; try reflexivity.
    eapply unique_names_by_name; [apply editParticipantQty_names | exact Hun].
  - (* RemoveParticipant *)
    injection Hfire as <-. pose proof Hinv as (Hnd & Hwn & Hun & Hfl).
    apply invariant_keep; try assumption; try reflexivity.
    now apply unique_names_filter.
  - (* BulkImport *)
    injection Hfire as <-. pose proof Hinv as (Hnd & Hwn & Hun & Hfl).
    destruct (bulkImport_frame raw (app sys)) as (Hp & Hw & Hc & Hr).
    apply invariant_keep; try assumption.
    + now rewrite Hp.
    + now apply bulkImport_unique.
  - (* AddPrize *)
    injection Hfire as <-. pose proof Hinv as (Hnd & Hwn & Hun & Hfl).
    destruct (addPrize_frame nameInput (app sys)) as (Hp & Hw & Hc & Hr).
    apply invariant_keep; try assumption.
    + now apply addPrize_well_numbered.
    + now rewrite Hp.
  - (* RemovePrize *)
    injection Hfire as <-. pose proof Hinv as (Hnd & Hwn & Hun & Hfl).
    apply invariant_keep; try assumption; try reflexivity.
    apply removePrize_well_numbered.
  - (* ResetWinners *)
    destruct (busy (app sys)) eqn:Hb; [discriminate|]. injection Hfire as <-.
    rewrite (invariant_idle sys Hinv Hb). destruct Hinv as (Hnd & Hwn & Hun & Hfl).
    unfold invariant. cbn. repeat split; try assumption. apply NoDup_nil_2.
  - (* HardReset *)
    destruct (busy (app sys)) eqn:Hb; [discriminate|]. injection Hfire as <-.
    pose proof (invariant_idle sys Hinv Hb) as Hidle.
    destruct confirmed; cbn [hardReset negb].
    + rewrite Hidle. unfold invariant, well_numbered, unique_names. cbn.
      repeat split; try apply NoDup_nil_2. exact Hb.
    + destruct sys as [s fl]. cbn in *. now subst fl.
  - (* ClearAudit *)
    destruct (busy (app sys)) eqn:Hb; [discriminate|]. injection Hfire as <-.
    pose proof Hinv as (Hnd & Hwn & Hun & Hfl).
    apply invariant_keep; try assumption; reflexivity.
  - (* CloseHighlight *)
    injection Hfire as <-. pose proof Hinv as (Hnd & Hwn & Hun & Hfl).
    apply invariant_keep; try assumption; reflexivity.
  - (* Draw *)
    destruct (draw _ _ _ _) as [[[s' ns] w]|] eqn:Hd; [|discriminate].
    injection Hfire as <-. unfold draw in Hd.
    destruct (busy (app sys)) eqn:Hb.
    + injection Hd as <- _ _. now destruct sys.
    + pose proof Hinv as (Hnd & Hwn & Hun & Hfl).
      destruct (drawCore_ledger _ _ _ _ _ _ _ Hd eq_refl Hnd) as (Hnd' & Hps & Hprs & Hc & Hr).
      rewrite (invariant_idle sys Hinv Hb) in *.
      unfold invariant, busy in *. cbn. rewrite Hps, Hprs, Hc, Hr. auto.
  - (* DrawWithCountdown *)
    destruct (drawWithCountdown_enter _ _ _ _) as [[[[s' ns] w] started]|] eqn:Hd;
      [|discriminate].
    injection Hfire as <-. unfold drawWithCountdown_enter in Hd.
    destruct (busy (app sys)) eqn:Hb.
    { injection Hd as <- _ _ <-. now destruct sys. }
    pose proof Hinv as (Hnd & Hwn & Hun & Hfl).
    rewrite (invariant_idle sys Hinv Hb) in *.
    destruct (couponsPool _ _) as [pool|]; [|discriminate].
    destruct (_ || _).
    + destruct (drawCore _ _ _ _) as [[[s1 ns1] w1]|] eqn:Hcore; [|discriminate].
      injection Hd as <- _ _ <-.
      destruct (drawCore_ledger _ _ _ _ _ _ _ Hcore eq_refl Hnd) as (Hnd' & Hps & Hprs & Hc & Hr).
      unfold invariant, busy in *. cbn. rewrite Hps, Hprs, Hc, Hr. auto.
    + injection Hd as <- _ _ <-. unfold invariant, busy in *. cbn.
      apply orb_false_iff in Hb as [Hroll _]. rewrite Hroll.
      repeat split; try assumption. congruence.
  - (* CountdownTimer *)
    destruct Hinv as (Hnd & Hwn & Hun & Hfl).
    destruct (inflight sys) as [seen|] eqn:Hin; [|discriminate].
    destruct (rolling (app sys)) eqn:Hroll; [discriminate|].
    destruct Hfl as (Hb & Hw & Hwn' & _).
    destruct (countdown (app sys)) as [|[|n]] eqn:Hcount; [discriminate| |];
      injection Hfire as <-; unfold invariant, busy; cbn.
    + auto 8.
    + rewrite Hroll. cbn. repeat split; try assumption. discriminate.
  - (* RollingTimer *)
    destruct Hinv as (Hnd & Hwn & Hun & Hfl).
    destruct (inflight sys) as [seen|] eqn:Hin; [|discriminate].
    destruct (rolling (app sys)) eqn:Hroll; [|discriminate].
    destruct (drawCore _ _ _ _) as [[[s' ns] w]|] eqn:Hcore; [|discriminate].
    injection Hfire as <-. destruct Hfl as (Hb & Hw & Hwn' & Hzero).
    destruct (drawCore_ledger _ _ _ _ _ _ _ Hcore Hw Hnd) as (Hnd' & Hps & Hprs & Hc & Hr).
    unfold invariant, busy. cbn in *. rewrite Hps, Hprs, Hc, Hr, Hzero by reflexivity.
    auto.
Qed.

Lemma run_invariant (evs : list Event) :
  forall sys sys', invariant sys -> run evs sys = Some sys' -> invariant sys'.
Proof.
  induction evs as [|ev evs IH]; intros sys sys' Hinv Hrun; cbn in Hrun.
  - now injection Hrun as <-.
  - destruct (fire ev sys) as [sys1|] eqn:Hfire; [|discriminate].
    eapply IH; [eapply fire_invariant; eassumption | exact Hrun].
Qed.

Lemma reachable_invariant (sys : System) : reachable sys -> invariant sys.
Proof. intros [evs Hrun]. eapply run_invariant; [apply invariant_start | exact Hrun]. Qed.

End Invariant.

(** What holds of the prize of a draw.  In every reachable state the prizes
    named in the ledger of winners are pairwise distinct; and a [drawCore]
    that returns a winner, called by the button on the present state or by
    the timer of a draw with countdown on the render that draw was started
    in, awards the first of the prizes of the render it reads whose name no
    entry of the ledger has, which has the lowest order among them.  The
    prizes of that render need not be the prizes of the state, as the run
    after this lemma shows. *)
Lemma ledger_awards_lowest_remaining {T : JS.Text} (sys : System) :
  reachable sys ->
  NoDup (map Winner.prize (winners (app sys)))
  /\ forall seen : AppState,
       seen = app sys \/ inflight sys = Some seen ->
       forall now rnd s s' notices w,
         drawCore seen now rnd s = Some (s', notices, Some w) ->
         exists pr rest,
           remainingPrizes (prizes seen) (winners (app sys)) = pr :: rest
           /\ Winner.prize w = Prize.name pr
           /\ pr ∈ prizes seen
           /\ (Prize.name pr ∉ map Winner.prize (winners (app sys)))
           /\ (forall pr', pr' ∈ prizes seen ->
                 Prize.name pr' ∉ map Winner.prize (winners (app sys)) ->
                 Prize.order pr <= Prize.order pr')
           /\ winners s' = winners s ++ [w].
Proof.
  intros Hreach. apply reachable_invariant in Hreach as (Hnd & Hwn & _ & Hfl).
  split; [exact Hnd|]. intros seen Hseen now rnd s s' notices w Hd.
  assert (Hview : winners seen = winners (app sys) /\ well_numbered (prizes seen)).
  { destruct Hseen as [->|Hin]; [auto|]. rewrite Hin in Hfl. tauto. }
  destruct Hview as [Hw Hwn']. rewrite <- Hw.
  apply drawCore_cases in Hd as [(_ & [=] & _)|Hd].
  destruct Hd as (pool & pick & prize & rest & _ & _ & Hrem & [= ->] & _ & Hws & _).
  exists prize, rest.
  assert (Hin : prize ∈ remainingPrizes (prizes seen) (winners seen))
    by (rewrite Hrem; left).
  apply elem_of_remainingPrizes in Hin as [Hin Hfresh].
  repeat split; try assumption.
  intros pr' Hpr' Hfresh'.
  apply (filter_first_least _ (prizes seen) 0 Hwn' prize rest Hrem).
  rewrite <- Hrem. now apply elem_of_remainingPrizes.
Qed.

Lemma ledger_awards_lowest_remaining_witness :
  let clock := Clock.mk "2024-01-01T12:00:00.000Z" "01/01/2024" "12:00:00" in
  let evs := [AddParticipant "Rafael" "30"; AddParticipant "Juliana" "12";
              AddPrize "P1"; AddPrize "P2"; Draw clock (JS.of_ratio false 1 2)] in
  exists sys,
    run evs start = Some sys
    /\ map Winner.prize (winners (app sys)) = ["P1"]
    /\ NoDup (map Winner.prize (winners (app sys)))
    /\ exists s' w, drawCore (app sys) clock (JS.of_ratio false 1 3) (app sys) = Some (s', [], Some w)
                    /\ Winner.prize w = "P2".
Proof.
  intros clock evs.
  destruct (run evs start) as [sys|] eqn:Hrun; [|vm_compute in Hrun; discriminate].
  assert (Hreach : reachable sys) by (exists evs; exact Hrun).
  destruct (ledger_awards_lowest_remaining sys Hreach) as [Hnd Hlow].
  exists sys. split; [reflexivity|].
  vm_compute in Hrun. injection Hrun as <-.
  split; [vm_compute; reflexivity|]. split; [exact Hnd|].
  eexists. eexists. split; [vm_compute; reflexivity|]. reflexivity.
Defined.

(** C1, the code against the claim: with the prizes P1 and P2 registered, a
    draw with countdown is started, and the prize P1 is removed during the
    countdown: the one prize of the state is P2, renumbered 1, and no prize
    is awarded yet.  The draw that the countdown ends with awards P1, which
    is no prize of the state, and P2, the un-awarded prize with the lowest
    order, is still to be won.  The [drawCore] called at the end of
    [drawWithCountdown] is the one of the render in which the countdown was
    started, while its comment has it read the present pool and prizes, and
    the stage shows the first remaining prize of the present state as the
    next prize. *)
Theorem countdown_awards_removed_prize :
  let clock := Clock.mk "2024-01-01T12:00:00.000Z" "01/01/2024" "12:00:00" in
  let evs := [AddParticipant "Ana" "2"; AddPrize "P1"; AddPrize "P2";
              DrawWithCountdown clock JS.pzero; RemovePrize "P1";
              CountdownTimer; CountdownTimer; CountdownTimer] in
  exists sys sys',
    run evs start = Some sys
    /\ prizes (app sys) = [Prize.mk "P2" 1]
    /\ winners (app sys) = []
    /\ remainingPrizes (prizes (app sys)) (winners (app sys)) = [Prize.mk "P2" 1]
    /\ fire (RollingTimer clock JS.pzero) sys = Some sys'
    /\ winners (app sys') = [Winner.mk "Ana" 1 "P1" "2024-01-01T12:00:00.000Z"]
    /\ prizes (app sys') = [Prize.mk "P2" 1]
    /\ remainingPrizes (prizes (app sys')) (winners (app sys')) = [Prize.mk "P2" 1].
Proof.
  intros clock evs.
  destruct (run evs start) as [sys|] eqn:Hrun; [|vm_compute in Hrun; discriminate].
  destruct (fire (RollingTimer clock JS.pzero) sys) as [sys'|] eqn:Hfire;
    [|vm_compute in Hrun; injection Hrun as <-; vm_compute in Hfire; discriminate].
  exists sys, sys'.
  vm_compute in Hrun. injection Hrun as <-.
  vm_compute in Hfire. injection Hfire as <-.
  repeat split.
Qed.

(** A draw with countdown, from the click to the winner: three expiries of
    the countdown timer, then the expiry of the rolling timer. *)
Example countdown_draw_run :
  let clock := Clock.mk "2024-01-01T12:00:00.000Z" "01/01/2024" "12:00:00" in
  let evs := [AddParticipant "Rafael" "3"; AddPrize "P1"; AddPrize "P2";
              DrawWithCountdown clock JS.pzero; RemovePrize "P2";
              CountdownTimer; CountdownTimer; CountdownTimer;
              RollingTimer clock (JS.of_ratio false 2 3)] in
  (fun sys => (winners (app sys), prizes (app sys), busy (app sys), inflight sys))
    <$> run evs start
  = Some ([Winner.mk "Rafael" 3 "P1" "2024-01-01T12:00:00.000Z"],
          [Prize.mk "P1" 1], false, None).
Proof. vm_compute. reflexivity. Qed.

(** ** More on the pool and the draw *)

Section PoolMembers.

Context {T : JS.Text}.

(** For a counter from 1 on and a count other than [Infinity], the test of
    the loop holds up to the number of tickets. *)
Lemma int_leb_tickets (i : Z) (x : JS.number) :
  x <> JS.Infinity -> 1 <= i ->
  JS.int_leb i x = true <-> i <= Z.of_nat (tickets x).
Proof.
  intros Hx Hi. destruct x as [s|[|]| |[|] m e]; cbn [JS.int_leb tickets negb].
  - rewrite Z.leb_le. lia.
  - split; [discriminate | lia].
  - now destruct Hx.
  - split; [discriminate | lia].
  - split; [|cbn; lia]. intros H. exfalso. destruct e as [|k|k]; apply Z.leb_le in H.
    + lia.
    + pose proof (Z.pow_pos_nonneg 2 (Z.pos k)). nia.
    + pose proof (Z.pow_pos_nonneg 2 (Z.pos k)). nia.
  - change (JS.int_leb i (S754_finite false m e) = true
            <-> i <= Z.of_nat (Z.to_nat (JS.floor_finite false m e))).
    rewrite int_leb_floor, Z.leb_le. pose proof (floor_finite_nonneg m e). lia.
Qed.

Lemma elem_of_coupons_of (c : Coupon.t) (name : string) (n : nat) :
  c ∈ coupons_of name n <->
  Coupon.name c = name /\ 1 <= Coupon.couponNumber c <= Z.of_nat n.
Proof.
  unfold coupons_of. rewrite list_elem_of_fmap. split.
  - intros (i & -> & Hi). apply list_elem_of_In, in_seq in Hi. cbn.
    split; [reflexivity | lia].
  - intros (Hn & Hlo & Hhi). exists (Z.to_nat (Coupon.couponNumber c)). split.
    + destruct c as [cn ci]. cbn in *. subst. f_equal. lia.
    + apply list_elem_of_In, in_seq. lia.
Qed.

Lemma elem_of_pool_spec (c : Coupon.t) (ps : list Participant.t) (won : gset string) :
  c ∈ pool_spec ps won <->
  exists p, p ∈ ps /\ (lower_name p ∉ won) /\ Coupon.name c = Participant.name p
            /\ 1 <= Coupon.couponNumber c <= Z.of_nat (tickets (Participant.qty p)).
Proof.
  unfold pool_spec. rewrite list_elem_of_In, in_flat_map. split.
  - intros (p & Hp & Hc). apply list_elem_of_In, elem_of_eligible in Hp as [Hp Hel].
    apply list_elem_of_In, elem_of_coupons_of in Hc. exists p. tauto.
  - intros (p & Hp & Hel & Hc). exists p. split.
    + apply list_elem_of_In, elem_of_eligible. tauto.
    + apply list_elem_of_In, elem_of_coupons_of. tauto.
Qed.

End PoolMembers.

(** X1: a pool that is built holds exactly the coupons [(name, i)] of the
    participants that share no name, up to letter case, with a winner, for
    the integers [i] with [1 <= i <= count]: no winner has a coupon in it. *)
Theorem pool_members {T : JS.Text} (ps : list Participant.t) (ws : list Winner.t)
  (pool : list Coupon.t) :
  couponsPool ps (winnersSet ws) = Some pool ->
  forall c, c ∈ pool <->
    exists p, p ∈ ps
      /\ Coupon.name c = Participant.name p
      /\ (forall w, w ∈ ws ->
            JS.toLowerCase (Participant.name p) <> JS.toLowerCase (Winner.name w))
      /\ 1 <= Coupon.couponNumber c
      /\ JS.int_leb (Coupon.couponNumber c) (Participant.qty p) = true.
Proof.
  intros Hpool c. apply couponsPool_Some in Hpool as [-> Hfit].
  pose proof (eligible_finite _ _ Hfit) as Hfin.
  rewrite elem_of_pool_spec. split.
  - intros (p & Hp & Hel & Hn & Hlo & Hhi). exists p. repeat split; try assumption.
    + intros w Hw Heq. apply Hel. apply elem_of_winnersSet. exists w.
      rewrite lower_name_eq. auto.
    + apply int_leb_tickets; [now apply Hfin | exact Hlo | exact Hhi].
  - intros (p & Hp & Hn & Hel & Hlo & Hhi).
    assert (Hel' : lower_name p ∉ winnersSet ws).
    { intros Hin. apply elem_of_winnersSet in Hin as (w & Hw & Heq).
      rewrite lower_name_eq in Heq. now apply (Hel w). }
    exists p. repeat split; try assumption.
    apply int_leb_tickets; [now apply Hfin | exact Hlo | exact Hhi].
Qed.

Lemma pool_members_witness :
  let ps := [Participant.mk "Rafael" (JS.Number "3");
             Participant.mk "Juliana" (JS.Number "2")] in
  let ws := [Winner.mk "RAFAEL" 2 "P1" "t"] in
  Coupon.mk "Juliana" 2 ∈ [Coupon.mk "Juliana" 1; Coupon.mk "Juliana" 2]
  <-> exists p, p ∈ ps
      /\ Coupon.name (Coupon.mk "Juliana" 2) = Participant.name p
      /\ (forall w, w ∈ ws ->
            JS.toLowerCase (Participant.name p) <> JS.toLowerCase (Winner.name w))
      /\ 1 <= Coupon.couponNumber (Coupon.mk "Juliana" 2)
      /\ JS.int_leb (Coupon.couponNumber (Coupon.mk "Juliana" 2)) (Participant.qty p) = true.
Proof.
  cbv zeta. apply (pool_members _ [Winner.mk "RAFAEL" 2 "P1" "t"]).
  vm_compute. reflexivity.
Defined.

Section DrawEffects.

Context {T : JS.Text}.

(** What a [drawCore] that returns a winner has read and written. *)
Lemma drawCore_winner (seen s s' : AppState) (now : Clock.t) (rnd : JS.number)
  (notices : list Notice) (w : Winner.t) :
  drawCore seen now rnd s = Some (s', notices, Some w) ->
  exists pool pick prize rest,
    couponsPool (participants seen) (winnersSet (winners seen)) = Some pool
    /\ pick ∈ pool
    /\ remainingPrizes (prizes seen) (winners seen) = prize :: rest
    /\ w = Winner.mk (Coupon.name pick) (Coupon.couponNumber pick)
             (Prize.name prize) (Clock.iso now)
    /\ notices = []
    /\ s' = setHighlight (Some w)
              (setAudit
                 (fun prev =>
                    prev ++ [AuditRow.mk (Clock.localeDate now) (Clock.localeTime now)
                               (Winner.name w) (Winner.couponNumber w)
                               (qty_of (participants seen) (Winner.name w))
                               (Winner.prize w)])
                 (setWinners (fun prev => prev ++ [w]) s)).
Proof.
  unfold drawCore.
  destruct (couponsPool _ _) as [pool|]; [|discriminate].
  destruct pool as [|c pool]; [discriminate|].
  destruct (remainingPrizes _ _) as [|prize rest]; [discriminate|].
  destruct (pick_at _ _) as [pick|] eqn:Hpick; [|discriminate].
  intros [= <- <- <-]. exists (c :: pool), pick, prize, rest.
  repeat split. unfold pick_at in Hpick.
  destruct (random_index _ _) as [idx|]; [|discriminate].
  apply list_elem_of_lookup. eauto.
Qed.

Lemma remainingPrizes_snoc (prs : list Prize.t) (ws : list Winner.t) (w : Winner.t) :
  remainingPrizes prs (ws ++ [w])
  = List.filter (fun pr => negb (String.eqb (Winner.prize w) (Prize.name pr)))
      (remainingPrizes prs ws).
Proof.
  unfold remainingPrizes. induction prs as [|pr prs IH]; [reflexivity|].
  cbn [List.filter]. rewrite existsb_app. cbn [existsb]. rewrite orb_false_r.
  destruct (existsb _ ws); cbn [negb orb List.filter]; [exact IH|].
  destruct (String.eqb _ _); cbn [negb]; now rewrite IH.
Qed.

Lemma filter_shorter (A : Type) (f : A -> bool) (l : list A) (x : A) :
  x ∈ l -> f x = false -> (length (List.filter f l) < length l)%nat.
Proof.
  induction l as [|a l IH]; intros Hx Hf; [now apply elem_of_nil in Hx|].
  cbn. apply elem_of_cons in Hx as [<-|Hx].
  - rewrite Hf. pose proof (filter_length_le f l). lia.
  - specialize (IH Hx Hf). destruct (f a); cbn; lia.
Qed.

Lemma winnersSet_snoc (ws : list Winner.t) (w : Winner.t) :
  winnersSet (ws ++ [w]) = winnersSet ws ∪ {[ JS.toLowerCase (Winner.name w) ]}.
Proof.
  unfold winnersSet. rewrite map_app, list_to_set_app_L. cbn.
  now rewrite str_or_empty, union_empty_r_L.
Qed.

Lemma filter_coupons_of (f : Coupon.t -> bool) (name : string) (n : nat) (b : bool) :
  (forall i, f (Coupon.mk name i) = b) ->
  List.filter f (coupons_of name n) = if b then coupons_of name n else [].
Proof.
  intros Hf. unfold coupons_of. induction (seq 1 n) as [|i l IH].
  - now destruct b.
  - cbn. rewrite Hf, IH. now destruct b.
Qed.

(** One more name in the set of the winners removes the coupons under that
    name, up to letter case, and no other. *)
Lemma pool_spec_more (ps : list Participant.t) (won : gset string) (k : string) :
  pool_spec ps (won ∪ {[ k ]})
  = List.filter (fun c => negb (String.eqb (JS.toLowerCase (Coupon.name c)) k))
      (pool_spec ps won).
Proof.
  unfold pool_spec, eligible. induction ps as [|p ps IH]; [reflexivity|].
  cbn [List.filter]. destruct (decide (lower_name p ∈ won)) as [Hin|Hout].
  - rewrite (bool_decide_eq_true_2 (lower_name p ∈ won)) by exact Hin.
    rewrite (bool_decide_eq_true_2 (lower_name p ∈ won ∪ {[ k ]}))
      by (apply elem_of_union_l; exact Hin).
    exact IH.
  - rewrite (bool_decide_eq_false_2 (lower_name p ∈ won)) by exact Hout.
    cbn [negb flat_map]. rewrite List.filter_app, <- IH.
    destruct (String.eqb_spec (lower_name p) k) as [E|E].
    + rewrite bool_decide_eq_true_2
        by (apply elem_of_union_r, elem_of_singleton; exact E).
      cbn [negb].
      rewrite (filter_coupons_of _ _ _ false); [reflexivity|].
      intros i. cbn. rewrite <- lower_name_eq, E, String.eqb_refl. reflexivity.
    + rewrite bool_decide_eq_false_2
        by (rewrite elem_of_union, elem_of_singleton; tauto).
      cbn [negb flat_map].
      rewrite (filter_coupons_of _ _ _ true); [reflexivity|].
      intros i. cbn. rewrite <- lower_name_eq.
      apply negb_true_iff. now apply String.eqb_neq.
Qed.

Lemma eligible_more (ps : list Participant.t) (won : gset string) (k : string) :
  eligible (won ∪ {[ k ]}) ps
  = List.filter (fun p => negb (String.eqb (lower_name p) k)) (eligible won ps).
Proof.
  induction ps as [|p ps IH]; [reflexivity|].
  rewrite !eligible_cons. destruct (decide (lower_name p ∈ won)) as [Hin|Hout].
  - rewrite (bool_decide_eq_true_2 (lower_name p ∈ won)) by exact Hin.
    rewrite (bool_decide_eq_true_2 (lower_name p ∈ won ∪ {[ k ]}))
      by (apply elem_of_union_l; exact Hin).
    exact IH.
  - rewrite (bool_decide_eq_false_2 (lower_name p ∈ won)) by exact Hout.
    cbn [List.filter]. destruct (String.eqb_spec (lower_name p) k) as [E|E]; cbn [negb].
    + rewrite bool_decide_eq_true_2
        by (apply elem_of_union_r, elem_of_singleton; exact E).
      exact IH.
    + rewrite bool_decide_eq_false_2
        by (rewrite elem_of_union, elem_of_singleton; tauto).
      now rewrite IH.
Qed.

Lemma couponsPool_more (ps : list Participant.t) (ws : list Winner.t) (w : Winner.t)
  (pool : list Coupon.t) :
  couponsPool ps (winnersSet ws) = Some pool ->
  couponsPool ps (winnersSet (ws ++ [w]))
  = Some (List.filter
            (fun c => negb (String.eqb (JS.toLowerCase (Coupon.name c))
                              (JS.toLowerCase (Winner.name w))))
            pool).
Proof.
  intros H. apply couponsPool_Some in H as [-> Hfit].
  rewrite winnersSet_snoc, <- pool_spec_more.
  apply couponsPool_fits. rewrite eligible_more. now apply fits_filter.
Qed.

End DrawEffects.

(** X2: the winner that [drawCore] returns holds a ticket: the name is that
    of a participant of the render read who shares no name, up to letter
    case, with an earlier winner, and the coupon number [i] is an integer
    with [1 <= i <= count].  The winner is appended to the ledger and
    highlighted, and one audit row with the same name, coupon and prize, and
    the date and time of the draw, is appended to the audit log; the
    participants, the prizes and the timers are untouched. *)
Theorem winner_holds_ticket {T : JS.Text} (seen s s' : AppState) (now : Clock.t) (rnd : JS.number)
  (notices : list Notice) (w : Winner.t) :
  drawCore seen now rnd s = Some (s', notices, Some w) ->
  (exists p, p ∈ participants seen
     /\ Winner.name w = Participant.name p
     /\ (forall w', w' ∈ winners seen ->
           JS.toLowerCase (Participant.name p) <> JS.toLowerCase (Winner.name w'))
     /\ 1 <= Winner.couponNumber w
     /\ JS.int_leb (Winner.couponNumber w) (Participant.qty p) = true)
  /\ Winner.ts w = Clock.iso now
  /\ winners s' = winners s ++ [w]
  /\ audit s'
     = audit s ++ [AuditRow.mk (Clock.localeDate now) (Clock.localeTime now)
                     (Winner.name w) (Winner.couponNumber w)
                     (qty_of (participants seen) (Winner.name w)) (Winner.prize w)]
  /\ highlight s' = Some w
  /\ participants s' = participants s /\ prizes s' = prizes s
  /\ countdown s' = countdown s /\ rolling s' = rolling s.
Proof.
  intros H. apply drawCore_winner in H
    as (pool & pick & prize & rest & Hpool & Hpick & _ & -> & _ & ->).
  split; [|now repeat split].
  apply couponsPool_Some in Hpool as [-> Hfit].
  apply elem_of_pool_spec in Hpick as (p & Hp & Hel & Hn & Hlo & Hhi).
  exists p. cbn. repeat split; try assumption.
  - intros w' Hw' Heq. apply Hel. apply elem_of_winnersSet. exists w'.
    rewrite lower_name_eq. auto.
  - apply int_leb_tickets; [now apply (eligible_finite _ _ Hfit) | exact Hlo | exact Hhi].
Qed.

Lemma winner_holds_ticket_witness :
  let s := addPrize "P1" (fst (addParticipant "Ana" "2" initial)) in
  let clock := Clock.mk "2024-01-01T12:00:00.000Z" "01/01/2024" "12:00:00" in
  exists s' w,
    drawCore s clock (JS.of_ratio false 3 4) s = Some (s', [], Some w)
    /\ w = Winner.mk "Ana" 2 "P1" "2024-01-01T12:00:00.000Z"
    /\ winners s' = winners s ++ [w].
Proof.
  intros s clock.
  destruct (drawCore s clock (JS.of_ratio false 3 4) s) as [[[s' ns] [w|]]|] eqn:Hd;
    try (vm_compute in Hd; discriminate).
  assert (Hns : ns = []) by (vm_compute in Hd; now injection Hd as _ <- _).
  subst ns.
  destruct (winner_holds_ticket _ _ _ _ _ _ _ Hd) as (_ & _ & Hw & _).
  exists s', w. split; [reflexivity|]. split; [|exact Hw].
  vm_compute in Hd. now injection Hd as _ <-.
Defined.

(** X3: while the application is not busy, with a coupon in the pool, a
    prize left and a value of [Math.random()], a double [x] with
    [0 <= x < 1], the button of the immediate draw records a winner: the
    product [x * length], rounded to a double and then down, is an index of
    the pool, and [draw] returns, without a notice, with the ledger one winner
    longer; that winner has the first remaining prize. *)
Theorem draw_succeeds {T : JS.Text} (s : AppState) (now : Clock.t) (rnd : JS.number)
  (c : Coupon.t) (pool : list Coupon.t) (prize : Prize.t) (rest : list Prize.t) :
  busy s = false ->
  couponsPool (participants s) (winnersSet (winners s)) = Some (c :: pool) ->
  remainingPrizes (prizes s) (winners s) = prize :: rest ->
  unit_random rnd ->
  exists s' w,
    draw s now rnd s = Some (s', [], Some w)
    /\ Winner.prize w = Prize.name prize
    /\ winners s' = winners s ++ [w].
Proof.
  intros Hb Hpool Hrem Hrnd. unfold draw. rewrite Hb.
  destruct (drawCore_awards s s now rnd c pool prize rest Hpool Hrem Hrnd)
    as (s' & w & Hd & Hw).
  exists s', w. split; [exact Hd|]. split; [exact Hw|].
  pose proof (drawCore_winner _ _ _ _ _ _ _ Hd) as (? & ? & ? & ? & _ & _ & _ & _ & _ & Hs).
  rewrite Hs. reflexivity.
Qed.

Lemma draw_succeeds_witness :
  let s := addPrize "P1" (fst (addParticipant "Ana" "2" initial)) in
  exists s' w,
    draw s (Clock.mk "t" "d" "h") (JS.of_ratio false 1 4) s = Some (s', [], Some w)
    /\ Winner.prize w = "P1"
    /\ winners s' = [w].
Proof.
  intros s.
  apply (draw_succeeds s (Clock.mk "t" "d" "h") (JS.of_ratio false 1 4)
           (Coupon.mk "Ana" 1) [Coupon.mk "Ana" 2] (Prize.mk "P1" 1) []);
    try (vm_compute; reflexivity).
  repeat split; vm_compute; reflexivity.
Defined.

(** X4: an awarded prize is no longer to be won: after a draw on the
    present state returns a winner, the remaining prizes are the former
    remaining prizes without those that have the name of the awarded one, all
    of them if several have it, and they are fewer than before. *)
Theorem award_consumes_prize {T : JS.Text} (s s' : AppState) (now : Clock.t) (rnd : JS.number)
  (notices : list Notice) (w : Winner.t) :
  drawCore s now rnd s = Some (s', notices, Some w) ->
  remainingPrizes (prizes s') (winners s')
  = List.filter (fun pr => negb (String.eqb (Winner.prize w) (Prize.name pr)))
      (remainingPrizes (prizes s) (winners s))
  /\ (length (remainingPrizes (prizes s') (winners s'))
      < length (remainingPrizes (prizes s) (winners s)))%nat.
Proof.
  intros H. apply drawCore_winner in H
    as (pool & pick & prize & rest & _ & _ & Hrem & Hw & _ & ->).
  cbn [prizes winners setHighlight setAudit setWinners].
  rewrite remainingPrizes_snoc. split; [reflexivity|].
  apply (filter_shorter _ _ _ prize).
  - rewrite Hrem. left.
  - rewrite Hw. cbn. now rewrite String.eqb_refl.
Qed.

Lemma award_consumes_prize_witness :
  let s := addPrize "P1" (addPrize "P2" (addPrize "P1"
             (fst (addParticipant "Ana" "2" initial)))) in
  exists s' w,
    drawCore s (Clock.mk "t" "d" "h") (JS.of_ratio false 1 4) s = Some (s', [], Some w)
    /\ map Prize.name (remainingPrizes (prizes s) (winners s)) = ["P1"; "P2"; "P1"]
    /\ map Prize.name (remainingPrizes (prizes s') (winners s')) = ["P2"].
Proof.
  intros s.
  destruct (drawCore s (Clock.mk "t" "d" "h") (JS.of_ratio false 1 4) s) as [[[s' ns] [w|]]|] eqn:Hd;
    try (vm_compute in Hd; discriminate).
  destruct (award_consumes_prize _ _ _ _ _ _ Hd) as [Hrem _].
  exists s', w. rewrite Hrem. vm_compute in Hd. injection Hd as <- <- <-.
  repeat split; vm_compute; reflexivity.
Defined.

(** X5: a winner leaves the pool with every ticket: after a draw on the
    present state returns a winner, the pool of the next state is the former
    pool without the coupons whose name is the name of the winner up to
    letter case, and it is shorter than before. *)
Theorem award_retires_winner {T : JS.Text} (s s' : AppState) (now : Clock.t) (rnd : JS.number)
  (notices : list Notice) (w : Winner.t) :
  drawCore s now rnd s = Some (s', notices, Some w) ->
  exists pool,
    couponsPool (participants s) (winnersSet (winners s)) = Some pool
    /\ couponsPool (participants s') (winnersSet (winners s'))
       = Some (List.filter
                 (fun c => negb (String.eqb (JS.toLowerCase (Coupon.name c))
                                   (JS.toLowerCase (Winner.name w))))
                 pool)
    /\ (forall c, c ∈ pool -> Coupon.name c = Winner.name w ->
                  forall pool', couponsPool (participants s') (winnersSet (winners s'))
                                = Some pool' -> c ∉ pool').
Proof.
  intros H. apply drawCore_winner in H
    as (pool & pick & prize & rest & Hpool & Hpick & _ & Hw & _ & ->).
  exists pool. split; [exact Hpool|].
  cbn [participants winners setHighlight setAudit setWinners].
  rewrite (couponsPool_more _ _ w pool Hpool). split; [reflexivity|].
  intros c Hc Hn pool' [= <-] Hin.
  apply list_elem_of_In, filter_In in Hin as [_ Hin].
  rewrite Hn, String.eqb_refl in Hin. discriminate.
Qed.

Lemma award_retires_winner_witness :
  let s := addPrize "P1" (fst (addParticipant "Bia" "1" (fst (addParticipant "Ana" "2" initial)))) in
  exists s' w,
    drawCore s (Clock.mk "t" "d" "h") (JS.of_ratio false 1 4) s = Some (s', [], Some w)
    /\ Winner.name w = "Ana"
    /\ couponsPool (participants s') (winnersSet (winners s')) = Some [Coupon.mk "Bia" 1].
Proof.
  intros s.
  destruct (drawCore s (Clock.mk "t" "d" "h") (JS.of_ratio false 1 4) s) as [[[s' ns] [w|]]|] eqn:Hd;
    try (vm_compute in Hd; discriminate).
  destruct (award_retires_winner _ _ _ _ _ _ Hd) as (pool & Hpool & Hnext & _).
  exists s', w. rewrite Hnext.
  vm_compute in Hpool. injection Hpool as <-.
  vm_compute in Hd. injection Hd as <- <- <-.
  repeat split; vm_compute; reflexivity.
Defined.


(** ** Resets and removals *)

Section Resets.

Context {T : JS.Text}.

Lemma eligible_empty (ps : list Participant.t) : eligible ∅ ps = ps.
Proof.
  unfold eligible. apply filter_all. intros p _.
  apply negb_true_iff, bool_decide_eq_false. apply not_elem_of_empty.
Qed.

Lemma remainingPrizes_nil (prs : list Prize.t) : remainingPrizes prs [] = prs.
Proof. unfold remainingPrizes. apply filter_all. reflexivity. Qed.

Lemma busy_false (s : AppState) :
  busy s = false <-> rolling s = false /\ countdown s = O.
Proof.
  unfold busy. rewrite orb_false_iff, negb_false_iff, Nat.eqb_eq. tauto.
Qed.

End Resets.

(** X6: [resetWinners] reopens the raffle: every prize of the registry
    is to be won again, in the order of the registry, and every participant
    is back in the pool with the tickets [1 .. count].  The pool is built
    when no count is [Infinity] and the counts, rounded down, add up to at
    most [2^32 - 1]; otherwise none is built. *)
Theorem resetWinners_reopens {T : JS.Text} (s : AppState) :
  let s' := resetWinners s in
  remainingPrizes (prizes s') (winners s') = prizes s
  /\ (fits (participants s) ->
      couponsPool (participants s') (winnersSet (winners s'))
      = Some (flat_map
                (fun p => coupons_of (Participant.name p) (tickets (Participant.qty p)))
                (participants s)))
  /\ (~ fits (participants s) ->
      couponsPool (participants s') (winnersSet (winners s')) = None).
Proof.
  cbv zeta. cbn [resetWinners prizes winners participants setHighlight setWinners].
  split; [apply remainingPrizes_nil|].
  change (winnersSet []) with (∅ : gset string).
  split; intros Hfit.
  - rewrite couponsPool_fits by now rewrite eligible_empty.
    unfold pool_spec. now rewrite eligible_empty.
  - apply couponsPool_None. now rewrite eligible_empty.
Qed.

Lemma resetWinners_reopens_witness :
  let s := setWinners (fun _ => [Winner.mk "Ana" 1 "P1" "t"])
             (addPrize "P1" (fst (addParticipant "Ana" "2" initial))) in
  couponsPool (participants s) (winnersSet (winners s)) = Some []
  /\ couponsPool (participants (resetWinners s)) (winnersSet (winners (resetWinners s)))
     = Some [Coupon.mk "Ana" 1; Coupon.mk "Ana" 2].
Proof.
  intros s. split; [vm_compute; reflexivity|].
  refine (eq_trans (proj1 (proj2 (resetWinners_reopens s)) _) _);
    [|vm_compute; reflexivity].
  split.
  - apply Forall_forall. intros p Hp. apply list_elem_of_In in Hp. vm_compute in Hp.
    destruct Hp as [<-|[]]. discriminate.
  - vm_compute. discriminate.
Defined.

(** X7: in a reachable state in which the application is not busy, a
    confirmed [hardReset] leads back to the state of the first load. *)
Theorem hardReset_restarts {T : JS.Text} (sys : System) :
  reachable sys -> busy (app sys) = false ->
  fire (HardReset true) sys = Some start.
Proof.
  intros Hreach Hb. apply reachable_invariant in Hreach.
  pose proof (invariant_idle sys Hreach Hb) as Hidle.
  cbn [fire]. rewrite Hb. apply busy_false in Hb as [Hr Hc].
  destruct sys as [[ps prs ws au h c r] fl]. cbn in *. subst. reflexivity.
Qed.

Lemma hardReset_restarts_witness :
  let evs := [AddParticipant "Ana" "2"; AddPrize "P1";
              Draw (Clock.mk "t" "d" "h") (JS.of_ratio false 1 4)] in
  exists sys,
    run evs start = Some sys
    /\ length (winners (app sys)) = 1%nat
    /\ fire (HardReset true) sys = Some start.
Proof.
  intros evs.
  destruct (run evs start) as [sys|] eqn:Hrun; [|vm_compute in Hrun; discriminate].
  assert (Hreach : reachable sys) by (exists evs; exact Hrun).
  exists sys. split; [reflexivity|].
  split; [vm_compute in Hrun; injection Hrun as <-; reflexivity|].
  apply (hardReset_restarts sys Hreach).
  vm_compute in Hrun. injection Hrun as <-. reflexivity.
Defined.

(** X8: removing the prize that was just registered undoes the
    registration: for a prize list numbered [1 .. N] that has no prize of
    that name, [removePrize] of the trimmed name after [addPrize] gives back
    the state. *)
Theorem removePrize_undoes_addPrize {T : JS.Text} (nameInput : string) (s : AppState) :
  well_numbered (prizes s) ->
  (forall pr, pr ∈ prizes s -> Prize.name pr <> JS.trim nameInput) ->
  removePrize (JS.trim nameInput) (addPrize nameInput s) = s.
Proof.
  intros Hwn Hfresh. unfold addPrize. rewrite str_or_empty.
  assert (Hkeep : List.filter
                    (fun p => negb (String.eqb (Prize.name p) (JS.trim nameInput)))
                    (prizes s) = prizes s).
  { apply filter_all. intros pr Hpr. apply negb_true_iff, String.eqb_neq. auto. }
  destruct (JS.is_empty _).
  - destruct s as [ps prs ws au h c r]. unfold removePrize, setPrizes. cbn in *.
    f_equal. rewrite Hkeep. now apply (imap_renumber_id prs 0).
  - destruct s as [ps prs ws au h c r]. unfold removePrize, setPrizes. cbn in *.
    f_equal. rewrite List.filter_app, Hkeep. cbn. rewrite String.eqb_refl. cbn.
    rewrite app_nil_r. now apply (imap_renumber_id prs 0).
Qed.

Lemma removePrize_undoes_addPrize_witness :
  let s := addPrize "TV" (addPrize "Fone" initial) in
  removePrize "Caixa JBL" (addPrize " Caixa JBL " s) = s.
Proof.
  intros s. change "Caixa JBL" with (JS.trim " Caixa JBL ").
  apply (removePrize_undoes_addPrize " Caixa JBL " s).
  - vm_compute. reflexivity.
  - intros pr Hpr. apply list_elem_of_In in Hpr. vm_compute in Hpr.
    destruct Hpr as [<-|[<-|[]]]; vm_compute; discriminate.
Defined.

(** ** More invariants of the transition system *)

Section DataInvariant.

Context {T : JS.Text}.

Lemma valid_entry_ok (name : string) (qty : JS.number) :
  invalid_entry name qty = false -> participant_ok (Participant.mk name qty).
Proof.
  unfold invalid_entry, participant_ok. intros H.
  apply orb_false_iff in H as [H H3]. apply orb_false_iff in H as [H1 H2].
  apply negb_false_iff in H2. cbn. split.
  - intros ->. discriminate.
  - destruct qty as [[|]|[|]| |[|] m e]; cbn in *; congruence.
Qed.

Lemma addParticipant_ok (n q : string) (s : AppState) :
  Forall participant_ok (participants s) ->
  Forall participant_ok (participants (fst (addParticipant n q s))).
Proof.
  intros H. unfold addParticipant.
  destruct (invalid_entry _ _) eqn:E; [exact H|].
  destruct (find _ _); [exact H|]. cbn.
  apply Forall_app. split; [exact H|]. apply Forall_singleton.
  now apply valid_entry_ok.
Qed.

Lemma import_line_ok (won : gset string) (line : string)
  (toAdd : list Participant.t) (skipped : nat) :
  Forall participant_ok toAdd ->
  Forall participant_ok (fst (import_line won (toAdd, skipped) line)).
Proof.
  intros H. unfold import_line.
  destruct (invalid_entry _ _) eqn:E; [exact H|].
  destruct (_ || _); [exact H|]. cbn [fst].
  apply Forall_app. split; [exact H|]. apply Forall_singleton.
  now apply valid_entry_ok.
Qed.

Lemma import_lines_ok (won : gset string) (lines : list string) :
  forall acc : list Participant.t * nat,
    Forall participant_ok (fst acc) ->
    Forall participant_ok (fst (fold_left (import_line won) lines acc)).
Proof.
  induction lines as [|l lines IH]; intros [toAdd skipped] H; [exact H|].
  cbn [fold_left]. apply IH.
  destruct (import_line won (toAdd, skipped) l) as [toAdd' skipped'] eqn:E.
  pose proof (import_line_ok won l toAdd skipped H) as H'. now rewrite E in H'.
Qed.

Lemma bulkImport_ok (raw : string) (s : AppState) :
  Forall participant_ok (participants s) ->
  Forall participant_ok (participants (fst (bulkImport s raw s))).
Proof.
  intros H. unfold bulkImport.
  destruct (trimmed_nonempty _) as [|l lines]; [exact H|].
  pose proof (import_lines_ok (list_to_set (map lower_name (participants s)))
                (l :: lines) ([], O) (Forall_nil_2 _)) as H'.
  destruct (fold_left _ _ _) as [toAdd skipped]. cbn in *.
  apply Forall_app. auto.
Qed.

Lemma editParticipantQty_ok (name newQty : string) (s : AppState) :
  Forall participant_ok (participants s) ->
  Forall participant_ok (participants (editParticipantQty name newQty s)).
Proof.
  unfold editParticipantQty. cbn. intros H. apply Forall_fmap.
  eapply Forall_impl; [exact H|]. intros p [Hn Hq]. cbn.
  destruct (String.eqb _ _); [|now split].
  split; [exact Hn|]. apply clamp_qty_nonneg.
Qed.

Lemma Forall_List_filter (A : Type) (P : A -> Prop) (f : A -> bool) (l : list A) :
  Forall P l -> Forall P (List.filter f l).
Proof.
  induction 1 as [|x l Hx Hl IH]; cbn; [constructor|].
  destruct (f x); [now constructor | exact IH].
Qed.

Lemma addPrize_ok (n : string) (s : AppState) :
  Forall prize_ok (prizes s) -> Forall prize_ok (prizes (addPrize n s)).
Proof.
  intros H. unfold addPrize. destruct (JS.is_empty _) eqn:E; [exact H|]. cbn.
  apply Forall_app. split; [exact H|]. apply Forall_singleton.
  unfold prize_ok. cbn. intros Hn. rewrite Hn in E. discriminate.
Qed.

Lemma renumber_ok (l : list Prize.t) :
  Forall prize_ok l ->
  forall f : nat -> Z,
    Forall prize_ok (imap (fun i p => Prize.mk (Prize.name p) (f i)) l).
Proof.
  induction 1 as [|x l Hx Hl IH]; intros f; [constructor|].
  rewrite imap_cons. constructor; [exact Hx | apply (IH (f ∘ S))].
Qed.

Lemma removePrize_ok (n : string) (s : AppState) :
  Forall prize_ok (prizes s) -> Forall prize_ok (prizes (removePrize n s)).
Proof.
  intros H. unfold removePrize. cbn.
  apply (renumber_ok _ (Forall_List_filter _ _ _ _ H) (fun i => Z.of_nat i + 1)).
Qed.

(** A returning [drawCore] that reads the ledger of the present state keeps
    the names of the winners distinct up to letter case. *)
Lemma drawCore_winner_names (seen s s' : AppState) (now : Clock.t) (rnd : JS.number)
  (notices : list Notice) (w : option Winner.t) :
  drawCore seen now rnd s = Some (s', notices, w) ->
  winners seen = winners s ->
  winner_names_unique (winners s) ->
  winner_names_unique (winners s').
Proof.
  intros Hd Hseen Hnd. destruct w as [w|].
  - apply drawCore_winner in Hd
      as (pool & pick & prize & rest & Hpool & Hpick & _ & -> & _ & ->).
    cbn [winners setHighlight setAudit setWinners].
    unfold winner_names_unique in *. rewrite map_app. apply NoDup_app.
    split; [exact Hnd|]. split; [|apply NoDup_singleton].
    intros x Hx Hx'. apply list_elem_of_singleton in Hx'. cbn in Hx'. subst x.
    apply list_elem_of_fmap in Hx as (w' & Heq & Hw').
    apply (couponsPool_Some _ _ _) in Hpool as [-> _].
    apply elem_of_pool_spec in Hpick as (p & _ & Hel & Hn & _).
    apply Hel. apply elem_of_winnersSet. exists w'.
    rewrite Hseen, lower_name_eq, <- Hn. auto.
  - apply drawCore_cases in Hd as [(-> & _)|Hd]; [exact Hnd|].
    destruct Hd as (? & ? & ? & ? & _ & _ & _ & [=] & _).
Qed.

Lemma fire_data_ok (ev : Event) (sys sys' : System) :
  invariant sys -> data_ok (app sys) -> fire ev sys = Some sys' ->
  data_ok (app sys').
Proof.
  intros Hinv (Hps & Hprs & Hws) Hfire. unfold data_ok.
  destruct ev; cbn [fire] in Hfire.
  - injection Hfire as <-. cbn [app].
    destruct (addParticipant_frame nameInput qtyInput (app sys)) as (-> & -> & _).
    auto using addParticipant_ok.
  - injection Hfire as <-. cbn [app]. split; [|now split].
    now apply editParticipantQty_ok.
  - injection Hfire as <-. cbn [app]. split; [|now split].
    now apply Forall_List_filter.
  - injection Hfire as <-. cbn [app].
    destruct (bulkImport_frame raw (app sys)) as (-> & -> & _).
    auto using bulkImport_ok.
  - injection Hfire as <-. cbn [app].
    destruct (addPrize_frame nameInput (app sys)) as (-> & -> & _).
    auto using addPrize_ok.
  - injection Hfire as <-. cbn [app]. split; [exact Hps|]. split; [|exact Hws].
    now apply removePrize_ok.
  - destruct (busy _); [discriminate|]. injection Hfire as <-. cbn.
    repeat split; try assumption. apply NoDup_nil_2.
  - destruct (busy _); [discriminate|]. injection Hfire as <-.
    destruct confirmed; cbn; repeat split; try assumption;
      try apply Forall_nil_2; apply NoDup_nil_2.
  - destruct (busy _); [discriminate|]. injection Hfire as <-. cbn. auto.
  - injection Hfire as <-. cbn. auto.
  - destruct (draw _ _ _ _) as [[[s' ns] w]|] eqn:Hd; [|discriminate].
    injection Hfire as <-. cbn [app]. unfold draw in Hd.
    destruct (busy (app sys)); [injection Hd as <- _ _; auto|].
    pose proof (drawCore_winner_names _ _ _ _ _ _ _ Hd eq_refl Hws) as Hws'.
    destruct Hinv as (Hnd & _).
    destruct (drawCore_ledger _ _ _ _ _ _ _ Hd eq_refl Hnd) as (_ & -> & -> & _).
    auto.
  - destruct (drawWithCountdown_enter _ _ _ _) as [[[[s' ns] w] started]|] eqn:Hd;
      [|discriminate].
    injection Hfire as <-. cbn [app]. unfold drawWithCountdown_enter in Hd.
    destruct (busy (app sys)); [injection Hd as <- _ _ _; auto|].
    destruct (couponsPool _ _); [|discriminate].
    destruct (_ || _); [|injection Hd as <- _ _ _; cbn; auto].
    destruct (drawCore _ _ _ _) as [[[s1 ns1] w1]|] eqn:Hcore; [|discriminate].
    injection Hd as <- _ _ _.
    pose proof (drawCore_winner_names _ _ _ _ _ _ _ Hcore eq_refl Hws) as Hws'.
    destruct Hinv as (Hnd & _).
    destruct (drawCore_ledger _ _ _ _ _ _ _ Hcore eq_refl Hnd) as (_ & -> & -> & _).
    auto.
  - destruct (inflight sys); [|discriminate].
    destruct (rolling _); [discriminate|].
    destruct (countdown _) as [|[|n]]; [discriminate| |];
      injection Hfire as <-; cbn; auto.
  - destruct Hinv as (Hnd & _ & _ & Hfl).
    destruct (inflight sys) as [seen|]; [|discriminate].
    destruct (rolling _); [|discriminate].
    destruct (drawCore _ _ _ _) as [[[s' ns] w]|] eqn:Hcore; [|discriminate].
    injection Hfire as <-. cbn [app]. destruct Hfl as (_ & Hw & _).
    pose proof (drawCore_winner_names _ _ _ _ _ _ _ Hcore Hw Hws) as Hws'.
    destruct (drawCore_ledger _ _ _ _ _ _ _ Hcore Hw Hnd) as (_ & -> & -> & _).
    auto.
Qed.

Lemma run_data_ok (evs : list Event) :
  forall sys sys',
    invariant sys -> data_ok (app sys) -> run evs sys = Some sys' ->
    data_ok (app sys').
Proof.
  induction evs as [|ev evs IH]; intros sys sys' Hinv Hok Hrun; cbn in Hrun.
  - now injection Hrun as <-.
  - destruct (fire ev sys) as [sys1|] eqn:Hfire; [|discriminate].
    apply (IH sys1); [eapply fire_invariant | eapply fire_data_ok | ]; eassumption.
Qed.

Lemma reachable_data_ok (sys : System) : reachable sys -> data_ok (app sys).
Proof.
  intros [evs Hrun]. apply (run_data_ok evs start); [apply invariant_start| |exact Hrun].
  repeat split; try apply Forall_nil_2. apply NoDup_nil_2.
Qed.

End DataInvariant.

(** X9: in every reachable state, every participant has a name that is not
    empty and a count that is [>= 0] (never [NaN], never negative), and no
    two participants have the same name up to letter case, whatever the
    registrations, imports, edits, removals, draws and resets before. *)
Theorem participants_stay_valid {T : JS.Text} (sys : System) :
  reachable sys ->
  unique_names (participants (app sys))
  /\ forall p, p ∈ participants (app sys) ->
       Participant.name p <> ""
       /\ JS.leb JS.pzero (Participant.qty p) = true.
Proof.
  intros Hreach. split.
  - now apply reachable_invariant in Hreach as (_ & _ & Hun & _).
  - apply reachable_data_ok in Hreach as (Hps & _). intros p Hp.
    rewrite Forall_forall in Hps. now apply Hps.
Qed.

Lemma participants_stay_valid_witness :
  let evs := [AddParticipant "Ana" "2"; BulkImport "ANA,3;Bia,4"; BulkImport "bia;1";
              EditParticipantQty "Ana" "-7"] in
  exists sys,
    run evs start = Some sys
    /\ participants (app sys)
       = [Participant.mk "Ana" JS.pzero; Participant.mk "bia" (JS.of_Z 1)]
    /\ unique_names (participants (app sys)).
Proof.
  intros evs.
  destruct (run evs start) as [sys|] eqn:Hrun; [|vm_compute in Hrun; discriminate].
  assert (Hreach : reachable sys) by (exists evs; exact Hrun).
  destruct (participants_stay_valid sys Hreach) as [Hun _].
  exists sys. split; [reflexivity|]. split; [|exact Hun].
  vm_compute in Hrun. injection Hrun as <-. reflexivity.
Defined.

(** X10: in every reachable state the prizes are numbered [1 .. N] in the
    order of the list, and every prize has a name that is not empty. *)
Theorem prizes_stay_numbered {T : JS.Text} (sys : System) :
  reachable sys ->
  map Prize.order (prizes (app sys))
  = map (fun i => Z.of_nat i + 1) (seq 0 (length (prizes (app sys))))
  /\ forall pr, pr ∈ prizes (app sys) -> Prize.name pr <> "".
Proof.
  intros Hreach. split.
  - now apply reachable_invariant in Hreach as (_ & Hwn & _).
  - apply reachable_data_ok in Hreach as (_ & Hprs & _). intros pr Hpr.
    rewrite Forall_forall in Hprs. now apply Hprs.
Qed.

Lemma prizes_stay_numbered_witness :
  let evs := [AddPrize "TV"; AddPrize "  "; AddPrize "Fone"; AddPrize "Caixa JBL";
              RemovePrize "TV"] in
  exists sys,
    run evs start = Some sys
    /\ prizes (app sys) = [Prize.mk "Fone" 1; Prize.mk "Caixa JBL" 2]
    /\ map Prize.order (prizes (app sys))
       = map (fun i => Z.of_nat i + 1) (seq 0 (length (prizes (app sys)))).
Proof.
  intros evs.
  destruct (run evs start) as [sys|] eqn:Hrun; [|vm_compute in Hrun; discriminate].
  assert (Hreach : reachable sys) by (exists evs; exact Hrun).
  destruct (prizes_stay_numbered sys Hreach) as [Hwn _].
  exists sys. split; [reflexivity|]. split; [|exact Hwn].
  vm_compute in Hrun. injection Hrun as <-. reflexivity.
Defined.

(** X11: nobody wins twice: in every reachable state the names of the
    winners in the ledger are pairwise distinct up to letter case. *)
Theorem no_double_winner {T : JS.Text} (sys : System) :
  reachable sys ->
  NoDup (map (fun w => JS.toLowerCase (Winner.name w)) (winners (app sys))).
Proof. intros Hreach. now apply reachable_data_ok in Hreach as (_ & _ & Hws). Qed.

Lemma no_double_winner_witness :
  let clock := Clock.mk "t" "d" "h" in
  let evs := [AddParticipant "Ana" "2"; AddParticipant "Bia" "1";
              AddPrize "P1"; AddPrize "P2"; AddPrize "P3";
              Draw clock JS.pzero; Draw clock JS.pzero; Draw clock JS.pzero] in
  exists sys,
    run evs start = Some sys
    /\ map Winner.name (winners (app sys)) = ["Ana"; "Bia"]
    /\ NoDup (map (fun w => JS.toLowerCase (Winner.name w)) (winners (app sys))).
Proof.
  intros clock evs.
  destruct (run evs start) as [sys|] eqn:Hrun; [|vm_compute in Hrun; discriminate].
  assert (Hreach : reachable sys) by (exists evs; exact Hrun).
  pose proof (no_double_winner sys Hreach) as Hnd.
  exists sys. split; [reflexivity|]. split; [|exact Hnd].
  vm_compute in Hrun. injection Hrun as <-. reflexivity.
Defined.

Section Ledger.

Context {T : JS.Text}.

(** A returning [drawCore] changes nothing, or appends one winner and one
    audit row. *)
Lemma drawCore_appends (seen s s' : AppState) (now : Clock.t) (rnd : JS.number)
  (notices : list Notice) (w : option Winner.t) :
  drawCore seen now rnd s = Some (s', notices, w) ->
  (s' = s /\ w = None)
  \/ (exists w0 row, w = Some w0 /\ winners s' = winners s ++ [w0]
                     /\ audit s' = audit s ++ [row]).
Proof.
  intros Hd. destruct w as [w|].
  - right. apply drawCore_winner in Hd as (? & ? & ? & ? & _ & _ & _ & _ & _ & ->).
    eexists. eexists. repeat split.
  - left. apply drawCore_cases in Hd as [(-> & _)|Hd]; [auto|].
    destruct Hd as (? & ? & ? & ? & _ & _ & _ & [=] & _).
Qed.

Lemma ledger_step (ev : Event) (sys sys' : System) :
  fire ev sys = Some sys' ->
  (resets_ledger ev = false ->
   winners (app sys') = winners (app sys)
   \/ exists w, winners (app sys') = winners (app sys) ++ [w])
  /\ (resets_audit ev = false ->
      audit (app sys') = audit (app sys)
      \/ exists row, audit (app sys') = audit (app sys) ++ [row]).
Proof.
  intros Hfire. destruct ev; cbn [fire] in Hfire;
    (split; intros Hev; try discriminate Hev; clear Hev).
  1-2: injection Hfire as <-; cbn [app]; unfold addParticipant;
    destruct (invalid_entry _ _); [auto|]; destruct (find _ _); cbn; auto.
  1-4: injection Hfire as <-; cbn; auto.
  1-2: injection Hfire as <-; cbn [app]; unfold bulkImport;
    destruct (trimmed_nonempty _); [auto|]; destruct (fold_left _ _ _); cbn; auto.
  1-2: injection Hfire as <-; cbn [app]; unfold addPrize;
    destruct (JS.is_empty _); cbn; auto.
  1-2: injection Hfire as <-; cbn; auto.
  1-2: destruct (busy _); [discriminate|]; injection Hfire as <-; cbn; auto.
  1-2: injection Hfire as <-; cbn; auto.
  1-2: destruct (draw _ _ _ _) as [[[s' ns] w]|] eqn:Hd; [|discriminate];
    injection Hfire as <-; cbn [app]; unfold draw in Hd;
    (destruct (busy (app sys)); [injection Hd as <- _ _; auto|]);
    apply drawCore_appends in Hd as [(-> & _)|(w0 & row & _ & Hw & Ha)];
    rewrite ?Hw, ?Ha; eauto.
  1-2: destruct (drawWithCountdown_enter _ _ _ _) as [[[[s' ns] w] started]|] eqn:Hd;
    [|discriminate];
    injection Hfire as <-; cbn [app]; unfold drawWithCountdown_enter in Hd;
    (destruct (busy (app sys)); [injection Hd as <- _ _ _; auto|]);
    (destruct (couponsPool _ _); [|discriminate]);
    (destruct (_ || _); [|injection Hd as <- _ _ _; cbn; auto]);
    (destruct (drawCore _ _ _ _) as [[[s1 ns1] w1]|] eqn:Hcore; [|discriminate]);
    injection Hd as <- _ _ _;
    apply drawCore_appends in Hcore as [(-> & _)|(w0 & row & _ & Hw & Ha)];
    rewrite ?Hw, ?Ha; eauto.
  1-2: destruct (inflight sys); [|discriminate];
    (destruct (rolling _); [discriminate|]);
    (destruct (countdown _) as [|[|n]]; [discriminate| |]);
    injection Hfire as <-; cbn; auto.
  1-2: destruct (inflight sys) as [seen|]; [|discriminate];
    (destruct (rolling _); [|discriminate]);
    (destruct (drawCore _ _ _ _) as [[[s' ns] w]|] eqn:Hcore; [|discriminate]);
    injection Hfire as <-; cbn [app];
    apply drawCore_appends in Hcore as [(-> & _)|(w0 & row & _ & Hw & Ha)];
    rewrite ?Hw, ?Ha; cbn; eauto.
Qed.

End Ledger.

(** X12: the ledger of winners and the audit log only grow at their end:
    along a run without [resetWinners] and [hardReset] the ledger before is a
    prefix of the ledger after, at most one winner longer for each event; along
    a run without the clearing of the audit log and [hardReset], the audit log
    before is a prefix of the audit log after. *)
Theorem ledger_only_grows {T : JS.Text} (evs : list Event) (sys sys' : System) :
  run evs sys = Some sys' ->
  (forallb (fun ev => negb (resets_ledger ev)) evs = true ->
   exists more, winners (app sys') = winners (app sys) ++ more
                /\ (length more <= length evs)%nat)
  /\ (forallb (fun ev => negb (resets_audit ev)) evs = true ->
      exists more, audit (app sys') = audit (app sys) ++ more
                   /\ (length more <= length evs)%nat).
Proof.
  revert sys. induction evs as [|ev evs IH]; intros sys Hrun; cbn in Hrun.
  - injection Hrun as <-. split; intros _; exists []; now rewrite app_nil_r.
  - destruct (fire ev sys) as [sys1|] eqn:Hfire; [|discriminate].
    destruct (IH sys1 Hrun) as [IHw IHa].
    destruct (ledger_step ev sys sys1 Hfire) as [Hw Ha].
    split; intros Hall; cbn [forallb] in Hall;
      apply andb_true_iff in Hall as [Hev Hall]; apply negb_true_iff in Hev.
    + destruct (IHw Hall) as (more & -> & Hlen).
      destruct (Hw Hev) as [->|(w & ->)].
      * exists more. split; [reflexivity | cbn; lia].
      * exists (w :: more). rewrite <- app_assoc. split; [reflexivity | cbn; lia].
    + destruct (IHa Hall) as (more & -> & Hlen).
      destruct (Ha Hev) as [->|(row & ->)].
      * exists more. split; [reflexivity | cbn; lia].
      * exists (row :: more). rewrite <- app_assoc. split; [reflexivity | cbn; lia].
Qed.

Lemma ledger_only_grows_witness :
  let clock := Clock.mk "t" "d" "h" in
  let evs1 := [AddParticipant "Ana" "2"; AddParticipant "Bia" "1"; AddPrize "P1";
               AddPrize "P2"; Draw clock JS.pzero] in
  let evs2 := [RemoveParticipant "Ana"; RemovePrize "P1"; ClearAudit;
               Draw clock JS.pzero] in
  exists sys sys',
    run evs1 start = Some sys /\ run evs2 sys = Some sys'
    /\ map Winner.name (winners (app sys)) = ["Ana"]
    /\ exists more, winners (app sys') = winners (app sys) ++ more.
Proof.
  intros clock evs1 evs2.
  destruct (run evs1 start) as [sys|] eqn:Hrun1; [|vm_compute in Hrun1; discriminate].
  destruct (run evs2 sys) as [sys'|] eqn:Hrun2;
    [|vm_compute in Hrun1; injection Hrun1 as <-; vm_compute in Hrun2; discriminate].
  exists sys, sys'. split; [reflexivity|]. split; [exact Hrun2|].
  split; [vm_compute in Hrun1; injection Hrun1 as <-; reflexivity|].
  destruct (proj1 (ledger_only_grows _ _ _ Hrun2) eq_refl) as (more & Hmore & _).
  exists more. exact Hmore.
Defined.

(** X13: while a draw with countdown is running in a reachable state, no
    event but the expiry of its rolling timer changes the ledger of winners
    or the audit log: the draw buttons do nothing, the resets and the
    clearing of the audit log cannot happen, and the draw stays in flight. *)
Theorem countdown_freezes_ledger {T : JS.Text} (sys sys' : System) (seen : AppState) (ev : Event) :
  reachable sys ->
  inflight sys = Some seen ->
  (forall now rnd, ev <> RollingTimer now rnd) ->
  fire ev sys = Some sys' ->
  winners (app sys') = winners (app sys)
  /\ audit (app sys') = audit (app sys)
  /\ inflight sys' = Some seen.
Proof.
  intros Hreach Hin Hev Hfire. apply reachable_invariant in Hreach as (_ & _ & _ & Hfl).
  rewrite Hin in Hfl. destruct Hfl as (Hb & _).
  destruct ev; cbn [fire] in Hfire; rewrite ?Hb in Hfire; try discriminate.
  - injection Hfire as <-. cbn [app inflight]. unfold addParticipant.
    destruct (invalid_entry _ _); [auto|]. destruct (find _ _); cbn; auto.
  - injection Hfire as <-. cbn. auto.
  - injection Hfire as <-. cbn. auto.
  - injection Hfire as <-. cbn [app inflight]. unfold bulkImport.
    destruct (trimmed_nonempty _); [auto|]. destruct (fold_left _ _ _); cbn; auto.
  - injection Hfire as <-. cbn [app inflight]. unfold addPrize.
    destruct (JS.is_empty _); cbn; auto.
  - injection Hfire as <-. cbn. auto.
  - injection Hfire as <-. cbn. auto.
  - unfold draw in Hfire. rewrite Hb in Hfire. injection Hfire as <-. cbn. auto.
  - unfold drawWithCountdown_enter in Hfire. rewrite Hb in Hfire.
    injection Hfire as <-. cbn. auto.
  - rewrite Hin in Hfire. destruct (rolling _); [discriminate|].
    destruct (countdown _) as [|[|n]]; [discriminate| |];
      injection Hfire as <-; cbn; auto.
  - now destruct (Hev now rnd).
Qed.

Lemma countdown_freezes_ledger_witness :
  let clock := Clock.mk "t" "d" "h" in
  let evs := [AddParticipant "Ana" "2"; AddPrize "P1"; DrawWithCountdown clock JS.pzero;
              CountdownTimer] in
  exists sys,
    run evs start = Some sys
    /\ countdown (app sys) = 2%nat
    /\ fire (Draw clock JS.pzero) sys = Some sys
    /\ fire ResetWinners sys = None.
Proof.
  intros clock evs.
  destruct (run evs start) as [sys|] eqn:Hrun; [|vm_compute in Hrun; discriminate].
  assert (Hreach : reachable sys) by (exists evs; exact Hrun).
  exists sys. split; [reflexivity|].
  destruct (fire (Draw clock JS.pzero) sys) as [sys'|] eqn:Hfire.
  - assert (Hin : inflight sys = Some (addPrize "P1" (fst (addParticipant "Ana" "2" initial))))
      by (vm_compute in Hrun; injection Hrun as <-; reflexivity).
    destruct (countdown_freezes_ledger sys sys' _ (Draw clock JS.pzero) Hreach Hin)
      as (Hw & Ha & Hfl); [discriminate | exact Hfire |].
    vm_compute in Hrun. injection Hrun as <-.
    vm_compute in Hfire. injection Hfire as <-.
    repeat split.
  - vm_compute in Hrun. injection Hrun as <-. vm_compute in Hfire. discriminate.
Defined.

(** X14: a draw with countdown that nothing interrupts does what the
    immediate draw does: from a state that is not busy, with coupons in the
    pool and a prize left, the click, the three expiries of the countdown
    timer and the expiry of the rolling timer lead to the state that the button
    of the immediate draw leads to with the same clock and random number (or
    neither returns). *)
Theorem countdown_draw_is_draw {T : JS.Text} (sys : System) (now0 now : Clock.t) (rnd0 rnd : JS.number)
  (c : Coupon.t) (pool : list Coupon.t) (prize : Prize.t) (rest : list Prize.t) :
  inflight sys = None ->
  busy (app sys) = false ->
  couponsPool (participants (app sys)) (winnersSet (winners (app sys))) = Some (c :: pool) ->
  remainingPrizes (prizes (app sys)) (winners (app sys)) = prize :: rest ->
  run [DrawWithCountdown now0 rnd0; CountdownTimer; CountdownTimer; CountdownTimer;
       RollingTimer now rnd] sys
  = fire (Draw now rnd) sys.
Proof.
  intros Hin Hb Hpool Hrem. destruct sys as [[ps prs ws au h cd r] fl].
  cbn [app inflight] in *. subst fl.
  apply busy_false in Hb as [Hr Hc].
  cbn [participants prizes winners rolling countdown] in *. subst cd r.
  cbn [run fire app inflight]. unfold drawWithCountdown_enter, draw, busy.
  cbn [participants prizes winners rolling countdown Nat.eqb negb orb].
  rewrite Hpool, Hrem. cbn [length Nat.eqb negb orb].
  cbn [app inflight rolling countdown setCountdown setRolling participants prizes
       winners audit highlight].
  unfold setRolling, setCountdown.
  cbn [participants prizes winners audit highlight countdown rolling].
  destruct (drawCore _ now rnd _) as [[[s' ns] w]|]; reflexivity.
Qed.

Lemma countdown_draw_is_draw_witness :
  let clock := Clock.mk "t" "d" "h" in
  let sys := {| app := addPrize "P1" (fst (addParticipant "Ana" "2" initial));
                inflight := None |} in
  exists sys',
    run [DrawWithCountdown clock JS.pzero; CountdownTimer; CountdownTimer; CountdownTimer;
         RollingTimer clock (JS.of_ratio false 3 4)] sys = Some sys'
    /\ winners (app sys') = [Winner.mk "Ana" 2 "P1" "t"].
Proof.
  intros clock sys.
  rewrite (countdown_draw_is_draw sys clock clock JS.pzero (JS.of_ratio false 3 4)
             (Coupon.mk "Ana" 1) [Coupon.mk "Ana" 2] (Prize.mk "P1" 1) []);
    try (vm_compute; reflexivity).
  eexists. split; vm_compute; reflexivity.
Defined.

(** ** Counts written in decimal digits *)

Section DigitCounts.

Context {T : JS.Text} {L : JS.TextLaws T}.

Lemma is_digit_code (c : ascii) : is_digit c = true <-> 48 <= JS.code c <= 57.
Proof. unfold is_digit. rewrite andb_true_iff, !Z.leb_le. tauto. Qed.

Lemma digit_not_space (c : ascii) : is_digit c = true -> JS.is_space c = false.
Proof.
  intros H. apply is_digit_code in H. unfold JS.is_space.
  apply orb_false_iff. split.
  - apply andb_false_iff. right. apply Z.leb_gt. lia.
  - apply Z.eqb_neq. lia.
Qed.

Lemma skip_spaces_digits (l : list ascii) :
  forallb is_digit l = true -> JS.skip_spaces l = l.
Proof.
  destruct l as [|c r]; [reflexivity|]. cbn. intros H.
  apply andb_true_iff in H as [H _]. now rewrite (digit_not_space c H).
Qed.

Lemma ascii_trim_digits (l : list ascii) :
  forallb is_digit l = true -> JS.ascii_trim (JS.str l) = JS.str l.
Proof.
  intros H. unfold JS.ascii_trim, JS.chars, JS.str.
  rewrite list_ascii_of_string_of_list_ascii, (skip_spaces_digits l H).
  rewrite skip_spaces_digits, rev_involutive; [reflexivity|].
  rewrite forallb_forall in *. intros x Hx. apply H. now apply in_rev.
Qed.

Lemma ascii_only_digits (l : list ascii) :
  forallb is_digit l = true -> JS.ascii_only (JS.str l) = true.
Proof.
  intros H. unfold JS.ascii_only, JS.chars, JS.str.
  rewrite list_ascii_of_string_of_list_ascii.
  rewrite forallb_forall in *. intros c Hc.
  apply H, is_digit_code in Hc. apply Z.ltb_lt. lia.
Qed.

(** [trim] leaves a text of digits as it is. *)
Lemma trim_digits (l : list ascii) :
  forallb is_digit l = true -> JS.trim (JS.str l) = JS.str l.
Proof.
  intros H. rewrite JS.trim_ascii by now apply ascii_only_digits.
  now apply ascii_trim_digits.
Qed.

Lemma take_digits_all (l : list ascii) :
  forallb is_digit l = true -> JS.take_digits 10 l = (digit_values l, []).
Proof.
  induction l as [|c r IH]; [reflexivity|]. cbn [forallb]. intros H.
  apply andb_true_iff in H as [Hc Hr]. cbn [JS.take_digits digit_values map].
  rewrite (IH Hr). apply is_digit_code in Hc. unfold JS.digit_of.
  replace ((48 <=? JS.code c) && (JS.code c <=? 57)) with true
    by (symmetry; apply andb_true_iff; rewrite !Z.leb_le; lia).
  replace (JS.code c - 48 <? 10) with true by (symmetry; apply Z.ltb_lt; lia).
  reflexivity.
Qed.

Lemma digits_value_nonneg (ds : list Z) :
  Forall (fun d => 0 <= d) ds -> forall acc, 0 <= acc -> 0 <= fold_left (fun a d => a * 10 + d) ds acc.
Proof.
  induction 1 as [|d ds Hd Hds IH]; intros acc Hacc; [exact Hacc|].
  cbn. apply IH. lia.
Qed.

Lemma digit_values_nonneg (l : list ascii) :
  forallb is_digit l = true -> 0 <= JS.digits_value 10 (digit_values l).
Proof.
  intros H. apply digits_value_nonneg; [|lia].
  unfold digit_values. apply Forall_fmap, Forall_forall. intros c Hc.
  rewrite forallb_forall in H. apply list_elem_of_In, H, is_digit_code in Hc. cbn. lia.
Qed.

Lemma of_decimal_integer (v : Z) : 0 <= v -> JS.of_decimal false v 0 = JS.of_Z v.
Proof.
  intros Hv. destruct v as [|p|p]; [reflexivity| |lia].
  unfold JS.of_decimal, JS.of_Z. f_equal. lia.
Qed.

(** [Number] of a text of decimal digits is the double nearest to the
    integer they spell; of the empty text it is [+0]. *)
Lemma Number_digits (l : list ascii) :
  forallb is_digit l = true ->
  JS.Number (JS.str l) = JS.of_Z (JS.digits_value 10 (digit_values l)).
Proof.
  intros H. unfold JS.Number. rewrite (trim_digits l H).
  unfold JS.chars, JS.str. rewrite list_ascii_of_string_of_list_ascii.
  destruct l as [|c r] eqn:El; [reflexivity|]. rewrite <- El in *.
  assert (Hc : 48 <= JS.code c <= 57).
  { subst l. cbn in H. apply andb_true_iff in H as [H _]. now apply is_digit_code. }
  assert (Hpre : JS.parse_prefixed l = None).
  { subst l. unfold JS.parse_prefixed. destruct r as [|p r']; [reflexivity|].
    destruct (JS.code c =? 48); [|reflexivity].
    assert (Hp : 48 <= JS.code p <= 57).
    { cbn in H. apply andb_true_iff in H as [_ H]. apply andb_true_iff in H as [H _].
      now apply is_digit_code. }
    repeat match goal with
           | |- context [JS.code p =? ?n] =>
               replace (JS.code p =? n) with false by (symmetry; apply Z.eqb_neq; lia)
           end.
    reflexivity. }
  rewrite Hpre.
  assert (Hsign : JS.take_sign l = (false, l)).
  { subst l. unfold JS.take_sign.
    replace (JS.code c =? 45) with false by (symmetry; apply Z.eqb_neq; lia).
    replace (JS.code c =? 43) with false by (symmetry; apply Z.eqb_neq; lia).
    reflexivity. }
  rewrite Hsign. unfold JS.parse_unsigned.
  rewrite bool_decide_eq_false_2.
  2:{ subst l. intros [= E _]. rewrite E in Hc.
      change (JS.code "I") with 73 in Hc. lia. }
  rewrite (take_digits_all l H), app_nil_r.
  destruct (digit_values l) as [|d ds] eqn:Ed; [subst l; discriminate|].
  rewrite <- Ed. cbn [JS.parse_exponent length Z.of_nat]. 
  apply of_decimal_integer. now apply digit_values_nonneg.
Qed.

End DigitCounts.

Section DigitEdits.

Context {T : JS.Text}.

Lemma filter_digits_all (text : string) :
  forallb is_digit (List.filter is_digit (JS.chars text)) = true.
Proof.
  apply forallb_forall. intros c Hc. now apply filter_In in Hc as [_ Hc].
Qed.

Lemma digits_number_nonneg (text : string) : 0 <= digits_number text.
Proof. apply digit_values_nonneg, filter_digits_all. Qed.

(** The count that a text of digits spelling an integer below [2^53]
    gives: that integer, which the clamp leaves alone. *)
Lemma digits_count (v : Z) :
  0 <= v < 2 ^ 53 ->
  JS.to_integer (clamp_qty (JS.of_Z v)) = Some v
  /\ (0 < v -> clamp_qty (JS.of_Z v) = JS.of_Z v
               /\ JS.isFinite (JS.of_Z v) = true
               /\ JS.leb (JS.of_Z v) JS.pzero = false).
Proof.
  intros [H0 H1]. destruct v as [|p|p]; [split; [reflexivity | lia] | | lia].
  destruct (of_Z_small p H1) as (m & e & -> & Hint).
  split; [exact Hint|]. intros _. repeat split.
Qed.

End DigitEdits.

(** X15: the input of a row keeps the digits typed and drops every other
    character; when the digits kept spell an integer [n] below [2^53] ([0]
    when none is kept), leaving the input sets the count of every participant
    of that name to exactly [n], and changes no other participant and no
    name. *)
Theorem row_edit_sets_integer {T : JS.Text} {L : JS.TextLaws T} (name typed : string) (s : AppState) :
  digits_number typed < 2 ^ 53 ->
  exists q,
    JS.to_integer q = Some (digits_number typed)
    /\ 0 <= digits_number typed
    /\ participants (ParticipantRow_edit name typed s)
       = map (fun p => if String.eqb (Participant.name p) name
                       then Participant.mk (Participant.name p) q else p)
           (participants s).
Proof.
  intros Hn. pose proof (digits_number_nonneg typed) as H0.
  exists (clamp_qty (JS.of_Z (digits_number typed))). split; [|split; [exact H0|]].
  - now apply digits_count.
  - unfold ParticipantRow_edit, editParticipantQty, onChange_localQty.
    rewrite (Number_digits _ (filter_digits_all typed)). reflexivity.
Qed.

Lemma row_edit_sets_integer_witness :
  let s := fst (addParticipant "Bia" "1" (fst (addParticipant "Ana" "2" initial))) in
  exists q,
    JS.to_integer q = Some 12
    /\ participants (ParticipantRow_edit "Ana" "1x2 tickets" s)
       = [Participant.mk "Ana" q; Participant.mk "Bia" (JS.of_Z 1)].
Proof.
  intros s.
  destruct (row_edit_sets_integer "Ana" "1x2 tickets" s) as (q & Hq & _ & Hps);
    [vm_compute; reflexivity|].
  exists q. split; [exact Hq|]. rewrite Hps. vm_compute. reflexivity.
Defined.

Section RegisteredTickets.

Context {T : JS.Text}.

Lemma eligible_snoc (ps : list Participant.t) (p : Participant.t) (won : gset string) :
  lower_name p ∉ won -> eligible won (ps ++ [p]) = eligible won ps ++ [p].
Proof.
  intros Hel. unfold eligible. rewrite List.filter_app. cbn [List.filter].
  now rewrite bool_decide_eq_false_2 by exact Hel.
Qed.

Lemma ticket_sum_app (l l' : list Participant.t) :
  ticket_sum (l ++ l') = (ticket_sum l + ticket_sum l')%nat.
Proof.
  induction l as [|p l IH]; [reflexivity|].
  change ((p :: l) ++ l') with (p :: (l ++ l')).
  rewrite !ticket_sum_cons, IH. lia.
Qed.

Lemma pool_spec_snoc (ps : list Participant.t) (p : Participant.t) (won : gset string) :
  lower_name p ∉ won ->
  pool_spec (ps ++ [p]) won
  = pool_spec ps won ++ coupons_of (Participant.name p) (tickets (Participant.qty p)).
Proof.
  intros Hel. unfold pool_spec, eligible.
  rewrite List.filter_app, flat_map_app. cbn [List.filter].
  rewrite bool_decide_eq_false_2 by exact Hel. cbn. now rewrite app_nil_r.
Qed.

End RegisteredTickets.

(** X16: registering a participant with a count written in digits that
    spell an integer [n > 0], under a name that is not empty and that no
    participant and no winner has up to letter case, adds exactly the coupons
    [1 .. n] of that name at the end of the pool, when the array has room for
    them: the length of the pool and [n] add up to at most [2^32 - 1]. *)
Theorem registration_adds_tickets {T : JS.Text} {L : JS.TextLaws T}
  (nameInput qtyInput : string) (s : AppState) (pool : list Coupon.t) :
  forallb is_digit (JS.chars qtyInput) = true ->
  0 < digits_number qtyInput ->
  Z.of_nat (length pool) + digits_number qtyInput <= JS.max_array_length ->
  JS.trim nameInput <> "" ->
  (forall p, p ∈ participants s ->
     JS.toLowerCase (Participant.name p) <> JS.toLowerCase (JS.trim nameInput)) ->
  (forall w, w ∈ winners s ->
     JS.toLowerCase (Winner.name w) <> JS.toLowerCase (JS.trim nameInput)) ->
  couponsPool (participants s) (winnersSet (winners s)) = Some pool ->
  let s' := fst (addParticipant nameInput qtyInput s) in
  couponsPool (participants s') (winnersSet (winners s'))
  = Some (pool ++ coupons_of (JS.trim nameInput) (Z.to_nat (digits_number qtyInput))).
Proof.
  intros Hdig Hlo Hroom Hname Hfresh Hnew Hpool. cbv zeta.
  assert (Hn : JS.Number qtyInput = JS.of_Z (digits_number qtyInput)).
  { unfold digits_number. rewrite <- (Number_digits _ (filter_digits_all qtyInput)).
    rewrite forallb_forall in Hdig.
    rewrite filter_all by (intros c Hc; apply Hdig; now apply list_elem_of_In).
    unfold JS.str, JS.chars. now rewrite string_of_list_ascii_of_string. }
  destruct (digits_count (digits_number qtyInput)) as [Hint Hpos];
    [unfold JS.max_array_length in Hroom; lia|].
  destruct (Hpos Hlo) as (Hclamp & Hfin & Hle).
  unfold addParticipant. rewrite !str_or_empty, Hn. unfold invalid_entry.
  rewrite Hfin, Hle.
  destruct (JS.is_empty _) eqn:E; [apply is_empty_true in E; contradiction|].
  cbn [negb orb].
  assert (Hfind : find
                    (fun x => String.eqb (lower_name x) (JS.toLowerCase (JS.trim nameInput)))
                    (participants s) = None).
  { apply find_lower_None. intros Hin.
    apply list_elem_of_fmap in Hin as (p & Heq & Hp).
    rewrite lower_name_eq in Heq. now apply (Hfresh p Hp). }
  rewrite Hfind. cbn [fst participants winners setParticipants].
  apply couponsPool_Some in Hpool as [-> [Hfinite Hsum]].
  set (new := Participant.mk (JS.trim nameInput) (JS.of_Z (digits_number qtyInput))).
  assert (Hel : lower_name new ∉ winnersSet (winners s)).
  { intros Hin. apply elem_of_winnersSet in Hin as (w & Hw & Heq).
    rewrite lower_name_eq in Heq. apply (Hnew w Hw). symmetry. exact Heq. }
  assert (Htk : tickets (Participant.qty new) = Z.to_nat (digits_number qtyInput)).
  { subst new. cbn [Participant.qty].
    apply (whole_count_tickets _ _ (Z.lt_le_incl _ _ Hlo)). now rewrite <- Hclamp. }
  rewrite length_pool_spec in Hroom.
  rewrite couponsPool_fits.
  - rewrite (pool_spec_snoc _ new _ Hel), Htk. reflexivity.
  - rewrite (eligible_snoc _ new _ Hel). split.
    + apply Forall_app. split; [exact Hfinite|]. apply Forall_singleton.
      cbn. intros Hinf. rewrite Hinf in Hfin. discriminate.
    + rewrite ticket_sum_app, ticket_sum_cons, Htk. cbn [ticket_sum fold_right]. lia.
Qed.

Lemma registration_adds_tickets_witness :
  let s := fst (addParticipant "Ana" "2" initial) in
  couponsPool (participants (fst (addParticipant " Bia " "003" s)))
    (winnersSet (winners (fst (addParticipant " Bia " "003" s))))
  = Some [Coupon.mk "Ana" 1; Coupon.mk "Ana" 2;
          Coupon.mk "Bia" 1; Coupon.mk "Bia" 2; Coupon.mk "Bia" 3].
Proof.
  intros s.
  refine (eq_trans (registration_adds_tickets " Bia " "003" s
                      [Coupon.mk "Ana" 1; Coupon.mk "Ana" 2] _ _ _ _ _ _ _) _);
    try (vm_compute; reflexivity).
  - vm_compute. discriminate.
  - vm_compute. discriminate.
  - intros p Hp. apply list_elem_of_In in Hp. vm_compute in Hp.
    destruct Hp as [<-|[]]. vm_compute. discriminate.
  - intros w Hw. vm_compute in Hw. now apply elem_of_nil in Hw.
Defined.

(** ** More on the bulk import *)

Section Bulk.

Context {T : JS.Text} {L : JS.TextLaws T}.

Lemma trimmed_nonempty_trimmed (l : list string) (x : string) :
  x ∈ trimmed_nonempty l -> JS.trim x = x.
Proof.
  unfold trimmed_nonempty. intros H.
  apply list_elem_of_In, filter_In in H as [H _].
  apply in_map_iff in H as (y & <- & _). apply JS.trim_idem.
Qed.

Lemma trim_empty : JS.trim "" = "".
Proof. now rewrite JS.trim_ascii. Qed.

Lemma part_or_trimmed (l : list string) (i : nat) (d : string) :
  JS.trim d = d -> JS.trim (part_or (trimmed_nonempty l) i d) = part_or (trimmed_nonempty l) i d.
Proof.
  intros Hd. unfold part_or.
  destruct (trimmed_nonempty l !! i) as [x|] eqn:E; [|exact Hd].
  unfold JS.str_or. destruct (JS.is_empty x); [exact Hd|].
  apply (trimmed_nonempty_trimmed l). apply list_elem_of_lookup. eauto.
Qed.

(** The test of the loop for a name that is already there, on the set of
    the registry and on the list to add, is the test of [addParticipant] on
    the registry followed by that list. *)
Lemma import_duplicate_test (ps toAdd : list Participant.t) (name : string) :
  (bool_decide (JS.toLowerCase name ∈ (list_to_set (map lower_name ps) : gset string))
   || existsb (fun x => String.eqb (JS.toLowerCase (Participant.name x))
                          (JS.toLowerCase name)) toAdd)
  = match find (fun x => String.eqb (lower_name x) (JS.toLowerCase name)) (ps ++ toAdd) with
    | Some _ => true
    | None => false
    end.
Proof.
  destruct (find _ _) eqn:E.
  - apply find_some in E as [Hin Heq]. apply String.eqb_eq in Heq.
    apply in_app_or in Hin as [Hin|Hin]; apply orb_true_iff.
    + left. apply bool_decide_eq_true, elem_of_list_to_set.
      rewrite <- Heq. apply list_elem_of_fmap_2. now apply list_elem_of_In.
    + right. apply existsb_exists. exists t. split; [exact Hin|].
      rewrite <- lower_name_eq, Heq. apply String.eqb_refl.
  - apply find_lower_None in E. rewrite map_app, elem_of_app in E.
    apply orb_false_iff. split.
    + apply bool_decide_eq_false. rewrite elem_of_list_to_set. tauto.
    + apply not_true_iff_false. intros H. apply existsb_exists in H as (x & Hin & Heq).
      apply String.eqb_eq in Heq. apply E. right. rewrite <- Heq, <- lower_name_eq.
      apply list_elem_of_fmap_2. now apply list_elem_of_In.
Qed.

(** One turn of the loop against one registration. *)
Lemma import_line_is_addParticipant (s : AppState) (line : string)
  (toAdd : list Participant.t) (skipped : nat) :
  let st := setParticipants (fun _ => participants s ++ toAdd) s in
  fst (addParticipant (fst (line_fields line)) (snd (line_fields line)) st)
  = setParticipants
      (fun _ => participants s
                ++ fst (import_line (list_to_set (map lower_name (participants s)))
                          (toAdd, skipped) line))
      s.
Proof.
  cbv zeta. unfold addParticipant, import_line, line_fields. cbn [fst snd].
  set (parts := trimmed_nonempty (JS.split_class is_field_sep line)).
  rewrite !str_or_empty.
  assert (Hname : JS.trim (part_or parts 0 "") = part_or parts 0 "")
    by (apply part_or_trimmed, trim_empty).
  rewrite Hname.
  destruct (invalid_entry _ _); [reflexivity|].
  rewrite import_duplicate_test. cbn [participants setParticipants].
  destruct (find _ _); [reflexivity|].
  cbn. now rewrite app_assoc.
Qed.

Lemma import_lines_are_registrations (s : AppState) (lines : list string) :
  forall (toAdd : list Participant.t) (skipped : nat),
    fold_left
      (fun st line =>
         fst (addParticipant (fst (line_fields line)) (snd (line_fields line)) st))
      lines (setParticipants (fun _ => participants s ++ toAdd) s)
    = setParticipants
        (fun _ => participants s
                  ++ fst (fold_left
                            (import_line (list_to_set (map lower_name (participants s))))
                            lines (toAdd, skipped)))
        s.
Proof.
  induction lines as [|l lines IH]; intros toAdd skipped; [reflexivity|].
  cbn [fold_left]. rewrite (import_line_is_addParticipant s l toAdd skipped).
  destruct (import_line _ (toAdd, skipped) l) as [toAdd' skipped'].
  cbn [fst]. apply IH.
Qed.

(** Every turn of the loop adds one participant or counts one line. *)
Lemma import_lines_count (won : gset string) (lines : list string) :
  forall (toAdd : list Participant.t) (skipped : nat),
    let r := fold_left (import_line won) lines (toAdd, skipped) in
    (length (fst r) + snd r = length toAdd + skipped + length lines)%nat
    /\ exists added, fst r = toAdd ++ added.
Proof.
  induction lines as [|l lines IH]; intros toAdd skipped; cbv zeta.
  - cbn. split; [lia|]. exists []. now rewrite app_nil_r.
  - cbn [fold_left length].
    destruct (import_line won (toAdd, skipped) l) as [toAdd' skipped'] eqn:E.
    destruct (IH toAdd' skipped') as [Hlen (added & Hadd)].
    unfold import_line in E.
    destruct (invalid_entry _ _).
    + injection E as <- <-. split; [lia | eauto].
    + destruct (_ || _).
      * injection E as <- <-. split; [lia | eauto].
      * injection E as <- <-. rewrite length_app in Hlen. cbn in Hlen. split; [lia|].
        rewrite Hadd, <- app_assoc. eauto.
Qed.

End Bulk.

(** X17: a bulk import is the registration of its lines one after the
    other: the state after [bulkImport] is the state after [addParticipant]
    on the first and the second field of each line that is not blank, in the
    order of the text (a line without a second field counts as the count
    "0"). *)
Theorem bulkImport_is_registrations {T : JS.Text} {L : JS.TextLaws T} (raw : string) (s : AppState) :
  fst (bulkImport s raw s)
  = fold_left
      (fun st line =>
         fst (addParticipant (fst (line_fields line)) (snd (line_fields line)) st))
      (trimmed_nonempty (JS.split_runs is_newline raw))
      s.
Proof.
  unfold bulkImport. rewrite str_or_empty.
  destruct (trimmed_nonempty _) as [|l lines] eqn:E; [reflexivity|].
  assert (Hs : s = setParticipants (fun _ => participants s ++ []) s).
  { destruct s. unfold setParticipants. cbn. now rewrite app_nil_r. }
  etransitivity; [|apply (f_equal (fold_left _ (l :: lines))); symmetry; exact Hs].
  rewrite (import_lines_are_registrations s (l :: lines) [] O).
  destruct (fold_left (import_line _) _ _) as [toAdd skipped]. reflexivity.
Qed.

Lemma bulkImport_is_registrations_witness :
  let raw := ("Ana,2" ++ newline ++ newline ++ " ana ; 5" ++ newline ++ "Bia,3,x")%string in
  participants (fst (bulkImport initial raw initial))
  = [Participant.mk "Ana" (JS.of_Z 2); Participant.mk "Bia" (JS.of_Z 3)].
Proof.
  intros raw. rewrite (bulkImport_is_registrations raw initial).
  vm_compute. reflexivity.
Defined.

(** X18: the result of a bulk import, state and notice, in terms of the
    registration of its lines.  The state is the state after
    [addParticipant] on the two fields of each line that is not blank, in the
    order of the text; it keeps the participants that were registered, in
    their order, followed by those that these registrations add, at most one
    for a line; and the number reported as skipped is the number of lines
    less the number of participants added, with no notice exactly when it is
    0. *)
Theorem bulkImport_accounts {T : JS.Text} {L : JS.TextLaws T} (raw : string)
  (s : AppState) :
  let lines := trimmed_nonempty (JS.split_runs is_newline raw) in
  let registered :=
    fold_left
      (fun st line =>
         fst (addParticipant (fst (line_fields line)) (snd (line_fields line)) st))
      lines s in
  exists added,
    participants registered = participants s ++ added
    /\ (length added <= length lines)%nat
    /\ bulkImport s raw s
       = (registered,
          match (length lines - length added)%nat with
          | O => []
          | S _ => [LinesSkipped (length lines - length added)]
          end).
Proof.
  cbv zeta. unfold bulkImport. rewrite str_or_empty.
  destruct (trimmed_nonempty _) as [|l lines] eqn:E.
  - exists []. cbn. rewrite app_nil_r. repeat split. lia.
  - assert (Hs : s = setParticipants (fun _ => participants s ++ []) s).
    { destruct s. unfold setParticipants. cbn. now rewrite app_nil_r. }
    assert (Hreg :
              fold_left
                (fun st line =>
                   fst (addParticipant (fst (line_fields line)) (snd (line_fields line)) st))
                (l :: lines) s
              = setParticipants
                  (fun _ => participants s
                            ++ fst (fold_left
                                      (import_line (list_to_set (map lower_name (participants s))))
                                      (l :: lines) ([], O)))
                  s).
    { etransitivity; [apply (f_equal (fold_left _ (l :: lines))); exact Hs|].
      apply import_lines_are_registrations. }
    rewrite Hreg. clear Hreg Hs.
    destruct (import_lines_count (list_to_set (map lower_name (participants s)))
                (l :: lines) [] O) as [Hlen _].
    destruct (fold_left (import_line _) _ _) as [toAdd skipped].
    cbn [fst snd] in *. exists toAdd. cbn [participants setParticipants].
    split; [reflexivity|]. split; [cbn [length] in *; lia|].
    replace (length (l :: lines) - length toAdd)%nat with skipped
      by (cbn [length] in *; lia).
    reflexivity.
Qed.

Lemma bulkImport_accounts_witness :
  let raw := ("Ana,2" ++ newline ++ newline ++ " ana ; 5" ++ newline ++ "Bia,3,x")%string in
  bulkImport initial raw initial
  = (setParticipants
       (fun _ => [Participant.mk "Ana" (JS.of_Z 2); Participant.mk "Bia" (JS.of_Z 3)])
       initial,
     [LinesSkipped 1]).
Proof.
  intros raw.
  destruct (bulkImport_accounts raw initial) as (added & Hadd & _ & Hres).
  rewrite Hres. vm_compute in Hadd. subst added. vm_compute. reflexivity.
Defined.

(** ** The fields of the exported audit log *)

Section Csv.

Context {T : JS.Text}.

Lemma read_quoted_doubled (l : list ascii) :
  read_quoted (double_quotes l ++ [dquote]) = Some l.
Proof.
  induction l as [|c r IH]; [reflexivity|].
  cbn [double_quotes]. destruct (Ascii.eqb c dquote) eqn:E.
  - apply Ascii.eqb_eq in E. subst c.
    change (read_quoted (dquote :: dquote :: (double_quotes r ++ [dquote]))
            = Some (dquote :: r)).
    cbn [read_quoted]. rewrite Ascii.eqb_refl, IH. reflexivity.
  - change (read_quoted (c :: (double_quotes r ++ [dquote])) = Some (c :: r)).
    cbn [read_quoted]. rewrite E, IH. reflexivity.
Qed.

End Csv.

(** X19: a field written by [escape] reads back as the text it was written
    from, whatever quotes, commas and line feeds the text has: reading the
    field as a quoted field, in which a doubled quote stands for a quote,
    gives the text; so two texts with the same field are the same text. *)
Theorem escape_reads_back (text : string) :
  unquote (escape text) = Some text
  /\ forall text', escape text' = escape text -> text' = text.
Proof.
  assert (Hback : forall t, unquote (escape t) = Some t).
  { intros t. unfold unquote, escape, JS.chars, JS.str.
    rewrite list_ascii_of_string_of_list_ascii, Ascii.eqb_refl, read_quoted_doubled.
    cbn. now rewrite string_of_list_ascii_of_string. }
  split; [apply Hback|]. intros text' H.
  pose proof (Hback text') as H'. rewrite H, Hback in H'. now injection H' as ->.
Qed.

(** ** Removing a participant *)

Section RemoveParticipant.

Context {T : JS.Text}.

Lemma eligible_filter (f : Participant.t -> bool) (ps : list Participant.t)
  (won : gset string) :
  eligible won (List.filter f ps) = List.filter f (eligible won ps).
Proof.
  unfold eligible. induction ps as [|p ps IH]; [reflexivity|].
  cbn [List.filter]. destruct (f p) eqn:F; cbn [List.filter];
    destruct (negb _); cbn [List.filter]; rewrite ?F, IH; reflexivity.
Qed.

Lemma pool_spec_remove (ps : list Participant.t) (won : gset string) (name : string) :
  pool_spec (List.filter (fun p => negb (String.eqb (Participant.name p) name)) ps) won
  = List.filter (fun c => negb (String.eqb (Coupon.name c) name)) (pool_spec ps won).
Proof.
  unfold pool_spec, eligible. induction ps as [|p ps IH]; [reflexivity|].
  cbn [List.filter].
  destruct (String.eqb (Participant.name p) name) eqn:E; cbn [negb];
    destruct (bool_decide (lower_name p ∈ won)) eqn:W; cbn [negb List.filter flat_map];
    rewrite ?W; cbn [negb flat_map]; rewrite ?List.filter_app, IH; try reflexivity.
  - rewrite (filter_coupons_of _ _ _ false); [reflexivity|].
    intros i. cbn. now rewrite E.
  - rewrite (filter_coupons_of _ _ _ true); [reflexivity|].
    intros i. cbn. now rewrite E.
Qed.

End RemoveParticipant.

(** X20: removing a participant takes the coupons of that name out of the
    pool and leaves every other coupon in its place: the pool after
    [removeParticipant] is the pool before without the coupons whose name is
    exactly the removed one. *)
Theorem removeParticipant_removes_tickets {T : JS.Text} (name : string) (s : AppState)
  (pool : list Coupon.t) :
  couponsPool (participants s) (winnersSet (winners s)) = Some pool ->
  let s' := removeParticipant name s in
  couponsPool (participants s') (winnersSet (winners s'))
  = Some (List.filter (fun c => negb (String.eqb (Coupon.name c) name)) pool).
Proof.
  intros Hpool. cbv zeta. cbn [removeParticipant participants winners setParticipants].
  apply couponsPool_Some in Hpool as [-> Hfit].
  rewrite <- pool_spec_remove. apply couponsPool_fits.
  rewrite eligible_filter. now apply fits_filter.
Qed.

Lemma removeParticipant_removes_tickets_witness :
  let s := fst (addParticipant "Bia" "1" (fst (addParticipant "Ana" "2" initial))) in
  couponsPool (participants (removeParticipant "Ana" s))
    (winnersSet (winners (removeParticipant "Ana" s)))
  = Some [Coupon.mk "Bia" 1].
Proof.
  intros s.
  refine (eq_trans (removeParticipant_removes_tickets "Ana" s
                      [Coupon.mk "Ana" 1; Coupon.mk "Ana" 2; Coupon.mk "Bia" 1] _) _);
    vm_compute; reflexivity.
Defined.

(** X21: removing the participant that was just registered undoes the
    registration, and does nothing more when the registration was refused:
    if no participant has exactly the trimmed name, [removeParticipant] of
    that name after [addParticipant] gives back the state. *)
Theorem removeParticipant_undoes_addParticipant {T : JS.Text} (nameInput qtyInput : string)
  (s : AppState) :
  (forall p, p ∈ participants s -> Participant.name p <> JS.trim nameInput) ->
  removeParticipant (JS.trim nameInput) (fst (addParticipant nameInput qtyInput s)) = s.
Proof.
  intros Hfresh.
  assert (Hkeep : List.filter
                    (fun p => negb (String.eqb (Participant.name p) (JS.trim nameInput)))
                    (participants s) = participants s).
  { apply filter_all. intros p Hp. apply negb_true_iff, String.eqb_neq. auto. }
  unfold addParticipant. rewrite str_or_empty.
  destruct (invalid_entry _ _); [|destruct (find _ _)];
    destruct s as [ps prs ws au h c r]; unfold removeParticipant, setParticipants;
    cbn in *; f_equal; rewrite ?List.filter_app, Hkeep; try reflexivity.
  cbn. rewrite String.eqb_refl. cbn. apply app_nil_r.
Qed.

Lemma removeParticipant_undoes_addParticipant_witness :
  let s := fst (addParticipant "Ana" "2" initial) in
  removeParticipant "Bia" (fst (addParticipant " Bia " "3" s)) = s.
Proof.
  intros s. change "Bia" with (JS.trim " Bia ").
  apply (removeParticipant_undoes_addParticipant " Bia " "3" s).
  intros p Hp. apply list_elem_of_In in Hp. vm_compute in Hp.
  destruct Hp as [<-|[]]. vm_compute. discriminate.
Defined.
